(** * The vehicle-price dashboard: CSV tokenizer, field cleaner and aggregator

    A shallow embedding of [src/app/page.tsx] (the functions [parseCSV],
    [handleFileUpload] and the [chartsData] memo of the [App] component),
    followed by the properties proved about it.

    Modelling conventions.
    - A JavaScript string is a Rocq [string]; each [ascii] stands for one
      UTF-16 code unit in the range 0..255 (Latin-1 text).  White space and
      lower-casing are those of ECMAScript restricted to that range.
    - A JavaScript number is a value of an abstract type [num] with the
      operations of the class [Host]; the source computes with IEEE doubles,
      and a theorem stated over [Host] holds for any arithmetic: the few
      laws that some theorems need are those of [HostLaws], which doubles
      satisfy.  [Exact] instantiates the
      class with exact rationals for concrete evaluations.  Row counts are
      natural numbers (they stay far below 2^53, where doubles are exact).
    - A JavaScript object used as a dictionary is an association list of its
      own properties in insertion order ([object]).  Such an object inherits
      from [Object.prototype]: reading a name that the object does not hold
      itself finds the property of that name of [Object.prototype] when
      there is one ([inherited]), and assigning a value that is not an
      object to the name [__proto__] stores nothing ([assign]).
    - React state is a record; each setter is a field update. *)

From Stdlib Require Import String Ascii List ZArith QArith Qround Lia Bool Arith.
From Stdlib Require Import Permutation Sorted.
Import ListNotations.
Close Scope Q_scope.
Local Open Scope string_scope.
Local Open Scope nat_scope.

(** ** Strings *)

Definition quote : ascii := "034"%char.
Definition comma : ascii := ","%char.
Definition LF : ascii := "010"%char.
Definition CR : ascii := "013"%char.

(** ECMAScript WhiteSpace and LineTerminator code units below 256. *)
Definition isWhiteSpace (c : ascii) : bool :=
  let n := nat_of_ascii c in
  (n =? 9) || (n =? 10) || (n =? 11) || (n =? 12) || (n =? 13)
  || (n =? 32) || (n =? 160).

Definition isDigit (c : ascii) : bool :=
  let n := nat_of_ascii c in (48 <=? n) && (n <=? 57).

Fixpoint trimStart (s : string) : string :=
  match s with
  | EmptyString => EmptyString
  | String c s' => if isWhiteSpace c then trimStart s' else s
  end.

Fixpoint trimEnd (s : string) : string :=
  match s with
  | EmptyString => EmptyString
  | String c s' =>
      match trimEnd s' with
      | EmptyString => if isWhiteSpace c then EmptyString else String c EmptyString
      | t => String c t
      end
  end.

(** [String.prototype.trim] *)
Definition trim (s : string) : string := trimEnd (trimStart s).

Definition lowerChar (c : ascii) : ascii :=
  let n := nat_of_ascii c in
  if ((65 <=? n) && (n <=? 90))
     || ((192 <=? n) && (n <=? 222) && negb (n =? 215))
  then ascii_of_nat (n + 32) else c.

(** [String.prototype.toLowerCase] *)
Fixpoint toLowerCase (s : string) : string :=
  match s with
  | EmptyString => EmptyString
  | String c s' => String (lowerChar c) (toLowerCase s')
  end.

(** [s.includes(m)] *)
Fixpoint includes (s m : string) : bool :=
  prefix m s
  || match s with
     | EmptyString => false
     | String _ s' => includes s' m
     end.

(** Puts [c] in front of the first piece of a split. *)
Definition consPiece (c : ascii) (l : list string) : list string :=
  match l with
  | h :: t => String c h :: t
  | [] => [String c EmptyString]
  end.

(** [s.split(sep)] for a separator of one character. *)
Fixpoint splitChar (sep : ascii) (s : string) : list string :=
  match s with
  | EmptyString => [EmptyString]
  | String c s' =>
      if Ascii.eqb c sep then EmptyString :: splitChar sep s'
      else consPiece c (splitChar sep s')
  end.

(** [text.split(/\r?\n/)] *)
Fixpoint splitLines (s : string) : list string :=
  match s with
  | EmptyString => [EmptyString]
  | String c s' =>
      if Ascii.eqb c LF then EmptyString :: splitLines s'
      else
        match s' with
        | String c2 s'' =>
            if Ascii.eqb c CR && Ascii.eqb c2 LF
            then EmptyString :: splitLines s''
            else consPiece c (splitLines s')
        | EmptyString => consPiece c (splitLines s')
        end
  end.

(** [s.split(sep)] for a separator [sep] of at least one character; [skip]
    counts the characters of a separator just matched that are still to be
    passed over. *)
Fixpoint splitFrom (sep : string) (skip : nat) (s : string) : list string :=
  match s with
  | EmptyString => [EmptyString]
  | String c s' =>
      match skip with
      | S k => splitFrom sep k s'
      | O =>
          if prefix sep s
          then EmptyString :: splitFrom sep (String.length sep - 1) s'
          else consPiece c (splitFrom sep 0 s')
      end
  end.

Definition split (sep s : string) : list string := splitFrom sep 0 s.

(** [s.replace(/QUOTE/g, EMPTY)]: every double quote is removed. *)
Fixpoint removeQuotes (s : string) : string :=
  match s with
  | EmptyString => EmptyString
  | String c s' =>
      if Ascii.eqb c quote then removeQuotes s' else String c (removeQuotes s')
  end.

(** [s.replace(a, b)] for one-character strings [a] and [b]: the first
    occurrence only. *)
Fixpoint replaceFirst (a b : ascii) (s : string) : string :=
  match s with
  | EmptyString => EmptyString
  | String c s' =>
      if Ascii.eqb c a then String b s' else String c (replaceFirst a b s')
  end.

Definition dropLeadingQuote (s : string) : string :=
  match s with
  | String c s' => if Ascii.eqb c quote then s' else s
  | EmptyString => EmptyString
  end.

Fixpoint dropTrailingQuote (s : string) : string :=
  match s with
  | EmptyString => EmptyString
  | String c s' =>
      match s' with
      | EmptyString => if Ascii.eqb c quote then EmptyString else s
      | _ => String c (dropTrailingQuote s')
      end
  end.

(** [s.replace(/^QUOTE|QUOTE$/g, EMPTY)]: a double quote at the start and a
    double quote at the end are removed. *)
Definition stripOuterQuotes (s : string) : string :=
  dropTrailingQuote (dropLeadingQuote s).

(** ** Numbers *)

(** The numbers of the host: IEEE doubles in a JavaScript engine.
    [ofDecimal neg m e] is the number nearest to [(-1)^neg * m * 10^e];
    [toBoolean] is the truth value of a number (false for zeros and NaN);
    [localeCompare] is the collation of the host. *)
Class Host (num : Type) := {
  NaN : num;
  Infinity : bool -> num;
  ofDecimal : bool -> N -> Z -> num;
  plus : num -> num -> num;
  divide : num -> num -> num;
  Math_round : num -> num;
  isNaN : num -> bool;
  toBoolean : num -> bool;
  localeCompare : string -> string -> Z
}.

(** The digit prefix of [s] and what follows it. *)
Fixpoint spanDigits (s : string) : string * string :=
  match s with
  | EmptyString => (EmptyString, EmptyString)
  | String c s' =>
      if isDigit c
      then let '(d, r) := spanDigits s' in (String c d, r)
      else (EmptyString, s)
  end.

Definition digitValue (c : ascii) : N := (N_of_ascii c - 48)%N.

(** The value of a string of decimal digits, most significant first. *)
Fixpoint digitsValueFrom (acc : N) (s : string) : N :=
  match s with
  | EmptyString => acc
  | String c s' => digitsValueFrom (10 * acc + digitValue c)%N s'
  end.

Definition digitsValue (s : string) : N := digitsValueFrom 0 s.

(** An optional sign in front of [s]. *)
Definition spanSign (s : string) : bool * string :=
  match s with
  | String "-"%char r => (true, r)
  | String "+"%char r => (false, r)
  | _ => (false, s)
  end.

(** The ExponentPart at the start of [s], 0 when there is none. *)
Definition scanExponent (s : string) : Z :=
  match s with
  | String c r =>
      if Ascii.eqb c "e"%char || Ascii.eqb c "E"%char
      then
        let '(neg, r1) := spanSign r in
        let '(d, _) := spanDigits r1 in
        if String.eqb d EmptyString then 0%Z
        else if neg then (- Z.of_N (digitsValue d))%Z
             else Z.of_N (digitsValue d)
      else 0%Z
  | EmptyString => 0%Z
  end.

(** What the longest prefix of a string that is a StrDecimalLiteral denotes. *)
Inductive literal :=
  | LitInfinity (neg : bool)
  | LitDecimal (neg : bool) (mantissa : N) (exp10 : Z).

Definition scanFloat (s : string) : option literal :=
  let '(neg, s1) := spanSign (trimStart s) in
  if prefix "Infinity" s1 then Some (LitInfinity neg)
  else
    let '(d1, s2) := spanDigits s1 in
    let '(d2, s3) :=
      match s2 with
      | String "."%char r => spanDigits r
      | _ => (EmptyString, s2)
      end in
    if String.eqb d1 EmptyString && String.eqb d2 EmptyString then None
    else
      Some (LitDecimal neg (digitsValue (d1 ++ d2))
              (scanExponent s3 - Z.of_nat (String.length d2))).

Definition hexValue (c : ascii) : option N :=
  let n := N_of_ascii c in
  if ((48 <=? n) && (n <=? 57))%N then Some (n - 48)%N
  else if ((97 <=? n) && (n <=? 102))%N then Some (n - 87)%N
  else if ((65 <=? n) && (n <=? 70))%N then Some (n - 55)%N
  else None.

(** The value of the longest prefix of hexadecimal digits, [None] when the
    prefix is empty. *)
Fixpoint scanHex (acc : option N) (s : string) : option N :=
  match s with
  | EmptyString => acc
  | String c s' =>
      match hexValue c with
      | Some v =>
          scanHex (Some (16 * match acc with Some a => a | None => 0 end + v)%N) s'
      | None => acc
      end
  end.

(** What [parseInt] reads with no radix given: sign and magnitude. *)
Definition scanInt (s : string) : option (bool * N) :=
  let '(neg, s1) := spanSign (trimStart s) in
  if prefix "0x" s1 || prefix "0X" s1
  then
    match scanHex None (substring 2 (String.length s1 - 2) s1) with
    | Some v => Some (neg, v)
    | None => None
    end
  else
    let '(d, _) := spanDigits s1 in
    if String.eqb d EmptyString then None else Some (neg, digitsValue d).

Section Numbers.
Context {num : Type} `{Host num}.

Definition zero : num := ofDecimal false 0 0.

(** A count as a number. *)
Definition ofCount (n : nat) : num := ofDecimal false (N.of_nat n) 0.

Definition parseFloat (s : string) : num :=
  match scanFloat s with
  | None => NaN
  | Some (LitInfinity neg) => Infinity neg
  | Some (LitDecimal neg m e) => ofDecimal neg m e
  end.

Definition parseInt (s : string) : num :=
  match scanInt s with
  | None => NaN
  | Some (neg, v) => ofDecimal neg v 0
  end.

(** [x || 0] for a number [x] that may be undefined. *)
Definition orZero (x : option num) : num :=
  match x with
  | Some v => if toBoolean v then v else zero
  | None => zero
  end.

(** The truth value of a number that may be undefined. *)
Definition truthy (x : option num) : bool :=
  match x with
  | Some v => toBoolean v
  | None => false
  end.
End Numbers.

(** ** Objects used as dictionaries *)

Definition object (V : Type) : Type := list (string * V).

(** [o[k]], [None] for undefined. *)
Fixpoint getProp {V : Type} (k : string) (o : object V) : option V :=
  match o with
  | [] => None
  | (k', v) :: o' => if String.eqb k' k then Some v else getProp k o'
  end.

(** [o[k] = v]: an existing property keeps its place, a new one goes last. *)
Fixpoint setProp {V : Type} (k : string) (v : V) (o : object V) : object V :=
  match o with
  | [] => [(k, v)]
  | (k', v') :: o' =>
      if String.eqb k' k then (k, v) :: o' else (k', v') :: setProp k v o'
  end.

(** The names of the properties of [Object.prototype], as ECMAScript with
    its Annex B defines them and as browsers have them.  All but
    [__proto__] are functions; [__proto__] is an accessor: reading it gives
    the prototype object, and assigning to it a value that is not an object
    does nothing.  A function and an object are truthy. *)
Definition prototypeFunctions : list string :=
  [ "constructor"; "hasOwnProperty"; "isPrototypeOf"; "propertyIsEnumerable";
    "toLocaleString"; "toString"; "valueOf"; "__defineGetter__";
    "__defineSetter__"; "__lookupGetter__"; "__lookupSetter__" ].

Definition isPrototypeFunction (k : string) : bool :=
  existsb (String.eqb k) prototypeFunctions.

(** Whether [o[k]] is found in [Object.prototype] when [o] does not hold
    [k] itself. *)
Definition inherited (k : string) : bool :=
  String.eqb k "__proto__" || isPrototypeFunction k.

(** [o[k] = v] for a value [v] that is not an object (a string or a
    number): under [__proto__] nothing is stored. *)
Definition assign {V : Type} (k : string) (v : V) (o : object V) : object V :=
  if String.eqb k "__proto__" then o else setProp k v o.

(** An array index is a canonical numeric string below 2^32 - 1; own
    properties with such names are listed first, in ascending order. *)
Definition arrayIndex (k : string) : option N :=
  match k with
  | EmptyString => None
  | String c r =>
      let '(d, rest) := spanDigits k in
      if String.eqb rest EmptyString
         && (negb (Ascii.eqb c "0"%char) || String.eqb r EmptyString)
         && (digitsValue d <? 4294967295)%N
      then Some (digitsValue d) else None
  end.

Fixpoint insertIndexed {V : Type} (i : N) (e : string * V)
    (l : list (N * (string * V))) : list (N * (string * V)) :=
  match l with
  | [] => [(i, e)]
  | (j, e') :: l' =>
      if (i <=? j)%N then (i, e) :: l else (j, e') :: insertIndexed i e l'
  end.

(** The indexed properties of [o] in ascending order of index. *)
Fixpoint indexedProps {V : Type} (o : object V) : list (N * (string * V)) :=
  match o with
  | [] => []
  | (k, v) :: o' =>
      match arrayIndex k with
      | Some i => insertIndexed i (k, v) (indexedProps o')
      | None => indexedProps o'
      end
  end.

Definition namedProps {V : Type} (o : object V) : object V :=
  filter (fun e => match arrayIndex (fst e) with Some _ => false | None => true end) o.

Definition Object_entries {V : Type} (o : object V) : list (string * V) :=
  map snd (indexedProps o) ++ namedProps o.

Definition Object_keys {V : Type} (o : object V) : list string :=
  map fst (Object_entries o).

Definition Object_values {V : Type} (o : object V) : list V :=
  map snd (Object_entries o).

(** ** Arrays *)

(** Stable insertion for [Array.prototype.sort]: [x], which stood before
    every element of [l], goes in front of the first element it does not
    compare greater than. *)
Fixpoint sortInsert {A : Type} (cmp : A -> A -> Z) (x : A) (l : list A) : list A :=
  match l with
  | [] => [x]
  | y :: l' => if (cmp x y <=? 0)%Z then x :: l else y :: sortInsert cmp x l'
  end.

(** [a.sort(cmp)] for a consistent comparator.  Under a comparator that is
    not consistent ECMAScript leaves the order to the engine; the list
    here is then one rearrangement among those an engine may give. *)
Definition sort {A : Type} (cmp : A -> A -> Z) (l : list A) : list A :=
  fold_right (sortInsert cmp) [] l.

(** ** The CSV tokenizer: [parseCSV] *)

(** A parsed row: the object built for one line, header name to field. *)
Definition Row : Type := object string.

(** The variables of the loop over the characters of a line. *)
Record LineState := {
  row : Row;
  currentVal : string;
  inQuotes : bool;
  colIndex : nat
}.

(** [if (colIndex < headers.length) row[headers[colIndex]] = currentVal...] *)
Definition storeField (headers : list string) (st : LineState) : Row :=
  if colIndex st <? List.length headers
  then assign (nth (colIndex st) headers EmptyString)
              (trim (stripOuterQuotes (currentVal st))) (row st)
  else row st.

(** One turn of the loop, at character [c]. *)
Definition lineStep (headers : list string) (st : LineState) (c : ascii) : LineState :=
  if Ascii.eqb c quote then
    {| row := row st; currentVal := currentVal st;
       inQuotes := negb (inQuotes st); colIndex := colIndex st |}
  else if Ascii.eqb c comma && negb (inQuotes st) then
    {| row := storeField headers st; currentVal := EmptyString;
       inQuotes := inQuotes st; colIndex := colIndex st + 1 |}
  else
    {| row := row st; currentVal := currentVal st ++ String c EmptyString;
       inQuotes := inQuotes st; colIndex := colIndex st |}.

Fixpoint lineLoop (headers : list string) (line : string) (st : LineState) : LineState :=
  match line with
  | EmptyString => st
  | String c line' => lineLoop headers line' (lineStep headers st c)
  end.

(** The row object of one line: the loop, then the last value of the line. *)
Definition parseLine (headers : list string) (line : string) : Row :=
  storeField headers
    (lineLoop headers line
       {| row := []; currentVal := EmptyString; inQuotes := false; colIndex := 0 |}).

(** The body of the loop over the lines after the header. *)
Definition pushLine (headers : list string) (result : list Row) (line : string) : list Row :=
  if String.eqb (trim line) EmptyString then result
  else
    let r := parseLine headers line in
    if 0 <? List.length (Object_keys r) then result ++ [r] else result.

Definition parseCSV (text : string) : list Row :=
  match splitLines text with
  | [] => []
  | header :: rest =>
      let headers := map trim (splitChar comma header) in
      fold_left (pushLine headers) rest []
  end.

(** ** The field cleaner and the upload handlers: [handleFileUpload] *)

Section Dashboard.
Context {num : Type} `{Host num}.

(** A cleaned row: the parsed row and the five fields added to it.  A
    field that may be undefined is an option. *)
Record CarData := {
  raw : Row;
  engine_size_clean : option num;
  avg_price_clean : option num;
  year_model_clean : num;
  fuel_clean : option string;
  brand_clean : string
}.

Definition cleanRow (r : Row) : CarData :=
  {| raw := r;
     engine_size_clean :=
       match getProp "engine_size" r with
       | Some engine =>
           Some (parseFloat (replaceFirst comma "."%char (removeQuotes engine)))
       | None => None
       end;
     avg_price_clean :=
       match getProp "avg_price_brl" r with
       | Some price => Some (parseFloat price)
       | None => None
       end;
     year_model_clean :=
       match getProp "year_model" r with
       | Some y => if String.eqb y EmptyString then zero else parseInt y
       | None => zero
       end;
     fuel_clean := getProp "fuel" r;
     brand_clean :=
       match getProp "brand" r with
       | Some b =>
           if String.eqb b EmptyString then "Outros"
           else hd EmptyString (split " - " b)
       | None => "Outros"
       end |}.

(** The predicate of the final filter. *)
Definition keepRow (d : CarData) : bool :=
  negb (isNaN (orZero (avg_price_clean d)))
  && negb (String.eqb (brand_clean d) EmptyString).

Definition cleanData (rawData : list Row) : list CarData :=
  filter keepRow (map cleanRow rawData).

(** The state of the component. *)
Record AppState := {
  data : list CarData;
  loading : bool;
  fileName : option string;
  error : option string
}.

(** The result of a computation that may throw. *)
Inductive outcome (A : Type) : Type :=
  | Return (a : A)
  | Throw (reason : string).
Arguments Return {A} a.
Arguments Throw {A} reason.

Definition bind {A B : Type} (m : outcome A) (k : A -> outcome B) : outcome B :=
  match m with
  | Return a => k a
  | Throw e => Throw e
  end.

Definition readError : string := "Erro ao ler o arquivo.".

Definition processError : string :=
  "Erro ao processar dados. Verifique se o arquivo "
  ++ String "233"%char " um CSV v" ++ String "225"%char "lido.".

(** [handleFileUpload] up to the start of the read; [file] is the name of
    the chosen file, if one was chosen. *)
Definition handleFileUpload (file : option string) (st : AppState) : AppState :=
  match file with
  | None => st
  | Some name =>
      {| data := data st; loading := true; fileName := Some name; error := None |}
  end.

(** [reader.onload] over any parser and cleaner: the body of the [try]
    runs in [outcome], the [catch] handles its [Throw]. *)
Definition onloadWith (parse : string -> outcome (list Row))
    (clean : list Row -> outcome (list CarData))
    (result : option string) (st : AppState) : AppState :=
  let failed msg :=
    {| data := data st; loading := false; fileName := fileName st;
       error := Some msg |} in
  match result with
  | None => failed readError
  | Some text =>
      if String.eqb text EmptyString then failed readError
      else
        match bind (parse text) clean with
        | Return cleanedData =>
            {| data := cleanedData; loading := false;
               fileName := fileName st; error := error st |}
        | Throw _ => failed processError
        end
  end.

(** [reader.onload] of the component. *)
Definition onload (result : option string) (st : AppState) : AppState :=
  onloadWith (fun text => Return (parseCSV text))
             (fun rawData => Return (cleanData rawData)) result st.

(** [reader.onerror] *)
Definition onerror (st : AppState) : AppState :=
  {| data := data st; loading := false; fileName := fileName st;
     error := Some readError |}.
End Dashboard.

Arguments CarData num : clear implicits.
Arguments AppState num : clear implicits.
Arguments Return {A} a.
Arguments Throw {A} reason.

(** ** The aggregator: [chartsData] *)

(** What a counter dictionary holds under a name: a number of rows, or,
    under the name [f] of a function of [Object.prototype], the text that
    [(o[f] || 0) + 1] makes of that function (its source text, which starts
    with the word function, followed by the digit 1) with one more digit 1
    for each later row: [ones] digits in all. *)
Inductive tally : Type :=
  | Count (n : nat)
  | Pasted (f : string) (ones : nat).

(** [(o[k] || 0) + 1], [own] being what [o] holds itself under [k].  Under
    [__proto__] the sum is a text as well, which [assign] never stores. *)
Definition bump (k : string) (own : option tally) : tally :=
  match own with
  | Some (Count n) => Count (n + 1)
  | Some (Pasted f m) => Pasted f (m + 1)
  | None => if isPrototypeFunction k then Pasted k 1 else Count 1
  end.

(** [b - a] as the sort takes it: the difference of two numbers; the
    difference with a text is NaN, which the sort takes for 0. *)
Definition byValue (a b : tally) : Z :=
  match a, b with
  | Count x, Count y => (Z.of_nat y - Z.of_nat x)%Z
  | _, _ => 0%Z
  end.

Record BrandData := { brand_name : string; brand_value : tally }.

Record GearData := { gear_name : string; gear_value : tally }.

Definition Q1_months : list string :=
  ["january"; "february"; "march"; "jan"; "fev"; "feb"; "mar"].
Definition Q2_months : list string :=
  ["april"; "may"; "june"; "abr"; "apr"; "mai"; "jun"].
Definition Q3_months : list string :=
  ["july"; "august"; "september"; "jul"; "ago"; "aug"; "set"; "sep"].
Definition Q4_months : list string :=
  ["october"; "november"; "december"; "out"; "oct"; "nov"; "dez"; "dec"].

(** [months.some(m => monthRef.includes(m))] *)
Definition someIncluded (months : list string) (monthRef : string) : bool :=
  existsb (fun m => includes monthRef m) months.

(** The quarter of a lower-cased month. *)
Definition quarterOf (monthRef : string) : string :=
  if someIncluded Q1_months monthRef then "Q1"
  else if someIncluded Q2_months monthRef then "Q2"
  else if someIncluded Q3_months monthRef then "Q3"
  else if someIncluded Q4_months monthRef then "Q4"
  else "Q4".

(** [names.includes(x)] *)
Definition arrayIncludes (names : list string) (x : string) : bool :=
  existsb (String.eqb x) names.

Section Aggregator.
Context {num : Type} `{Host num}.

Record EvolutionData := { evolution_name : string; price : num }.

Record GroupedData := { grouped_name : string; Automatico : num; Manual : num }.

Record Kpis := { totalCars : nat; avgPrice : num; mostCommonBrand : string }.

Record ChartsData := {
  brandData : list BrandData;
  gearData : list GearData;
  evolutionData : list EvolutionData;
  groupedData : list GroupedData;
  kpis : Kpis
}.

Record PriceEvolutionItem := {
  total : num;
  count : nat;
  sortKey : string;
  display : string
}.

Record GroupedDataItem := {
  name : string;
  automatic : num;
  manual : num;
  countAuto : nat;
  countManual : nat
}.

(** [d.gear] of a cleaned row. *)
Definition gear (d : CarData num) : option string := getProp "gear" (raw d).

(** 1. [brandCount[brand] = (brandCount[brand] || 0) + 1] when [brand] is
    not empty. *)
Definition countBrand (brandCount : object tally) (d : CarData num) : object tally :=
  let brand := brand_clean d in
  if String.eqb brand EmptyString then brandCount
  else assign brand (bump brand (getProp brand brandCount)) brandCount.

Definition brandDataOf (dat : list (CarData num)) : list BrandData :=
  firstn 10
    (sort (fun a b => byValue (brand_value a) (brand_value b))
       (map (fun e => {| brand_name := fst e; brand_value := snd e |})
          (Object_entries (fold_left countBrand dat [])))).

(** 2. [d.gear || 'Desconhecido'] *)
Definition gearOrUnknown (d : CarData num) : string :=
  match gear d with
  | Some g => if String.eqb g EmptyString then "Desconhecido" else g
  | None => "Desconhecido"
  end.

Definition countGear (gearCount : object tally) (d : CarData num) : object tally :=
  let g := gearOrUnknown d in
  assign g (bump g (getProp g gearCount)) gearCount.

Definition gearDataOf (dat : list (CarData num)) : list GearData :=
  map (fun e => {| gear_name := fst e; gear_value := snd e |})
    (Object_entries (fold_left countGear dat [])).

(** 3. One turn of the loop that fills [priceEvolution].  Every key starts
    with the letter Q of its quarter, so that none names a property of
    [Object.prototype]. *)
Definition addPrice (priceEvolution : object PriceEvolutionItem)
    (d : CarData num) : object PriceEvolutionItem :=
  match getProp "month_of_reference" (raw d),
        getProp "year_of_reference" (raw d),
        avg_price_clean d with
  | Some month, Some yearRef, Some p =>
      if String.eqb month EmptyString || String.eqb yearRef EmptyString
         || negb (toBoolean p)
      then priceEvolution
      else
        let monthRef := toLowerCase month in
        let quarter := quarterOf monthRef in
        let key := quarter ++ "/" ++ yearRef in
        let item :=
          match getProp key priceEvolution with
          | Some it => it
          | None => {| total := zero; count := 0;
                       sortKey := yearRef ++ "-" ++ quarter; display := key |}
          end in
        setProp key
          {| total := plus (total item) p; count := count item + 1;
             sortKey := sortKey item; display := display item |}
          priceEvolution
  | _, _, _ => priceEvolution
  end.

Definition evolutionDataOf (dat : list (CarData num)) : list EvolutionData :=
  map (fun item =>
         {| evolution_name := display item;
            price := Math_round (divide (total item) (ofCount (count item))) |})
    (sort (fun a b => localeCompare (sortKey a) (sortKey b))
       (Object_values (fold_left addPrice dat []))).

(** 4. One turn of the loop that fills [groupedDataObj].  Under a brand
    that [groupedDataObj] does not hold itself and that names a property of
    [Object.prototype], [groupedDataObj[brand]] is that property, which is
    truthy: no entry is made, and the sums that follow are written on that
    function or object, outside the dictionary, where nothing reads
    them. *)
Definition addGrouped (groupedDataObj : object GroupedDataItem)
    (d : CarData num) : object GroupedDataItem :=
  let brand := brand_clean d in
  if match getProp brand groupedDataObj with
     | Some _ => false
     | None => inherited brand
     end
  then groupedDataObj
  else
  let item :=
    match getProp brand groupedDataObj with
    | Some it => it
    | None => {| name := brand; automatic := zero; manual := zero;
                 countAuto := 0; countManual := 0 |}
    end in
  let p := orZero (avg_price_clean d) in
  let item' :=
    if match gear d with Some g => String.eqb g "automatic" | None => false end
       && truthy (avg_price_clean d)
    then {| name := name item; automatic := plus (automatic item) p;
            manual := manual item; countAuto := countAuto item + 1;
            countManual := countManual item |}
    else if match gear d with Some g => String.eqb g "manual" | None => false end
            && truthy (avg_price_clean d)
    then {| name := name item; automatic := automatic item;
            manual := plus (manual item) p; countAuto := countAuto item;
            countManual := countManual item + 1 |}
    else item in
  setProp brand item' groupedDataObj.

Definition groupedDataOf (dat : list (CarData num)) : list GroupedData :=
  let top5Brands := map brand_name (firstn 6 (brandDataOf dat)) in
  map (fun item =>
         {| grouped_name := name item;
            Automatico :=
              if countAuto item =? 0 then zero
              else Math_round (divide (automatic item) (ofCount (countAuto item)));
            Manual :=
              if countManual item =? 0 then zero
              else Math_round (divide (manual item) (ofCount (countManual item))) |})
    (Object_values
       (fold_left addGrouped
          (filter (fun d => arrayIncludes top5Brands (brand_clean d)) dat) [])).

Definition kpisOf (dat : list (CarData num)) : Kpis :=
  let totalCars := List.length dat in
  {| totalCars := totalCars;
     avgPrice :=
       if 0 <? totalCars
       then divide
              (fold_left (fun acc curr => plus acc (orZero (avg_price_clean curr)))
                 dat zero)
              (ofCount totalCars)
       else zero;
     mostCommonBrand :=
       match brandDataOf dat with
       | b :: _ => brand_name b
       | [] => "-"
       end |}.

(** The memo: [null] is [None]. *)
Definition chartsData (dat : list (CarData num)) : option ChartsData :=
  if List.length dat =? 0 then None
  else
    Some {| brandData := brandDataOf dat;
            gearData := gearDataOf dat;
            evolutionData := evolutionDataOf dat;
            groupedData := groupedDataOf dat;
            kpis := kpisOf dat |}.
End Aggregator.

Arguments EvolutionData num : clear implicits.
Arguments GroupedData num : clear implicits.
Arguments Kpis num : clear implicits.
Arguments ChartsData num : clear implicits.
Arguments PriceEvolutionItem num : clear implicits.
Arguments GroupedDataItem num : clear implicits.

(** ** An exact host

    Numbers as exact rationals with NaN and the two infinities: no rounding,
    no overflow and no negative zero.  Used to evaluate the program on
    concrete inputs. *)
Module Exact.

Inductive number :=
  | Nan
  | Inf (neg : bool)
  | Fin (q : Q).

Definition isNeg (q : Q) : bool := (Qnum q <? 0)%Z.
Definition isZero (q : Q) : bool := (Qnum q =? 0)%Z.

Definition decimal (neg : bool) (m : N) (e : Z) : number :=
  let v := Qmult (inject_Z (Z.of_N m)) (Qpower (inject_Z 10) e) in
  Fin (Qred (if neg then Qopp v else v)).

Definition sum (a b : number) : number :=
  match a, b with
  | Nan, _ | _, Nan => Nan
  | Inf s, Inf t => if Bool.eqb s t then Inf s else Nan
  | Inf s, Fin _ | Fin _, Inf s => Inf s
  | Fin x, Fin y => Fin (Qred (Qplus x y))
  end.

Definition quotient (a b : number) : number :=
  match a, b with
  | Nan, _ | _, Nan => Nan
  | Inf _, Inf _ => Nan
  | Inf s, Fin y => Inf (xorb s (isNeg y))
  | Fin _, Inf _ => Fin 0
  | Fin x, Fin y =>
      if isZero y then (if isZero x then Nan else Inf (isNeg x))
      else Fin (Qred (Qdiv x y))
  end.

(** [Math.round]: the integer nearest to [x], a tie going up. *)
Definition round (a : number) : number :=
  match a with
  | Fin x => Fin (inject_Z (Qfloor (Qplus x (1 # 2))))
  | _ => a
  end.

Definition isNan (a : number) : bool :=
  match a with Nan => true | _ => false end.

Definition nonZero (a : number) : bool :=
  match a with
  | Nan => false
  | Inf _ => true
  | Fin x => negb (isZero x)
  end.

(** Code units compared one by one. *)
Definition compareStrings (a b : string) : Z :=
  match String.compare a b with
  | Lt => (-1)%Z
  | Eq => 0%Z
  | Gt => 1%Z
  end.

#[global] Instance host : Host number := {|
  NaN := Nan;
  Infinity := Inf;
  ofDecimal := decimal;
  plus := sum;
  divide := quotient;
  Math_round := round;
  isNaN := isNan;
  toBoolean := nonZero;
  localeCompare := compareStrings
|}.

End Exact.

(** ** The fields of a line *)

(** A line split on the commas that stand outside double quotes, the quotes
    themselves left out; [inQ] tells whether a quote is open. *)
Fixpoint rawFields (inQ : bool) (line : string) : list string :=
  match line with
  | EmptyString => [EmptyString]
  | String c line' =>
      if Ascii.eqb c quote then rawFields (negb inQ) line'
      else if Ascii.eqb c comma && negb inQ then EmptyString :: rawFields inQ line'
      else consPiece c (rawFields inQ line')
  end.

(** The same split with the quotes kept in the pieces. *)
Fixpoint rawPieces (inQ : bool) (line : string) : list string :=
  match line with
  | EmptyString => [EmptyString]
  | String c line' =>
      if Ascii.eqb c quote then consPiece c (rawPieces (negb inQ) line')
      else if Ascii.eqb c comma && negb inQ then EmptyString :: rawPieces inQ line'
      else consPiece c (rawPieces inQ line')
  end.

(** The number of double quotes in [s]. *)
Fixpoint quotesIn (s : string) : nat :=
  match s with
  | EmptyString => 0
  | String c s' => (if Ascii.eqb c quote then 1 else 0) + quotesIn s'
  end.

(** [pieces] is [line] cut at its commas outside double quotes, and only
    there: the pieces joined by commas make up the line; every piece but
    the last holds an even number of quotes, so that the comma behind it
    stands outside quotes; every comma within a piece has an odd number of
    quotes of the piece in front of it, so that it stands between an
    opening quote and the quote that closes it (or the end of the line). *)
Definition cutOutsideQuotes (line : string) (pieces : list string) : Prop :=
  pieces <> []
  /\ String.concat "," pieces = line
  /\ Forall (fun p => Nat.even (quotesIn p) = true) (removelast pieces)
  /\ Forall (fun p => forall a b, p = a ++ String comma b ->
                                  Nat.odd (quotesIn a) = true) pieces.

(** The field values of a line. *)
Definition fields (line : string) : list string := map trim (rawFields false line).

(** The row object after the assignments [row[h] = v], for each header [h]
    with the value [v] in its position, in the order of the positions;
    headers without a value and values without a header take no part. *)
Definition rowOf (headers values : list string) : Row :=
  fold_left (fun r hv => assign (fst hv) (snd hv) r) (combine headers values) [].

Definition isBlank (line : string) : bool := String.eqb (trim line) EmptyString.

(** [p] holds of every character of [s]. *)
Fixpoint allChars (p : ascii -> bool) (s : string) : bool :=
  match s with
  | EmptyString => true
  | String c s' => p c && allChars p s'
  end.

Definition notQuote (c : ascii) : bool := negb (Ascii.eqb c quote).
Definition plainChar (c : ascii) : bool :=
  negb (Ascii.eqb c quote) && negb (Ascii.eqb c comma).

(** The text of [s] before the first occurrence of [sep]: all of [s] when
    there is none. *)
Fixpoint beforeFirst (sep s : string) : string :=
  if prefix sep s then EmptyString
  else
    match s with
    | EmptyString => EmptyString
    | String c s' => String c (beforeFirst sep s')
    end.

(** [cur] put in front of the first piece of [l]. *)
Definition consStr (cur : string) (l : list string) : list string :=
  match l with
  | h :: t => (cur ++ h) :: t
  | [] => [cur]
  end.

(** The values [vals] stored from column [i] on. *)
Definition storeAll (headers : list string) (i : nat) (vals : list string) (r : Row) : Row :=
  fold_left (fun r hv => assign (fst hv) (snd hv) r) (combine (skipn i headers) vals) r.

(** ** Notions used in the statements about the cleaner *)

Section CleanerNotions.
Context {num : Type} `{Host num}.

(** The number that the digits [a], a decimal mark and the digits [b]
    denote. *)
Definition decimalNumber (a b : string) : num :=
  ofDecimal false (digitsValue (a ++ b)) (- Z.of_nat (String.length b)).
End CleanerNotions.

(** ** Notions used in the statements about the aggregator *)

(** The names of the months, lower-cased, each with the number of its
    month: English and Portuguese, in full and abbreviated.  Code unit 231
    is the c with cedilla. *)
Definition monthNames : list (string * nat) :=
  [ ("january", 1); ("february", 2); ("march", 3); ("april", 4); ("may", 5);
    ("june", 6); ("july", 7); ("august", 8); ("september", 9);
    ("october", 10); ("november", 11); ("december", 12);
    ("jan", 1); ("feb", 2); ("mar", 3); ("apr", 4); ("jun", 6); ("jul", 7);
    ("aug", 8); ("sep", 9); ("oct", 10); ("nov", 11); ("dec", 12);
    ("janeiro", 1); ("fevereiro", 2); ("mar" ++ String "231"%char "o", 3);
    ("abril", 4); ("maio", 5); ("junho", 6); ("julho", 7); ("agosto", 8);
    ("setembro", 9); ("outubro", 10); ("novembro", 11); ("dezembro", 12);
    ("fev", 2); ("abr", 4); ("mai", 5); ("ago", 8); ("set", 9); ("out", 10);
    ("dez", 12) ].

(** The calendar quarter of month number [m]. *)
Definition quarterName (m : nat) : string :=
  if m <=? 3 then "Q1" else if m <=? 6 then "Q2" else if m <=? 9 then "Q3" else "Q4".

(** A dictionary filled by one loop over the rows: row [d] is filed under
    [key d] (not at all when that is [None]); the entry of a key starts as
    [init] and is carried on by [upd] at each row filed under it. *)
Section GroupBy.
Context {A V : Type}.
Variable key : A -> option string.
Variable init : string -> A -> V.
Variable upd : V -> A -> V.

Definition groupStep (o : object V) (d : A) : object V :=
  match key d with
  | None => o
  | Some k =>
      setProp k
        (upd (match getProp k o with Some v => v | None => init k d end) d) o
  end.

(** The rows filed under [k], in their order. *)
Definition members (k : string) (l : list A) : list A :=
  filter (fun d => match key d with Some k' => String.eqb k' k | None => false end) l.
End GroupBy.

Section AggregatorNotions.
Context {num : Type} `{Host num}.

(** The rows of brand [b]. *)
Definition rowsOfBrand (b : string) (dat : list (CarData num)) : list (CarData num) :=
  filter (fun d => String.eqb (brand_clean d) b) dat.

(** The rows of gear [g]; the rows whose gear is missing or empty are
    those of the gear 'Desconhecido'. *)
Definition rowsOfGear (g : string) (dat : list (CarData num)) : list (CarData num) :=
  filter (fun d =>
            match getProp "gear" (raw d) with
            | Some x =>
                if String.eqb x EmptyString then String.eqb g "Desconhecido"
                else String.eqb x g
            | None => String.eqb g "Desconhecido"
            end) dat.

(** Whether no row has a brand, or a gear, that names a property of
    [Object.prototype]. *)
Definition plainBrands (dat : list (CarData num)) : bool :=
  forallb (fun d => negb (inherited (brand_clean d))) dat.

Definition plainGears (dat : list (CarData num)) : bool :=
  forallb (fun d =>
             match getProp "gear" (raw d) with
             | Some x => negb (inherited x)
             | None => true
             end) dat.

(** The order of the brand series: the brand with more rows first. *)
Definition byRows (dat : list (CarData num)) (a b : BrandData) : Prop :=
  List.length (rowsOfBrand (brand_name b) dat)
  <= List.length (rowsOfBrand (brand_name a) dat).

(** The key of the quarter group that the aggregator files a row under:
    none when the month, the year or the price is missing or falsy. *)
Definition quarterKey (d : CarData num) : option string :=
  match getProp "month_of_reference" (raw d),
        getProp "year_of_reference" (raw d),
        avg_price_clean d with
  | Some month, Some yearRef, Some p =>
      if String.eqb month EmptyString || String.eqb yearRef EmptyString
         || negb (toBoolean p)
      then None
      else Some (quarterOf (toLowerCase month) ++ "/" ++ yearRef)
  | _, _, _ => None
  end.


(** The avg_price_clean of a row that has one. *)
Definition rowPrice (d : CarData num) : num :=
  match avg_price_clean d with
  | Some p => p
  | None => zero
  end.

(** The entry a quarter group starts as, at the first row [d] filed under
    [k], and how a row carries it on. *)
Definition newQuarter (k : string) (d : CarData num) : PriceEvolutionItem num :=
  match getProp "month_of_reference" (raw d), getProp "year_of_reference" (raw d) with
  | Some month, Some yearRef =>
      {| total := zero; count := 0;
         sortKey := yearRef ++ "-" ++ quarterOf (toLowerCase month);
         display := k |}
  | _, _ => {| total := zero; count := 0; sortKey := EmptyString; display := k |}
  end.

Definition addToQuarter (item : PriceEvolutionItem num) (d : CarData num)
    : PriceEvolutionItem num :=
  {| total := plus (total item) (rowPrice d); count := count item + 1;
     sortKey := sortKey item; display := display item |}.
End AggregatorNotions.

(** The keys that the gear counter and the brand counter file a row under. *)
Section CounterKeys.
Context {num : Type} `{Host num}.

Definition gearKey (d : CarData num) : option string :=
  if String.eqb (gearOrUnknown d) "__proto__" then None else Some (gearOrUnknown d).

Definition brandKey (d : CarData num) : option string :=
  if String.eqb (brand_clean d) EmptyString || String.eqb (brand_clean d) "__proto__"
  then None else Some (brand_clean d).

(** What a counter starts from under the name [k], and how a row carries
    it on. *)
Definition startTally (k : string) (d : CarData num) : tally :=
  if isPrototypeFunction k then Pasted k 0 else Count 0.

Definition nextTally (t : tally) (d : CarData num) : tally :=
  match t with
  | Count n => Count (n + 1)
  | Pasted f m => Pasted f (m + 1)
  end.

(** The tally of [n] rows under the name [k]. *)
Definition tallyOf (k : string) (n : nat) : tally :=
  if isPrototypeFunction k then Pasted k n else Count n.

(** The number of rows that a tally stands for. *)
Definition rowsCounted (t : tally) : nat :=
  match t with
  | Count n => n
  | Pasted _ n => n
  end.
End CounterKeys.

(** ** A sample file

    A header and five lines: a quoted field with a decimal comma, a field
    beyond the last header, a blank line, a line ending in CR LF and a
    short line. *)
Definition sampleCsv : string :=
  "year_of_reference, month_of_reference,brand,gear,engine_size,avg_price_brl"
  ++ String LF
       ("2021,January,GM - Chevrolet,manual,"
        ++ String quote ("1,6" ++ String quote (",9162.0"
        ++ String LF ("2021,Maio,VW - VolksWagen,automatic,2,10000.5,extra"
        ++ String LF ("   "
        ++ String LF ("2021,fevereiro,GM - Chevrolet,,1,1234"
        ++ String CR (String LF ("2022,December" ++ String LF EmptyString)))))))).

Definition sampleData : list (CarData Exact.number) :=
  cleanData (parseCSV sampleCsv).

Definition sampleCharts : ChartsData Exact.number :=
  {| brandData := brandDataOf sampleData;
     gearData := gearDataOf sampleData;
     evolutionData := evolutionDataOf sampleData;
     groupedData := groupedDataOf sampleData;
     kpis := kpisOf sampleData |}.

(** ** Laws of a host

    What a property may assume of the numbers and of the collation of the
    host, where it needs it: NaN is falsy, zero is not NaN, and the
    collation is a total preorder.  Doubles and the collations of
    JavaScript engines satisfy them. *)
Class HostLaws (num : Type) `{Host num} : Prop := {
  NaN_falsy : forall x : num, isNaN x = true -> toBoolean x = false;
  zero_not_NaN : isNaN (zero (num := num)) = false;
  collation_flip :
    forall a b : string,
      (0 < localeCompare a b)%Z -> (localeCompare b a <= 0)%Z;
  collation_trans :
    forall a b c : string,
      (localeCompare a b <= 0)%Z -> (localeCompare b c <= 0)%Z ->
      (localeCompare a c <= 0)%Z
}.

(** ** The page: what is displayed, and the button that removes the file *)

Section Page.
Context {num : Type} `{Host num}.

(** The blocks of the page that depend on the state: the upload section
    with its two messages, and the dashboard with the derived series. *)
Record View := {
  uploadSection : bool;
  loadingMessage : bool;
  errorMessage : option string;
  dashboard : option (ChartsData num)
}.

(** The conditions of the markup: the upload section stands under
    [!data.length], its messages under [loading] and [error], the
    dashboard under [chartsData]. *)
Definition render (st : AppState num) : View :=
  let upload := List.length (data st) =? 0 in
  {| uploadSection := upload;
     loadingMessage := upload && loading st;
     errorMessage :=
       if upload then
         match error st with
         | Some e => if String.eqb e EmptyString then None else Some e
         | None => None
         end
       else None;
     dashboard := chartsData (data st) |}.

(** The button of the control bar: [setData([])]. *)
Definition removeFile (st : AppState num) : AppState num :=
  {| data := []; loading := loading st; fileName := fileName st;
     error := error st |}.
End Page.

Arguments View num : clear implicits.

(** ** Notions used in the statements about the tokenizer *)

(** The header names of a text: the trimmed fields of its first line. *)
Definition headersOf (text : string) : list string :=
  map trim (splitChar comma (hd EmptyString (splitLines text))).

Definition notLF (c : ascii) : bool := negb (Ascii.eqb c LF).

(** A character that is no part of a line break. *)
Definition noBreak (c : ascii) : bool :=
  negb (Ascii.eqb c LF) && negb (Ascii.eqb c CR).

(** The lines [l :: ls] with the line break [eol] between them. *)
Fixpoint joinLines (eol : string) (l : string) (ls : list string) : string :=
  match ls with
  | [] => l
  | l' :: ls' => l ++ eol ++ joinLines eol l' ls'
  end.

Definition lineFeed : string := String LF EmptyString.
Definition carriageReturnLineFeed : string := String CR (String LF EmptyString).

(** A text without a carriage return at its end, and lines with the last of
    them so cut. *)
Fixpoint chopCR (s : string) : string :=
  match s with
  | EmptyString => EmptyString
  | String c s' =>
      match s' with
      | EmptyString => if Ascii.eqb c CR then EmptyString else s
      | _ => String c (chopCR s')
      end
  end.

Fixpoint chopLast (ls : list string) : list string :=
  match ls with
  | [] => []
  | l :: ls' =>
      match ls' with
      | [] => [chopCR l]
      | _ => l :: chopLast ls'
      end
  end.

(** [c] put behind the last piece of [l]. *)
Fixpoint snocPiece (c : ascii) (l : list string) : list string :=
  match l with
  | [] => []
  | p :: l' =>
      match l' with
      | [] => [p ++ String c EmptyString]
      | _ => p :: snocPiece c l'
      end
  end.

(** ** Notions used in the statements about the grouped series *)

Section GroupedNotions.
Context {num : Type} `{Host num}.

(** The rows of brand [b] with the gear [g] and a truthy price: those that
    the grouped series averages. *)
Definition pricedRows (b g : string) (dat : list (CarData num)) : list (CarData num) :=
  filter (fun d =>
            String.eqb (brand_clean d) b
            && match gear d with Some x => String.eqb x g | None => false end
            && truthy (avg_price_clean d)) dat.

(** The rounded mean of the prices of [rows], zero when there is none. *)
Definition roundedMean (rows : list (CarData num)) : num :=
  if List.length rows =? 0 then zero
  else Math_round
         (divide (fold_left plus (map rowPrice rows) zero)
                 (ofCount (List.length rows))).

(** The key, the first entry and the step of the loop that fills
    [groupedDataObj]. *)
Definition groupedKey (d : CarData num) : option string :=
  if inherited (brand_clean d) then None else Some (brand_clean d).

Definition newGroup (k : string) (d : CarData num) : GroupedDataItem num :=
  {| name := k; automatic := zero; manual := zero;
     countAuto := 0; countManual := 0 |}.

Definition hasGear (g : string) (d : CarData num) : bool :=
  match gear d with Some x => String.eqb x g | None => false end
  && truthy (avg_price_clean d).

Definition addToGroup (item : GroupedDataItem num) (d : CarData num)
    : GroupedDataItem num :=
  if hasGear "automatic" d
  then {| name := name item; automatic := plus (automatic item) (rowPrice d);
          manual := manual item; countAuto := countAuto item + 1;
          countManual := countManual item |}
  else if hasGear "manual" d
  then {| name := name item; automatic := automatic item;
          manual := plus (manual item) (rowPrice d); countAuto := countAuto item;
          countManual := countManual item + 1 |}
  else item.

(** The names of the brands that the grouped series keeps. *)
Definition topBrands (dat : list (CarData num)) : list string :=
  map brand_name (firstn 6 (brandDataOf dat)).

(** The sort key year-quarter of the group named quarter/year. *)
Definition sortKeyOf (groupName : string) : string :=
  substring 3 (String.length groupName - 3) groupName
  ++ "-" ++ substring 0 2 groupName.

(** The order of the evolution series: that of the sort keys under the
    collation of the host. *)
Definition byQuarter (a b : EvolutionData num) : Prop :=
  (localeCompare (sortKeyOf (evolution_name a)) (sortKeyOf (evolution_name b)) <= 0)%Z.
End GroupedNotions.

Definition quarterNames : list string := ["Q1"; "Q2"; "Q3"; "Q4"].

Section BrandNotions.
Context {num : Type} `{Host num}.

(** The brand series before the cut to ten entries. *)
Definition allBrands (dat : list (CarData num)) : list BrandData :=
  sort (fun a b => byValue (brand_value a) (brand_value b))
    (map (fun e => {| brand_name := fst e; brand_value := snd e |})
       (Object_entries (fold_left countBrand dat []))).

End BrandNotions.

(** ** The colours: [lightenColor] and the fills of the charts *)

Definition COLORS : list string :=
  ["#0088FE"; "#00C49F"; "#FFBB28"; "#FF8042"; "#8884d8"; "#82ca9d"; "#ffc658"].

Definition BRAND_COLORS : object string :=
  [ ("Ford", "#003478"); ("VW", "#001E50"); ("GM", "#2951A3");
    ("Fiat", "#AD0F2F"); ("Renault", "#FFCC33"); ("Nissan", "#C3002F");
    ("Chevrolet", "#2951A3"); ("Toyota", "#EB0A1E"); ("Honda", "#CC0000");
    ("Hyundai", "#002C5F") ].

Definition GEAR_COLORS : object string :=
  [ ("automatic", "#1B4F72"); ("manual", "#2874A6") ].

(** [s.replace(c, EMPTY)] for a one-character string [c]: the first
    occurrence of [c] is left out. *)
Fixpoint removeFirst (c : ascii) (s : string) : string :=
  match s with
  | EmptyString => EmptyString
  | String x s' => if Ascii.eqb x c then s' else String x (removeFirst c s')
  end.

(** The double nearest to the integer [v], [0 <= v]: [v] itself below
    2^53, else [v] rounded to 53 significant bits, a tie going to the even
    one; [None] when that overflows to Infinity. *)
Definition roundToDouble (v : Z) : option Z :=
  if (v <? 2 ^ 53)%Z then Some v
  else
    let e := (Z.log2 v - 52)%Z in
    let q := Z.shiftr v e in
    let r := (v - Z.shiftl q e)%Z in
    let half := Z.shiftl 1 (e - 1) in
    let q' :=
      if (r <? half)%Z then q
      else if (half <? r)%Z then (q + 1)%Z
      else if Z.even q then q else (q + 1)%Z in
    let w := Z.shiftl q' e in
    if (2 ^ 1024 <=? w)%Z then None else Some w.

(** What [parseInt(s, 16)] reads: sign and magnitude of the longest prefix
    of hexadecimal digits, after white space, a sign and [0x]; [None] for
    NaN. *)
Definition scanHexInt (s : string) : option (bool * N) :=
  let '(neg, s1) := spanSign (trimStart s) in
  let s2 :=
    if prefix "0x" s1 || prefix "0X" s1
    then substring 2 (String.length s1 - 2) s1 else s1 in
  match scanHex None s2 with
  | Some v => Some (neg, v)
  | None => None
  end.

(** [parseInt(s, 16)] as an integer; [None] stands for NaN and for an
    infinity, which the bit operators both take for 0. *)
Definition parseInt16 (s : string) : option Z :=
  match scanHexInt s with
  | Some (neg, v) =>
      match roundToDouble (Z.of_N v) with
      | Some w => Some (if neg then (- w)%Z else w)
      | None => None
      end
  | None => None
  end.

(** An integer taken modulo 2^32 into the signed 32-bit range. *)
Definition wrap32 (z : Z) : Z := ((z + 2 ^ 31) mod 2 ^ 32 - 2 ^ 31)%Z.

(** ToInt32 of a number that is an integer, NaN or an infinity. *)
Definition ToInt32 (x : option Z) : Z :=
  match x with
  | Some z => wrap32 z
  | None => 0%Z
  end.

(** The operators [>>], [<<], [&] and [|] on integers. *)
Definition sar (a k : Z) : Z := Z.shiftr (wrap32 a) k.
Definition shl (a k : Z) : Z := wrap32 (Z.shiftl (wrap32 a) k).
Definition bitand (a b : Z) : Z := Z.land (wrap32 a) (wrap32 b).
Definition bitor (a b : Z) : Z := Z.lor (wrap32 a) (wrap32 b).

Definition hexDigit (d : Z) : ascii :=
  if (d <? 10)%Z then ascii_of_N (Z.to_N (48 + d))
  else ascii_of_N (Z.to_N (87 + d)).

(** The hexadecimal digits of [n], [0 <= n], in front of [acc]; [fuel]
    bounds their number. *)
Fixpoint hexDigitsOf (fuel : nat) (n : Z) (acc : string) : string :=
  match fuel with
  | O => acc
  | S f =>
      let acc' := String (hexDigit (n mod 16)) acc in
      if (n / 16 =? 0)%Z then acc' else hexDigitsOf f (n / 16) acc'
  end.

(** [z.toString(16)] for an integer [z]. *)
Definition toString16 (z : Z) : string :=
  if (z <? 0)%Z
  then String "-"%char (hexDigitsOf (S (Z.to_nat (Z.log2 (- z)))) (- z) EmptyString)
  else hexDigitsOf (S (Z.to_nat (Z.log2 z))) z EmptyString.

Fixpoint repeatChar (c : ascii) (n : nat) : string :=
  match n with
  | O => EmptyString
  | S n' => String c (repeatChar c n')
  end.

(** [s.padStart(len, c)] for a one-character string [c]. *)
Definition padStart (len : nat) (c : ascii) (s : string) : string :=
  repeatChar c (len - String.length s) ++ s.

(** One channel lightened: [Math.min(255, Math.floor(c + (255 - c) * percent / 100))].
    The percentage is an integer of magnitude at most 256 and [c] is a
    32-bit integer; the product is then exact in doubles, its quotient by
    100 is an integer or at least 1/100 away from one, far more than the
    rounding of the division and of the sum, so the floor is that of the
    exact value, which the division of integers gives. *)
Definition lightenChannel (c percent : Z) : Z :=
  Z.min 255 (c + ((255 - c) * percent) / 100)%Z.

Definition lightenColor (hex : string) (percent : Z) : string :=
  let num := ToInt32 (parseInt16 (removeFirst "#" hex)) in
  let r := lightenChannel (sar num 16) percent in
  let g := lightenChannel (bitand (sar num 8) 255) percent in
  let b := lightenChannel (bitand num 255) percent in
  String "#" (padStart 6 "0" (toString16 (bitor (bitor (shl r 16) (shl g 8)) b))).

(** What [table[key] || fallback] gives: a colour, or, for a name that
    [table] does not hold itself and that names a property of
    [Object.prototype], that property, which is no string. *)
Inductive fill : Type :=
  | Colour (c : string)
  | Inherited (k : string).

(** [table[key] || fallback] *)
Definition colorOr (table : object string) (key fallback : string) : fill :=
  match getProp key table with
  | Some c => Colour (if String.eqb c EmptyString then fallback else c)
  | None => if inherited key then Inherited key else Colour fallback
  end.

(** The fill of a bar of the brand chart, and those of the manual and of
    the automatic bar of the grouped chart.  [lightenColor] calls
    [hex.replace], which a function or an object does not have: it then
    throws a TypeError. *)
Definition brandFill (brand : string) : fill := colorOr BRAND_COLORS brand "#3b82f6".

Definition manualFill (brand : string) : outcome string :=
  match colorOr BRAND_COLORS brand "#82ca9d" with
  | Colour c => Return (lightenColor c 30)
  | Inherited _ => Throw "TypeError"
  end.

Definition automaticFill (brand : string) : fill :=
  colorOr BRAND_COLORS brand "#8884d8".

(** The fill of the slice at [index] of the gear chart; [None] is
    undefined. *)
Definition gearFill (gearName : string) (index : nat) : option string :=
  let gearType := toLowerCase gearName in
  if String.eqb gearType "automatic" then getProp "automatic" GEAR_COLORS
  else if String.eqb gearType "manual" then getProp "manual" GEAR_COLORS
  else nth_error COLORS (index mod List.length COLORS).

(** ** Notions used in the statements about the colours *)

(** [k] hexadecimal digits of [n], the most significant first. *)
Fixpoint hexFixed (k : nat) (n : Z) : string :=
  match k with
  | O => EmptyString
  | S k' => hexFixed k' (n / 16) ++ String (hexDigit (n mod 16)) EmptyString
  end.

(** The colour with the channels [r], [g] and [b], each from 0 to 255. *)
Definition colorOf (r g b : Z) : string :=
  String "#" (hexFixed 2 r ++ hexFixed 2 g ++ hexFixed 2 b).

Definition red (n : Z) : Z := (n / 65536)%Z.
Definition green (n : Z) : Z := ((n / 256) mod 256)%Z.
Definition blue (n : Z) : Z := (n mod 256)%Z.

(** A channel lightened by [percent] out of 100. *)
Definition lighten (percent c : Z) : Z := (c + ((255 - c) * percent) / 100)%Z.

(** The number that a colour denotes, when it is one of 24 bits. *)
Definition colorValue (hex : string) : option Z :=
  match parseInt16 (removeFirst "#" hex) with
  | Some n => if ((0 <=? n) && (n <? 2 ^ 24))%Z then Some n else None
  | None => None
  end.

(** * Properties *)

(** ** Strings and lists *)

Lemma append_empty_r (s : string) : s ++ EmptyString = s.
Proof. induction s as [|c s IH]; simpl; [reflexivity | now rewrite IH]. Qed.

Lemma append_assoc' (a b c : string) : (a ++ b) ++ c = a ++ (b ++ c).
Proof. induction a as [|x a IH]; simpl; [reflexivity | now rewrite IH]. Qed.

Lemma allChars_app (p : ascii -> bool) (a b : string) :
  allChars p (a ++ b) = allChars p a && allChars p b.
Proof.
  induction a as [|x a IH]; simpl; [reflexivity|].
  rewrite IH. now rewrite andb_assoc.
Qed.

Lemma dropTrailingQuote_notQuote (s : string) :
  allChars notQuote s = true -> dropTrailingQuote s = s.
Proof.
  induction s as [|c s IH]; simpl; [reflexivity|].
  intros Hc. apply andb_prop in Hc as [Hc Hs].
  destruct s as [|c' s'].
  - unfold notQuote in Hc. destruct (Ascii.eqb c quote); [discriminate | reflexivity].
  - now rewrite (IH Hs).
Qed.

Lemma stripOuterQuotes_notQuote (s : string) :
  allChars notQuote s = true -> stripOuterQuotes s = s.
Proof.
  intros Hs. unfold stripOuterQuotes.
  assert (Hl : dropLeadingQuote s = s).
  { destruct s as [|c s']; simpl in *; [reflexivity|].
    apply andb_prop in Hs as [Hc _]. unfold notQuote in Hc.
    destruct (Ascii.eqb c quote); [discriminate | reflexivity]. }
  rewrite Hl. now apply dropTrailingQuote_notQuote.
Qed.

(** ** The tokenizer *)

Lemma rawFields_nonempty (q : bool) (s : string) : rawFields q s <> [].
Proof.
  revert q. induction s as [|c s IH]; intros q; simpl; [discriminate|].
  destruct (Ascii.eqb c quote); [apply IH|].
  destruct (Ascii.eqb c comma && negb q); [discriminate|].
  specialize (IH q). destruct (rawFields q s); [contradiction | discriminate].
Qed.

Lemma consStr_empty (l : list string) : l <> [] -> consStr EmptyString l = l.
Proof. destruct l; [contradiction | reflexivity]. Qed.

Lemma consStr_consPiece (cur : string) (c : ascii) (l : list string) :
  l <> [] -> consStr cur (consPiece c l) = consStr (cur ++ String c EmptyString) l.
Proof.
  destruct l as [|h t]; [contradiction|]. intros _. simpl.
  now rewrite append_assoc'.
Qed.

Lemma skipn_nth_cons (headers : list string) (i : nat) :
  i < List.length headers ->
  skipn i headers = nth i headers EmptyString :: skipn (i + 1) headers.
Proof.
  revert i. induction headers as [|h hs IH]; intros i Hi; simpl in *; [lia|].
  destruct i as [|i]; simpl; [reflexivity|].
  apply IH. lia.
Qed.

Lemma storeAll_cons (headers : list string) (st : LineState) (vs : list string) :
  storeAll headers (colIndex st)
    (trim (stripOuterQuotes (currentVal st)) :: vs) (row st)
  = storeAll headers (colIndex st + 1) vs (storeField headers st).
Proof.
  unfold storeAll, storeField.
  destruct (colIndex st <? List.length headers) eqn:Hlt.
  - apply Nat.ltb_lt in Hlt. rewrite (skipn_nth_cons _ _ Hlt). reflexivity.
  - apply Nat.ltb_ge in Hlt.
    rewrite (skipn_all2 headers) by lia.
    rewrite (skipn_all2 headers) by lia. reflexivity.
Qed.

Lemma lineLoop_fields (headers : list string) (line : string) (st : LineState) :
  allChars notQuote (currentVal st) = true ->
  storeField headers (lineLoop headers line st)
  = storeAll headers (colIndex st)
      (map trim (consStr (currentVal st) (rawFields (inQuotes st) line))) (row st).
Proof.
  revert st. induction line as [|c line IH]; intros st Hcur.
  - simpl. rewrite append_empty_r.
    replace (trim (currentVal st))
      with (trim (stripOuterQuotes (currentVal st)))
      by now rewrite stripOuterQuotes_notQuote.
    rewrite storeAll_cons. unfold storeAll.
    now destruct (skipn (colIndex st + 1) headers).
  - simpl. unfold lineStep.
    destruct (Ascii.eqb c quote) eqn:Hq.
    + rewrite IH by exact Hcur. reflexivity.
    + destruct (Ascii.eqb c comma && negb (inQuotes st)) eqn:Hsep.
      * rewrite IH by reflexivity. simpl.
        rewrite consStr_empty by apply rawFields_nonempty.
        rewrite append_empty_r.
        replace (trim (currentVal st))
          with (trim (stripOuterQuotes (currentVal st)))
          by now rewrite stripOuterQuotes_notQuote.
        now rewrite storeAll_cons.
      * rewrite IH.
        -- simpl. now rewrite consStr_consPiece by apply rawFields_nonempty.
        -- simpl. rewrite allChars_app, Hcur. simpl.
           unfold notQuote. now rewrite Hq.
Qed.

Lemma parseLine_rowOf (headers : list string) (line : string) :
  parseLine headers line = rowOf headers (fields line).
Proof.
  unfold parseLine. rewrite lineLoop_fields by reflexivity. simpl.
  rewrite consStr_empty by apply rawFields_nonempty. reflexivity.
Qed.


(** ** The pieces of a line *)

Lemma rawPieces_nonempty (q : bool) (s : string) : rawPieces q s <> [].
Proof.
  revert q. induction s as [|c s IH]; intros q; simpl; [discriminate|].
  destruct (Ascii.eqb c quote).
  - specialize (IH (negb q)). destruct (rawPieces (negb q) s); [contradiction | discriminate].
  - destruct (Ascii.eqb c comma && negb q); [discriminate|].
    specialize (IH q). destruct (rawPieces q s); [contradiction | discriminate].
Qed.

(** The pieces without their quotes are the fields. *)
Lemma rawPieces_unquoted (q : bool) (s : string) :
  map removeQuotes (rawPieces q s) = rawFields q s.
Proof.
  revert q. induction s as [|c s IH]; intros q; simpl; [reflexivity|].
  destruct (Ascii.eqb c quote) eqn:Hq.
  - rewrite <- IH. pose proof (rawPieces_nonempty (negb q) s) as Hne.
    destruct (rawPieces (negb q) s) as [|p l]; [contradiction|].
    simpl. now rewrite Hq.
  - destruct (Ascii.eqb c comma && negb q); simpl; [now rewrite IH|].
    rewrite <- IH. pose proof (rawPieces_nonempty q s) as Hne.
    destruct (rawPieces q s) as [|p l]; [contradiction|].
    simpl. now rewrite Hq.
Qed.

Lemma concat_consPiece (sep : string) (c : ascii) (l : list string) :
  l <> [] -> String.concat sep (consPiece c l) = String c (String.concat sep l).
Proof.
  destruct l as [|p l]; [contradiction|]. intros _.
  destruct l; reflexivity.
Qed.

(** The pieces joined by commas are the line. *)
Lemma rawPieces_concat (q : bool) (s : string) :
  String.concat "," (rawPieces q s) = s.
Proof.
  revert q. induction s as [|c s IH]; intros q; simpl; [reflexivity|].
  destruct (Ascii.eqb c quote) eqn:Hq.
  - rewrite concat_consPiece by apply rawPieces_nonempty. now rewrite IH.
  - destruct (Ascii.eqb c comma && negb q) eqn:Hsep.
    + apply andb_prop in Hsep as [Hc _]. apply Ascii.eqb_eq in Hc. subst c.
      pose proof (rawPieces_nonempty q s) as Hne. specialize (IH q).
      destruct (rawPieces q s) as [|p l]; [contradiction|].
      cbn [String.concat]. cbn [String.concat] in IH. now rewrite IH.
    + rewrite concat_consPiece by apply rawPieces_nonempty. now rewrite IH.
Qed.

Lemma removelast_cons2 {A : Type} (x y : A) (l : list A) :
  removelast (x :: y :: l) = x :: removelast (y :: l).
Proof. reflexivity. Qed.

(** Where the pieces are cut, from a line taken up with a quote open or
    not. *)
Lemma rawPieces_shape (q : bool) (s : string) :
  match rawPieces q s with
  | [] => False
  | p :: rest =>
      (forall a b, p = a ++ String comma b -> xorb q (Nat.odd (quotesIn a)) = true)
      /\ (rest <> [] -> Nat.odd (quotesIn p) = q)
      /\ Forall (fun x => Nat.even (quotesIn x) = true) (removelast rest)
      /\ Forall (fun x => forall a b, x = a ++ String comma b ->
                                      Nat.odd (quotesIn a) = true) rest
  end.
Proof.
  revert q. induction s as [|c s IH]; intros q.
  - simpl. repeat split; try constructor.
    + intros [|x a] b Hab; discriminate Hab.
    + intros Hne. now contradiction Hne.
  - cbn [rawPieces]. destruct (Ascii.eqb c quote) eqn:Hq.
    + apply Ascii.eqb_eq in Hq. subst c. specialize (IH (negb q)).
      destruct (rawPieces (negb q) s) as [|p rest]; [contradiction|].
      destruct IH as (Hcomma & Hend & Heven & Hrest). cbn [consPiece].
      repeat split; try assumption.
      * intros [|x a] b Hab; [discriminate Hab|].
        inversion Hab; subst. specialize (Hcomma a b eq_refl).
        cbn [quotesIn]. rewrite Ascii.eqb_refl.
        change (1 + quotesIn a) with (S (quotesIn a)).
        rewrite Nat.odd_succ, <- Nat.negb_odd.
        destruct q, (Nat.odd (quotesIn a)); simpl in *; congruence.
      * intros Hne. specialize (Hend Hne). cbn [quotesIn]. rewrite Ascii.eqb_refl.
        change (1 + quotesIn p) with (S (quotesIn p)).
        rewrite Nat.odd_succ, <- Nat.negb_odd, Hend. apply negb_involutive.
    + destruct (Ascii.eqb c comma && negb q) eqn:Hsep.
      * apply andb_prop in Hsep as [_ Hout]. apply negb_true_iff in Hout. subst q.
        specialize (IH false).
        destruct (rawPieces false s) as [|p rest]; [contradiction|].
        destruct IH as (Hcomma & Hend & Heven & Hrest).
        repeat split.
        -- intros [|x a] b Hab; discriminate Hab.
        -- destruct rest as [|p' rest'].
           ++ constructor.
           ++ rewrite removelast_cons2. constructor; [|exact Heven].
              rewrite <- Nat.negb_odd, Hend by discriminate. reflexivity.
        -- constructor; [|exact Hrest].
           intros a b Hab. now apply (Hcomma a b).
      * specialize (IH q).
        destruct (rawPieces q s) as [|p rest]; [contradiction|].
        destruct IH as (Hcomma & Hend & Heven & Hrest). cbn [consPiece].
        repeat split; try assumption.
        -- intros [|x a] b Hab.
           ++ inversion Hab; subst. unfold comma in Hsep. simpl in Hsep.
              destruct q; [reflexivity | discriminate].
           ++ inversion Hab; subst. cbn [quotesIn]. rewrite Hq.
              now apply (Hcomma a b).
        -- intros Hne. cbn [quotesIn]. rewrite Hq. now apply Hend.
Qed.

Lemma rawPieces_cut (line : string) : cutOutsideQuotes line (rawPieces false line).
Proof.
  pose proof (rawPieces_shape false line) as Hs.
  pose proof (rawPieces_concat false line) as Hc.
  unfold cutOutsideQuotes.
  destruct (rawPieces false line) as [|p rest]; [contradiction|].
  destruct Hs as (Hcomma & Hend & Heven & Hrest).
  split; [discriminate|]. split; [exact Hc|]. split.
  - destruct rest as [|p' rest']; [constructor|].
    rewrite removelast_cons2. constructor; [|exact Heven].
    rewrite <- Nat.negb_odd, Hend by discriminate. reflexivity.
  - constructor; [|exact Hrest]. intros a b Hab. now apply (Hcomma a b).
Qed.

(** Two texts cut at a comma: the cuts agree, or one of the first parts
    runs over the comma of the other. *)
Lemma comma_cuts (a b a' b' : string) :
  a ++ String comma b = a' ++ String comma b' ->
  (a = a' /\ b = b')
  \/ (exists x, a = a' ++ String comma x)
  \/ (exists x, a' = a ++ String comma x).
Proof.
  revert a'. induction a as [|c a IH]; intros a' Heq.
  - destruct a' as [|c' a'].
    + left. now inversion Heq.
    + right. right. inversion Heq; subst. now exists a'.
  - destruct a' as [|c' a'].
    + right. left. inversion Heq; subst. now exists a.
    + inversion Heq; subst. destruct (IH a' H1) as [[-> ->]|[[x ->]|[x ->]]].
      * now left.
      * right. left. now exists x.
      * right. right. now exists x.
Qed.

Lemma concat_cons2 (sep p q : string) (l : list string) :
  String.concat sep (p :: q :: l) = p ++ sep ++ String.concat sep (q :: l).
Proof. reflexivity. Qed.

Lemma quotes_parity (n : nat) : Nat.even n = true -> Nat.odd n = true -> False.
Proof. rewrite <- Nat.negb_odd. now destruct (Nat.odd n). Qed.

(** A line is cut at its commas outside quotes in one way only. *)
Lemma cutOutsideQuotes_unique (line : string) (l1 l2 : list string) :
  cutOutsideQuotes line l1 -> cutOutsideQuotes line l2 -> l1 = l2.
Proof.
  revert line l2. induction l1 as [|p l1 IH]; intros line l2 H1 H2.
  - now destruct H1 as [Hne _].
  - destruct H1 as (_ & Hc1 & He1 & Hi1). destruct H2 as (Hne2 & Hc2 & He2 & Hi2).
    destruct l2 as [|p2 l2]; [contradiction|].
    inversion Hi1 as [|? ? Hp Hi1']; subst.
    inversion Hi2 as [|? ? Hp2 Hi2']; subst.
    destruct l1 as [|q1 l1]; destruct l2 as [|q2 l2].
    + simpl in Hc2. now subst.
    + exfalso. rewrite concat_cons2 in Hc2. simpl in Hc2.
      rewrite removelast_cons2 in He2. inversion He2; subst.
      apply (quotes_parity (quotesIn p2)); [assumption|].
      apply (Hp p2 (String.concat "," (q2 :: l2))). now symmetry.
    + exfalso. rewrite concat_cons2 in Hc2. simpl in Hc2.
      rewrite removelast_cons2 in He1. inversion He1; subst.
      apply (quotes_parity (quotesIn p)); [assumption|].
      now apply (Hp2 p (String.concat "," (q1 :: l1))).
    + rewrite concat_cons2 in Hc2. rewrite concat_cons2 in Hc2.
      rewrite removelast_cons2 in He1, He2.
      inversion He1 as [|? ? Hev1 He1']; subst.
      inversion He2 as [|? ? Hev2 He2']; subst.
      simpl in Hc2.
      destruct (comma_cuts _ _ _ _ Hc2) as [[-> Hrest]|[[x Hx]|[x Hx]]].
      * f_equal. apply (IH (String.concat "," (q1 :: l1))).
        -- repeat split; [discriminate | assumption | assumption].
        -- repeat split; [discriminate | now symmetry | assumption | assumption].
      * exfalso. apply (quotes_parity (quotesIn p)); [assumption|].
        now apply (Hp2 p x).
      * exfalso. apply (quotes_parity (quotesIn p2)); [assumption|].
        now apply (Hp p2 x).
Qed.

(** C1. Every line is cut at its commas outside double quotes and nowhere
    else, in the one way there is: a comma between an opening quote and the
    quote that closes it stays inside its piece and separates nothing.  The
    tokenizer stores one value for each piece, under the header in the
    position of the piece: the piece without its double quotes, the commas
    of the piece kept, trimmed. *)
Theorem parseLine_quoted_fields (headers : list string) (line : string) :
  exists pieces : list string,
    cutOutsideQuotes line pieces
    /\ (forall pieces', cutOutsideQuotes line pieces' -> pieces' = pieces)
    /\ parseLine headers line
       = rowOf headers (map (fun p => trim (removeQuotes p)) pieces).
Proof.
  exists (rawPieces false line). split; [apply rawPieces_cut|]. split.
  - intros pieces' Hcut. apply (cutOutsideQuotes_unique line); [exact Hcut|].
    apply rawPieces_cut.
  - rewrite parseLine_rowOf. unfold fields.
    now rewrite <- rawPieces_unquoted, map_map.
Qed.
(** ** Objects *)

Lemma getProp_setProp_same {V : Type} (k : string) (v : V) (o : object V) :
  getProp k (setProp k v o) = Some v.
Proof.
  induction o as [|[k' v'] o IH]; simpl.
  - now rewrite String.eqb_refl.
  - destruct (String.eqb k' k) eqn:E; simpl.
    + now rewrite String.eqb_refl.
    + now rewrite E.
Qed.

Lemma getProp_setProp_other {V : Type} (k k' : string) (v : V) (o : object V) :
  k <> k' -> getProp k' (setProp k v o) = getProp k' o.
Proof.
  intros Hne. induction o as [|[k0 v0] o IH]; simpl.
  - apply String.eqb_neq in Hne. now rewrite Hne.
  - destruct (String.eqb k0 k) eqn:E; simpl.
    + apply String.eqb_eq in E. subst k0.
      apply String.eqb_neq in Hne. now rewrite Hne.
    + now rewrite IH.
Qed.

Lemma setProp_nonempty {V : Type} (k : string) (v : V) (o : object V) :
  setProp k v o <> [].
Proof.
  destruct o as [|[k' v'] o]; simpl; [discriminate|].
  destruct (String.eqb k' k); discriminate.
Qed.

Lemma setProp_keys {V : Type} (k : string) (v : V) (o : object V) :
  map fst (setProp k v o)
  = if existsb (String.eqb k) (map fst o) then map fst o
    else (map fst o ++ [k])%list.
Proof.
  induction o as [|[k' v'] o IH]; simpl; [reflexivity|].
  rewrite (String.eqb_sym k k').
  destruct (String.eqb k' k) eqn:E; simpl.
  - apply String.eqb_eq in E. now subst.
  - rewrite IH. now destruct (existsb (String.eqb k) (map fst o)).
Qed.

Lemma getProp_None {V : Type} (k : string) (o : object V) :
  getProp k o = None <-> ~ In k (map fst o).
Proof.
  induction o as [|[k' v'] o IH]; simpl.
  - tauto.
  - destruct (String.eqb k' k) eqn:E.
    + apply String.eqb_eq in E. split; [discriminate | tauto].
    + apply String.eqb_neq in E. rewrite IH. tauto.
Qed.

Lemma setProp_NoDup {V : Type} (k : string) (v : V) (o : object V) :
  NoDup (map fst o) -> NoDup (map fst (setProp k v o)).
Proof.
  intros Hnd. rewrite setProp_keys.
  destruct (existsb (String.eqb k) (map fst o)) eqn:E; [exact Hnd|].
  apply NoDup_app; [exact Hnd | repeat constructor; simpl; tauto |].
  intros x Hx [Hk|[]]. subst x.
  assert (existsb (String.eqb k) (map fst o) = true); [|congruence].
  apply existsb_exists. exists k. split; [exact Hx | apply String.eqb_refl].
Qed.

Lemma getProp_In {V : Type} (k : string) (v : V) (o : object V) :
  NoDup (map fst o) -> In (k, v) o -> getProp k o = Some v.
Proof.
  induction o as [|[k' v'] o IH]; simpl; [tauto|].
  intros Hnd [Heq|Hin].
  - inversion Heq; subst. now rewrite String.eqb_refl.
  - inversion Hnd as [|? ? Hnotin Hnd']; subst.
    destruct (String.eqb k' k) eqn:E.
    + apply String.eqb_eq in E. subst k'. exfalso. apply Hnotin.
      apply (in_map fst) in Hin. exact Hin.
    + now apply IH.
Qed.

Lemma In_getProp {V : Type} (k : string) (v : V) (o : object V) :
  getProp k o = Some v -> In (k, v) o.
Proof.
  induction o as [|[k' v'] o IH]; simpl; [discriminate|].
  destruct (String.eqb k' k) eqn:E.
  - apply String.eqb_eq in E. intros [= ->]. left. now subst.
  - intros Hget. right. now apply IH.
Qed.

Lemma insertIndexed_perm {V : Type} (i : N) (e : string * V)
    (l : list (N * (string * V))) :
  Permutation (insertIndexed i e l) ((i, e) :: l).
Proof.
  induction l as [|[j e'] l IH]; simpl; [reflexivity|].
  destruct (i <=? j)%N; [reflexivity|].
  rewrite IH. apply perm_swap.
Qed.

Lemma Object_entries_perm {V : Type} (o : object V) :
  Permutation (Object_entries o) o.
Proof.
  unfold Object_entries, namedProps.
  induction o as [|[k v] o IH]; simpl; [reflexivity|].
  destruct (arrayIndex k) as [i|]; simpl.
  - rewrite insertIndexed_perm. simpl. now apply perm_skip.
  - rewrite <- Permutation_middle. now apply perm_skip.
Qed.

Lemma Object_entries_In {V : Type} (e : string * V) (o : object V) :
  In e (Object_entries o) <-> In e o.
Proof.
  split; apply Permutation_in;
    [apply Object_entries_perm | symmetry; apply Object_entries_perm].
Qed.

Lemma Object_keys_length {V : Type} (o : object V) :
  List.length (Object_keys o) = List.length o.
Proof.
  unfold Object_keys. rewrite length_map.
  apply Permutation_length, Object_entries_perm.
Qed.

Lemma In_firstn {A : Type} (n : nat) (l : list A) (x : A) :
  In x (firstn n l) -> In x l.
Proof.
  intros Hin. rewrite <- (firstn_skipn n l). apply in_or_app. now left.
Qed.

Lemma assign_plain {V : Type} (k : string) (v : V) (o : object V) :
  k <> "__proto__" -> assign k v o = setProp k v o.
Proof.
  intros Hk. unfold assign. apply String.eqb_neq in Hk. now rewrite Hk.
Qed.

Lemma assign_In {V : Type} (k : string) (v : V) (o : object V) (e : string * V) :
  In e (assign k v o) -> In e o \/ (e = (k, v) /\ k <> "__proto__").
Proof.
  unfold assign. destruct (String.eqb k "__proto__") eqn:E; [now left|].
  apply String.eqb_neq in E. intros Hin.
  induction o as [|[k' v'] o IH]; simpl in Hin.
  - destruct Hin as [<-|[]]. now right.
  - destruct (String.eqb k' k); simpl in Hin.
    + destruct Hin as [<-|Hin]; [now right | left; now right].
    + destruct Hin as [<-|Hin]; [left; now left|].
      destruct (IH Hin) as [Ho|Hnew]; [left; now right | now right].
Qed.

Lemma assign_NoDup {V : Type} (k : string) (v : V) (o : object V) :
  NoDup (map fst o) -> NoDup (map fst (assign k v o)).
Proof.
  unfold assign. destruct (String.eqb k "__proto__"); [tauto|].
  induction o as [|[k' v'] o IH]; simpl; intros Hnd.
  - repeat constructor. simpl. tauto.
  - inversion Hnd as [|? ? Hnotin Hnd']; subst.
    destruct (String.eqb k' k) eqn:E; simpl.
    + apply String.eqb_eq in E. subst k'. now constructor.
    + constructor; [|now apply IH].
      intros Hin. apply in_map_iff in Hin as [[k0 v0] [Hk0 Hin]]. simpl in Hk0. subst k0.
      assert (Hcases : In (k', v0) o \/ (k', v0) = (k, v)).
      { clear -Hin. induction o as [|[k1 v1] o IHo]; simpl in Hin.
        - destruct Hin as [Heq|[]]. now right.
        - destruct (String.eqb k1 k); simpl in Hin.
          + destruct Hin as [Heq|Hin]; [now right | left; now right].
          + destruct Hin as [Heq|Hin]; [left; now left|].
            destruct (IHo Hin) as [Ho|Hnew]; [left; now right | now right]. }
      destruct Hcases as [Ho|Hnew].
      * apply Hnotin. apply (in_map fst) in Ho. exact Ho.
      * inversion Hnew; subst. apply String.eqb_neq in E. now apply E.
Qed.

(** ** The tokenizer, line by line *)

Lemma rowOf_In (headers values : list string) (k v : string) :
  In (k, v) (rowOf headers values) ->
  In (k, v) (combine headers values) /\ k <> "__proto__".
Proof.
  unfold rowOf. intros Hin.
  assert (Hgen : forall (l : list (string * string)) (r : Row),
            In (k, v) (fold_left (fun r hv => assign (fst hv) (snd hv) r) l r) ->
            In (k, v) r \/ (In (k, v) l /\ k <> "__proto__")).
  { induction l as [|[h x] l IHl]; intros r Hk; simpl in *; [now left|].
    destruct (IHl _ Hk) as [Hr|[Hl Hp]]; [|right; split; [now right | exact Hp]].
    apply assign_In in Hr as [Hr|[Hr Hp]]; [now left|].
    inversion Hr; subst. right. split; [now left | exact Hp]. }
  destruct (Hgen _ _ Hin) as [[]|Hl]. exact Hl.
Qed.

Lemma rowOf_NoDup (headers values : list string) :
  NoDup (map fst (rowOf headers values)).
Proof.
  unfold rowOf. generalize (combine headers values) as l.
  assert (Hnil : NoDup (map fst ([] : Row))) by constructor.
  revert Hnil. generalize ([] : Row) as r. intros r Hr l. revert r Hr.
  induction l as [|[h x] l IH]; intros r Hr; simpl; [exact Hr|].
  apply IH. now apply assign_NoDup.
Qed.

Lemma splitChar_nonempty (sep : ascii) (s : string) : splitChar sep s <> [].
Proof.
  induction s as [|c s IH]; simpl; [discriminate|].
  destruct (Ascii.eqb c sep); [discriminate|].
  destruct (splitChar sep s); [contradiction | discriminate].
Qed.

(** The rows that the loop over the lines adds: one for each line that is
    not blank, unless the row of the line has no key. *)
Lemma pushLine_fold (headers : list string) (ls : list string) (acc : list Row) :
  fold_left (pushLine headers) ls acc
  = (acc ++ filter (fun r : Row => 0 <? List.length (Object_keys r))
              (map (fun line => rowOf headers (fields line))
                 (filter (fun line => negb (isBlank line)) ls)))%list.
Proof.
  revert acc.
  induction ls as [|l ls IH]; intros acc; simpl.
  - now rewrite app_nil_r.
  - rewrite IH. unfold pushLine, isBlank.
    destruct (String.eqb (trim l) EmptyString); simpl; [reflexivity|].
    rewrite parseLine_rowOf.
    destruct (0 <? List.length (Object_keys (rowOf headers (fields l))));
      [now rewrite <- app_assoc | reflexivity].
Qed.

(** ** What a row object holds *)

Lemma bindAll_untouched (l : list (string * string)) (r : Row) (k : string) :
  ~ In k (map fst l) ->
  getProp k (fold_left (fun r hv => assign (fst hv) (snd hv) r) l r) = getProp k r.
Proof.
  revert r. induction l as [|[h v] l IH]; intros r Hnot; simpl; [reflexivity|].
  simpl in Hnot. rewrite IH by tauto.
  unfold assign. destruct (String.eqb h "__proto__"); [reflexivity|].
  apply getProp_setProp_other. tauto.
Qed.

(** The value bound last to a name is the one the row holds. *)
Lemma bindAll_last (l : list (string * string)) (r : Row) (i : nat) (h v : string) :
  h <> "__proto__" ->
  nth_error l i = Some (h, v) ->
  (forall j v', i < j -> nth_error l j <> Some (h, v')) ->
  getProp h (fold_left (fun r hv => assign (fst hv) (snd hv) r) l r) = Some v.
Proof.
  intros Hp. revert r i.
  induction l as [|[h0 v0] l IH]; intros r i Hi Hlater; [now destruct i|].
  destruct i as [|i]; simpl in Hi.
  - injection Hi as -> ->. simpl fold_left. rewrite bindAll_untouched.
    + rewrite (assign_plain _ _ _ Hp). apply getProp_setProp_same.
    + intros Hin. apply in_map_iff in Hin as [[h' v'] [Hh Hin]]. simpl in Hh. subst h'.
      apply In_nth_error in Hin as [j Hj].
      apply (Hlater (S j) v'); [lia | exact Hj].
  - simpl fold_left. apply (IH _ i Hi).
    intros j v' Hij. apply (Hlater (S j) v'). lia.
Qed.

Lemma nth_error_combine (hs vs : list string) (i : nat) (h v : string) :
  nth_error (combine hs vs) i = Some (h, v)
  <-> nth_error hs i = Some h /\ nth_error vs i = Some v.
Proof.
  revert vs i. induction hs as [|h0 hs IH]; intros vs i.
  - simpl. destruct i; split; try discriminate; intros [H _]; discriminate.
  - destruct vs as [|v0 vs].
    + simpl. destruct i; split; try discriminate; intros [_ H]; discriminate.
    + destruct i as [|i]; simpl.
      * split; [intros [= -> ->]; now split | intros [[= ->] [= ->]]; reflexivity].
      * apply IH.
Qed.

Lemma combine_firstn (hs vs : list string) :
  map fst (combine hs vs) = firstn (List.length vs) hs.
Proof.
  revert vs. induction hs as [|h hs IH]; intros vs.
  - now destruct vs.
  - destruct vs as [|v vs]; simpl; [reflexivity|]. now rewrite IH.
Qed.

Lemma assign_keeps_keys {V : Type} (k k' : string) (v : V) (o : object V) :
  In k' (map fst o) -> In k' (map fst (assign k v o)).
Proof.
  unfold assign. destruct (String.eqb k "__proto__"); [tauto|].
  rewrite setProp_keys.
  destruct (existsb (String.eqb k) (map fst o)); [tauto|].
  intros Hin. apply in_or_app. now left.
Qed.

Lemma bindAll_keys (l : list (string * string)) (r : Row) (k : string) :
  In k (map fst r) \/ (In k (map fst l) /\ k <> "__proto__") ->
  In k (map fst (fold_left (fun r hv => assign (fst hv) (snd hv) r) l r)).
Proof.
  revert r. induction l as [|[h v] l IH]; intros r Hk; simpl in *.
  - destruct Hk as [Hk|[[] _]]. exact Hk.
  - apply IH. destruct Hk as [Hk|[[Hk|Hk] Hp]].
    + left. now apply assign_keeps_keys.
    + left. subst h. rewrite (assign_plain _ _ _ Hp), setProp_keys.
      destruct (existsb (String.eqb k) (map fst r)) eqn:E.
      * apply existsb_exists in E as [x [Hx Heq]].
        apply String.eqb_eq in Heq. now subst.
      * apply in_or_app. right. now left.
    + right. now split.
Qed.

(** The keys of a row: the header names that have a value in their
    position, but for [__proto__]. *)
Lemma rowOf_keys (headers values : list string) (k : string) :
  In k (Object_keys (rowOf headers values))
  <-> In k (firstn (List.length values) headers) /\ k <> "__proto__".
Proof.
  unfold Object_keys. rewrite <- combine_firstn. split.
  - intros Hk. apply in_map_iff in Hk as [[k' v] [Hk' Hin]]. simpl in Hk'. subst k'.
    apply (proj1 (Object_entries_In _ _)) in Hin.
    apply rowOf_In in Hin as [Hin Hp]. split; [|exact Hp].
    apply (in_map fst) in Hin. exact Hin.
  - intros Hk.
    assert (Hin : In k (map fst (rowOf headers values))).
    { unfold rowOf. apply bindAll_keys. now right. }
    apply in_map_iff in Hin as [[k' v] [Hk' Hin]]. simpl in Hk'. subst k'.
    apply in_map_iff. exists (k, v). split; [reflexivity|].
    now apply (proj2 (Object_entries_In _ _)).
Qed.

Lemma headersOf_nonempty (text : string) : headersOf text <> [].
Proof.
  unfold headersOf.
  pose proof (splitChar_nonempty comma (hd EmptyString (splitLines text))).
  destruct (splitChar comma (hd EmptyString (splitLines text)));
    [contradiction | discriminate].
Qed.

Lemma fields_nonempty (line : string) : fields line <> [].
Proof.
  unfold fields. pose proof (rawFields_nonempty false line).
  destruct (rawFields false line); [contradiction | discriminate].
Qed.

(** A row has a key as soon as the first header is not [__proto__]. *)
Lemma rowOf_has_key (headers values : list string) :
  values <> [] -> hd "__proto__" headers <> "__proto__" ->
  (0 <? List.length (Object_keys (rowOf headers values))) = true.
Proof.
  intros Hv Hh. destruct headers as [|h hs]; [now contradiction Hh|].
  destruct values as [|v vs]; [contradiction|]. simpl in Hh.
  assert (Hin : In h (Object_keys (rowOf (h :: hs) (v :: vs)))).
  { apply rowOf_keys. split; [now left | exact Hh]. }
  apply Nat.ltb_lt. destruct (Object_keys (rowOf (h :: hs) (v :: vs)));
    [destruct Hin | simpl; lia].
Qed.

Lemma filter_all {A : Type} (f : A -> bool) (l : list A) :
  (forall x, In x l -> f x = true) -> filter f l = l.
Proof.
  induction l as [|x l IH]; intros Hall; simpl; [reflexivity|].
  rewrite (Hall x (or_introl eq_refl)). f_equal. apply IH.
  intros y Hy. apply Hall. now right.
Qed.

(** The rows of a text: the row of each line after the first that is not
    blank, unless that row has no key. *)
Lemma parseCSV_lines (text : string) :
  parseCSV text
  = filter (fun r : Row => 0 <? List.length (Object_keys r))
      (map (fun line => rowOf (headersOf text) (fields line))
         (filter (fun line => negb (isBlank line)) (tl (splitLines text)))).
Proof.
  unfold parseCSV, headersOf.
  destruct (splitLines text) as [|header rest]; [reflexivity|].
  now rewrite pushLine_fold.
Qed.

(** C7, amended.  When no header is named __proto__, [parseCSV] takes the
    first line as the header and gives, for each later line that is not
    blank and in their order, the row object of the line.  The keys of
    that row are the trimmed header names that have a field in their
    position: a line with fewer fields than headers gives a row without
    the headers left over, and fields beyond the last header are left out.
    Under a header name the row holds the field in the position of that
    name, the last such position with a field when the name occurs more
    than once. *)
Theorem parseCSV_rows (text : string) :
  ~ In "__proto__" (headersOf text) ->
  parseCSV text
  = map (fun line => rowOf (headersOf text) (fields line))
        (filter (fun line => negb (isBlank line)) (tl (splitLines text)))
  /\ forall line,
       (forall k, In k (Object_keys (rowOf (headersOf text) (fields line)))
                  <-> In k (firstn (List.length (fields line)) (headersOf text)))
       /\ forall i h v,
            nth_error (headersOf text) i = Some h ->
            nth_error (fields line) i = Some v ->
            (forall j, i < j -> j < List.length (fields line) ->
                       nth_error (headersOf text) j <> Some h) ->
            getProp h (rowOf (headersOf text) (fields line)) = Some v.
Proof.
  intros Hproto. split; [|intros line; split].
  - rewrite parseCSV_lines. apply filter_all.
    intros r Hr. apply in_map_iff in Hr as [line [<- _]].
    apply rowOf_has_key; [apply fields_nonempty|].
    pose proof (headersOf_nonempty text) as Hne.
    destruct (headersOf text) as [|h hs]; [contradiction|].
    simpl. intros ->. apply Hproto. now left.
  - intros k. rewrite rowOf_keys. split; [tauto|].
    intros Hk. split; [exact Hk|]. intros ->.
    apply Hproto. now apply In_firstn in Hk.
  - intros i h v Hh Hv Hlater. unfold rowOf. apply (bindAll_last _ _ i).
    + intros ->. apply Hproto. now apply nth_error_In in Hh.
    + now apply nth_error_combine.
    + intros j v' Hij Hj. apply nth_error_combine in Hj as [Hjh Hjv].
      apply (Hlater j Hij); [|exact Hjh].
      apply nth_error_Some. congruence.
Qed.

(** ** Numbers read from strings *)

Lemma digit_char (c : ascii) :
  isDigit c = true ->
  isWhiteSpace c = false /\ Ascii.eqb c quote = false /\ Ascii.eqb c comma = false
  /\ (forall s, spanSign (String c s) = (false, String c s))
  /\ (forall s, prefix "Infinity" (String c s) = false).
Proof.
  destruct c as [[] [] [] [] [] [] [] []]; intros Hd;
    try discriminate Hd; repeat split.
Qed.

Lemma spanDigits_app (d r : string) :
  allChars isDigit d = true ->
  match r with String c _ => isDigit c | EmptyString => false end = false ->
  spanDigits (d ++ r) = (d, r).
Proof.
  intros Hd Hr. induction d as [|c d IH]; simpl in *.
  - destruct r as [|c r]; [reflexivity|]. simpl. now rewrite Hr.
  - apply andb_prop in Hd as [Hc Hd]. rewrite Hc, (IH Hd). reflexivity.
Qed.

(** A number written with a decimal point is read whole. *)
Lemma scanFloat_point (a b : string) :
  allChars isDigit a = true -> a <> EmptyString -> allChars isDigit b = true ->
  scanFloat (a ++ String "."%char b)
  = Some (LitDecimal false (digitsValue (a ++ b)) (- Z.of_nat (String.length b))).
Proof.
  intros Ha Hne Hb. destruct a as [|c a]; [contradiction|].
  pose proof Ha as Ha'. simpl in Ha'. apply andb_prop in Ha' as [Hc _].
  destruct (digit_char c Hc) as (Hws & _ & _ & Hsign & Hinf).
  unfold scanFloat.
  change ((String c a) ++ String "."%char b) with (String c (a ++ String "."%char b)).
  simpl trimStart. rewrite Hws, Hsign, Hinf.
  change (String c (a ++ String "."%char b)) with ((String c a) ++ String "."%char b).
  rewrite (spanDigits_app (String c a) (String "."%char b) Ha eq_refl).
  rewrite <- (append_empty_r b) at 1.
  rewrite (spanDigits_app b EmptyString Hb eq_refl).
  simpl. reflexivity.
Qed.

(** Reading stops at a comma. *)
Lemma scanFloat_comma (a b : string) :
  allChars isDigit a = true -> a <> EmptyString ->
  scanFloat (a ++ String comma b) = Some (LitDecimal false (digitsValue a) 0).
Proof.
  intros Ha Hne. destruct a as [|c a]; [contradiction|].
  pose proof Ha as Ha'. simpl in Ha'. apply andb_prop in Ha' as [Hc _].
  destruct (digit_char c Hc) as (Hws & _ & _ & Hsign & Hinf).
  unfold scanFloat.
  change ((String c a) ++ String comma b) with (String c (a ++ String comma b)).
  simpl trimStart. rewrite Hws, Hsign, Hinf.
  change (String c (a ++ String comma b)) with ((String c a) ++ String comma b).
  rewrite (spanDigits_app (String c a) (String comma b) Ha eq_refl).
  simpl. now rewrite append_empty_r.
Qed.

Lemma decimal_comma_to_point (a b : string) :
  allChars isDigit a = true -> allChars isDigit b = true ->
  replaceFirst comma "."%char (removeQuotes (a ++ String comma b))
  = a ++ String "."%char b.
Proof.
  intros Ha Hb.
  assert (Hrq : forall d, allChars isDigit d = true -> removeQuotes d = d).
  { induction d as [|c d IH]; simpl; [reflexivity|]. intros Hd.
    apply andb_prop in Hd as [Hc Hd].
    destruct (digit_char c Hc) as (_ & Hq & _). now rewrite Hq, IH. }
  induction a as [|c a IH]; simpl in *.
  - now rewrite (Hrq b Hb).
  - apply andb_prop in Ha as [Hc Ha].
    destruct (digit_char c Hc) as (_ & Hq & Hcm & _).
    rewrite Hq. simpl. rewrite Hcm. now rewrite (IH Ha).
Qed.

Section CleanerFacts.
Context {num : Type} `{Host num}.

(** The cleaner does not translate a decimal comma in [avg_price_brl]: the
    digits before the comma alone are read. *)
Lemma cleanRow_price_comma (r : Row) (a b : string) :
  allChars isDigit a = true -> a <> EmptyString ->
  getProp "avg_price_brl" r = Some (a ++ String comma b) ->
  avg_price_clean (cleanRow r) = Some (ofDecimal false (digitsValue a) 0).
Proof.
  intros Ha Hne Hp. unfold cleanRow; simpl. rewrite Hp.
  unfold parseFloat. now rewrite scanFloat_comma.
Qed.

(** C2, amended.  For digits [a], at least one, and digits [b]: an
    [engine_size] written [a], a decimal comma, [b] is cleaned to the
    number that these digits denote, the comma being taken for the decimal
    mark; an [avg_price_brl] written [a], a decimal point, [b] is cleaned
    to the number that these digits denote; an [avg_price_brl] written
    with a decimal comma is cleaned to the integer [a] alone, the comma
    and what follows it being left unread.  Each holds whatever the other
    fields of the row are. *)
Theorem cleanRow_numbers (r : Row) (a b : string) :
  allChars isDigit a = true -> a <> EmptyString -> allChars isDigit b = true ->
  (getProp "engine_size" r = Some (a ++ String comma b) ->
   engine_size_clean (cleanRow r) = Some (decimalNumber a b))
  /\ (getProp "avg_price_brl" r = Some (a ++ String "."%char b) ->
      avg_price_clean (cleanRow r) = Some (decimalNumber a b))
  /\ (getProp "avg_price_brl" r = Some (a ++ String comma b) ->
      avg_price_clean (cleanRow r) = Some (ofDecimal false (digitsValue a) 0)).
Proof.
  intros Ha Hane Hb. repeat split.
  - intros He. unfold cleanRow; simpl. rewrite He.
    rewrite decimal_comma_to_point by assumption.
    unfold parseFloat. now rewrite scanFloat_point.
  - intros Hp. unfold cleanRow; simpl. rewrite Hp.
    unfold parseFloat. now rewrite scanFloat_point.
  - intros Hp. now apply (cleanRow_price_comma r a b).
Qed.
End CleanerFacts.

Example decimalNumber_1_6 : decimalNumber "1" "6" = Exact.Fin (8 # 5).
Proof. reflexivity. Qed.

Lemma cleanRow_numbers_witness :
  let r : Row := [("engine_size", "1,6"); ("avg_price_brl", "9162.0")] in
  let r' : Row := [("avg_price_brl", "1234,56")] in
  engine_size_clean (cleanRow r) = Some (Exact.Fin (8 # 5))
  /\ avg_price_clean (cleanRow r) = Some (Exact.Fin (9162 # 1))
  /\ avg_price_clean (cleanRow r') = Some (Exact.Fin (1234 # 1)).
Proof.
  intros r r'.
  assert (Hne : forall c s, String c s <> EmptyString) by discriminate.
  destruct (cleanRow_numbers r "1" "6" eq_refl (Hne _ _) eq_refl) as (He & _ & _).
  destruct (cleanRow_numbers r "9162" "0" eq_refl (Hne _ _) eq_refl) as (_ & Hp & _).
  destruct (cleanRow_numbers r' "1234" "56" eq_refl (Hne _ _) eq_refl) as (_ & _ & Hc).
  split; [|split].
  - exact (He eq_refl).
  - exact (Hp eq_refl).
  - exact (Hc eq_refl).
Defined.

(** C2 as stated fails: an [avg_price_brl] written with a decimal comma,
    1234,56, is cleaned to 1234 and not to the number it denotes. *)
Lemma price_decimal_comma_not_coerced :
  avg_price_clean (cleanRow (num := Exact.number) [("avg_price_brl", "1234,56")])
  = Some (Exact.Fin (1234 # 1))
  /\ Exact.Fin (1234 # 1) <> decimalNumber "1234" "56".
Proof. split; [reflexivity | discriminate]. Qed.

(** The tokenizer on a line with a quoted field after a blank, quotes
    within a field and a quote left open: the commas within quotes are
    kept, every quote is left out. *)
Example parseLine_mixed_quotes :
  parseLine ["a"; "b"; "c"; "d"]
    ("k, " ++ String quote ("1,6" ++ String quote
       (",x" ++ String quote ("y,z" ++ String quote ("w," ++ String quote "open, still")))))
  = [("a", "k"); ("b", "1,6"); ("c", "xy,zw"); ("d", "open, still")].
Proof. vm_compute. reflexivity. Qed.

Lemma parseCSV_rows_witness :
  let text := "a,b,a" ++ String LF ("1,2,3,4" ++ String LF "5") in
  parseCSV text = [[("a", "3"); ("b", "2")]; [("a", "5")]]
  /\ getProp "a" (rowOf (headersOf text) (fields "1,2,3,4")) = Some "3".
Proof.
  intros text.
  assert (Hp : ~ In "__proto__" (headersOf text)).
  { vm_compute. intros [H|[H|[H|[]]]]; discriminate H. }
  destruct (parseCSV_rows text Hp) as [Hrows Hline]. split.
  - rewrite Hrows. vm_compute. reflexivity.
  - destruct (Hline "1,2,3,4") as [_ Hget].
    apply (Hget 2 "a" "3"); [reflexivity | reflexivity |].
    intros j Hj Hlen. vm_compute in Hlen.
    destruct j as [|[|[|[|j]]]]; try lia; discriminate.
Defined.

(** C7 as stated fails: the line 1 of the text a,b / 1 has one field for
    two headers, and its row has the key a alone, not the two header
    names. *)
Lemma short_line_lacks_headers :
  let text := "a,b" ++ String LF "1" in
  parseCSV text = [[("a", "1")]]
  /\ headersOf text = ["a"; "b"]
  /\ Object_keys [("a", "1")] <> headersOf text.
Proof. vm_compute. repeat split. discriminate. Qed.

(** ** The field cleaner *)

Lemma hd_consPiece (c : ascii) (l : list string) :
  hd EmptyString (consPiece c l) = String c (hd EmptyString l).
Proof. now destruct l. Qed.

Lemma split_first (sep s : string) :
  hd EmptyString (split sep s) = beforeFirst sep s.
Proof.
  unfold split. induction s as [|c s IH].
  - now destruct sep.
  - cbn [splitFrom beforeFirst].
    destruct (prefix sep (String c s)); [reflexivity|].
    now rewrite hd_consPiece, IH.
Qed.

Lemma prefix_append (a s : string) :
  prefix a s = true <-> exists rest, s = a ++ rest.
Proof.
  revert s. induction a as [|x a IH]; intros s.
  - split; [intros _; now exists s | intros _; now destruct s].
  - destruct s as [|y s].
    + split; [discriminate | intros [rest Hrest]; discriminate].
    + simpl. destruct (ascii_dec x y) as [->|Hne].
      * rewrite IH. split; intros [rest Hrest]; exists rest;
          [now rewrite Hrest | now inversion Hrest].
      * split; [discriminate|].
        intros [rest Hrest]. inversion Hrest. congruence.
Qed.

(** What [beforeFirst] computes: the text in front of an occurrence of the
    separator, no occurrence starting earlier; all of the text when the
    separator does not occur. *)
Lemma beforeFirst_spec (sep s : string) :
  (includes s sep = true ->
     exists rest, s = beforeFirst sep s ++ sep ++ rest)
  /\ (includes s sep = false -> beforeFirst sep s = s)
  /\ (forall p rest, s = p ++ sep ++ rest ->
        String.length (beforeFirst sep s) <= String.length p).
Proof.
  induction s as [|c s (IHin & IHout & IHfirst)].
  - repeat split.
    + cbn [includes beforeFirst]. rewrite orb_false_r. intros Hp.
      rewrite Hp. now apply prefix_append.
    + now destruct sep.
    + intros p rest _. destruct sep; simpl; lia.
  - cbn [includes beforeFirst].
    destruct (prefix sep (String c s)) eqn:Hp; simpl.
    + repeat split; [intros _; now apply prefix_append | discriminate | intros; lia].
    + repeat split.
      * intros Hin. destruct (IHin Hin) as [rest Hrest].
        exists rest. now rewrite <- Hrest.
      * intros Hout. now rewrite (IHout Hout).
      * intros p rest Heq. destruct p as [|x p].
        -- exfalso. simpl in Heq.
           assert (prefix sep (String c s) = true); [|congruence].
           apply prefix_append. now exists rest.
        -- simpl in Heq. inversion Heq; subst.
           simpl. apply le_n_S. now apply (IHfirst p rest).
Qed.

Section CleanerInvariant.
Context {num : Type} `{Host num}.

(** C8. Every row that survives cleaning has a brand_clean that is not
    empty; it is the text of the raw brand before the first separator
    ' - ' (all of it when there is none), or 'Outros' when the raw brand is
    missing or empty.  A row whose brand_clean is empty does not pass the
    final filter. *)
Theorem cleanData_brand (rawData : list Row) (d : CarData num) :
  In d (cleanData rawData) ->
  brand_clean d <> EmptyString
  /\ keepRow d = true
  /\ exists r, In r rawData /\ d = cleanRow r
     /\ brand_clean d =
          match getProp "brand" r with
          | Some b =>
              if String.eqb b EmptyString then "Outros" else beforeFirst " - " b
          | None => "Outros"
          end.
Proof.
  unfold cleanData. intros Hin.
  apply filter_In in Hin as [Hin Hkeep].
  apply in_map_iff in Hin as [r [Hr Hin]].
  split; [|split; [exact Hkeep|]].
  - unfold keepRow in Hkeep. apply andb_prop in Hkeep as [_ Hb].
    intros Hempty. rewrite Hempty in Hb. discriminate.
  - exists r. repeat split; [exact Hin | now symmetry |].
    subst d. unfold cleanRow; simpl.
    destruct (getProp "brand" r) as [b|]; [|reflexivity].
    destruct (String.eqb b EmptyString); [reflexivity|].
    apply split_first.
Qed.

(** A row whose brand_clean is empty is removed. *)
Lemma cleanData_drops_empty_brand (rawData : list Row) (d : CarData num) :
  brand_clean d = EmptyString -> ~ In d (cleanData rawData).
Proof.
  intros Hempty Hin. unfold cleanData in Hin.
  apply filter_In in Hin as [_ Hkeep].
  unfold keepRow in Hkeep. rewrite Hempty in Hkeep.
  now rewrite andb_false_r in Hkeep.
Qed.

Lemma cleanData_brand_nonempty (rawData : list Row) :
  Forall (fun d : CarData num => brand_clean d <> EmptyString) (cleanData rawData).
Proof.
  apply Forall_forall. intros d Hin. unfold cleanData in Hin.
  apply filter_In in Hin as [_ Hkeep].
  unfold keepRow in Hkeep. apply andb_prop in Hkeep as [_ Hb].
  intros Hempty. rewrite Hempty in Hb. discriminate.
Qed.

(** ** The upload handlers *)

(** C6. When parsing or cleaning the text of the file throws, the catch of
    the read callback sets the error message and clears the loading flag,
    and the stored rows (and the file name) stay as they were. *)
Theorem onload_catches (parse : string -> outcome (list Row))
    (clean : list Row -> outcome (list (CarData num)))
    (text reason : string) (st : AppState num) :
  text <> EmptyString ->
  (parse text = Throw reason
   \/ exists rawData, parse text = Return rawData /\ clean rawData = Throw reason) ->
  onloadWith parse clean (Some text) st
  = {| data := data st; loading := false; fileName := fileName st;
       error := Some processError |}.
Proof.
  intros Htext Hthrow. unfold onloadWith.
  apply String.eqb_neq in Htext. rewrite Htext.
  destruct Hthrow as [Hp | [rawData [Hp Hc]]]; rewrite Hp; simpl;
    [|rewrite Hc]; reflexivity.
Qed.

(** ** The aggregator *)

(** C5. On an empty list of rows the aggregator gives nothing; on any other
    it gives the four series and the three KPIs, totalCars being the
    number of rows. *)
Theorem chartsData_shape (dat : list (CarData num)) :
  match chartsData dat with
  | None => dat = []
  | Some c =>
      dat <> []
      /\ brandData c = brandDataOf dat
      /\ gearData c = gearDataOf dat
      /\ evolutionData c = evolutionDataOf dat
      /\ groupedData c = groupedDataOf dat
      /\ totalCars (kpis c) = List.length dat
      /\ avgPrice (kpis c) = avgPrice (kpisOf dat)
      /\ mostCommonBrand (kpis c) = mostCommonBrand (kpisOf dat)
  end.
Proof.
  unfold chartsData. destruct dat as [|d dat]; simpl; [reflexivity|].
  repeat split. discriminate.
Qed.
End CleanerInvariant.

Lemma cleanData_brand_witness :
  let d : CarData Exact.number := cleanRow [("brand", "GM - Chevrolet")] in
  brand_clean d <> EmptyString
  /\ keepRow d = true
  /\ exists r, In r [[("brand", "GM - Chevrolet")]] /\ d = cleanRow r
     /\ brand_clean d =
          match getProp "brand" r with
          | Some b =>
              if String.eqb b EmptyString then "Outros" else beforeFirst " - " b
          | None => "Outros"
          end.
Proof.
  apply (cleanData_brand [[("brand", "GM - Chevrolet")]]).
  left. reflexivity.
Defined.

Lemma onload_catches_witness :
  let st : AppState Exact.number :=
    {| data := [cleanRow [("brand", "GM")]]; loading := true;
       fileName := Some "cars.csv"; error := None |} in
  onloadWith (fun _ => Throw "bad") (fun _ => Return []) (Some "a,b") st
  = {| data := [cleanRow [("brand", "GM")]]; loading := false;
       fileName := Some "cars.csv"; error := Some processError |}.
Proof.
  apply (onload_catches (fun _ => Throw "bad") (fun _ => Return []) "a,b" "bad").
  - discriminate.
  - left. reflexivity.
Defined.

(** ** Dictionaries filled by a loop *)

Section GroupByFacts.
Context {A V : Type}.
Variable key : A -> option string.
Variable init : string -> A -> V.
Variable upd : V -> A -> V.

Lemma groupStep_NoDup (l : list A) (o : object V) :
  NoDup (map fst o) -> NoDup (map fst (fold_left (groupStep key init upd) l o)).
Proof.
  revert o. induction l as [|d l IH]; intros o Hnd; simpl; [exact Hnd|].
  apply IH. unfold groupStep.
  destruct (key d); [now apply setProp_NoDup | exact Hnd].
Qed.

Lemma members_snoc (k : string) (l : list A) (x : A) :
  members key k (l ++ [x])
  = (members key k l
     ++ match key x with
        | Some k' => if String.eqb k' k then [x] else []
        | None => []
        end)%list.
Proof.
  unfold members. rewrite filter_app. simpl.
  destruct (key x) as [k'|]; [|reflexivity].
  now destruct (String.eqb k' k).
Qed.

(** The entry of a key after the loop: none when no row was filed under
    it, else the first such row's [init] carried through these rows. *)
Lemma groupFold_get (l : list A) (k : string) :
  getProp k (fold_left (groupStep key init upd) l [])
  = match members key k l with
    | [] => None
    | d0 :: ds => Some (fold_left upd ds (upd (init k d0) d0))
    end.
Proof.
  induction l as [|x l IH] using rev_ind; [reflexivity|].
  rewrite fold_left_app, members_snoc. simpl. unfold groupStep at 1.
  destruct (key x) as [kx|]; [|now rewrite app_nil_r].
  destruct (String.eqb kx k) eqn:E.
  - apply String.eqb_eq in E. subst kx.
    rewrite getProp_setProp_same, IH.
    destruct (members key k l) as [|d0 ds]; simpl; [reflexivity|].
    now rewrite fold_left_app.
  - apply String.eqb_neq in E.
    rewrite getProp_setProp_other by exact E. now rewrite app_nil_r.
Qed.

Lemma members_key (k : string) (l : list A) (d : A) :
  In d (members key k l) -> key d = Some k.
Proof.
  unfold members. intros Hin. apply filter_In in Hin as [_ Hk].
  destruct (key d) as [k'|]; [|discriminate].
  apply String.eqb_eq in Hk. now subst.
Qed.

(** Each entry listed after the loop belongs to a key with rows filed
    under it, and is what these rows made of it. *)
Lemma groupFold_entries (l : list A) (k : string) (v : V) :
  In (k, v) (Object_entries (fold_left (groupStep key init upd) l [])) ->
  exists d0 ds,
    members key k l = d0 :: ds /\ v = fold_left upd ds (upd (init k d0) d0).
Proof.
  intros Hin. apply (proj1 (Object_entries_In _ _)) in Hin.
  apply getProp_In in Hin; [|apply groupStep_NoDup; constructor].
  rewrite groupFold_get in Hin.
  destruct (members key k l) as [|d0 ds]; [discriminate|].
  exists d0, ds. split; [reflexivity | congruence].
Qed.

Lemma groupFold_listed (l : list A) (k : string) (d0 : A) (ds : list A) :
  members key k l = d0 :: ds ->
  In (k, fold_left upd ds (upd (init k d0) d0))
     (Object_entries (fold_left (groupStep key init upd) l [])).
Proof.
  intros Hm. apply (proj2 (Object_entries_In _ _)), In_getProp.
  now rewrite groupFold_get, Hm.
Qed.
End GroupByFacts.

(** ** Sorting *)

Lemma sortInsert_perm {A : Type} (cmp : A -> A -> Z) (x : A) (l : list A) :
  Permutation (sortInsert cmp x l) (x :: l).
Proof.
  induction l as [|y l IH]; simpl; [reflexivity|].
  destruct (cmp x y <=? 0)%Z; [reflexivity|].
  rewrite IH. apply perm_swap.
Qed.

Lemma sort_perm {A : Type} (cmp : A -> A -> Z) (l : list A) :
  Permutation (sort cmp l) l.
Proof.
  induction l as [|x l IH]; simpl; [reflexivity|].
  rewrite sortInsert_perm. now apply perm_skip.
Qed.

Lemma sort_In {A : Type} (cmp : A -> A -> Z) (l : list A) (x : A) :
  In x (sort cmp l) <-> In x l.
Proof.
  split; apply Permutation_in; [apply sort_perm | symmetry; apply sort_perm].
Qed.

(** The sort puts in the order [R] a list of elements on which the
    comparator agrees with [R]; [P] marks these elements. *)
Section SortFacts.
Context {A : Type}.
Variable cmp : A -> A -> Z.
Variable P : A -> Prop.
Variable R : A -> A -> Prop.
Hypothesis cmp_le : forall a b, P a -> P b -> (cmp a b <= 0)%Z -> R a b.
Hypothesis cmp_gt : forall a b, P a -> P b -> (0 < cmp a b)%Z -> R b a.
Hypothesis R_trans : forall a b c, R a b -> R b c -> R a c.

Lemma sortInsert_sorted (x : A) (l : list A) :
  P x -> Forall P l ->
  StronglySorted R l -> StronglySorted R (sortInsert cmp x l).
Proof.
  intros Hx. induction l as [|y l IH]; intros Hl Hs; simpl.
  - repeat constructor.
  - inversion Hl as [|? ? Hy' Hl']; subst.
    apply StronglySorted_inv in Hs as [Hs Hy].
    destruct (cmp x y <=? 0)%Z eqn:E.
    + apply Z.leb_le in E. constructor.
      * now constructor.
      * constructor; [now apply cmp_le|].
        apply Forall_forall. intros z Hz.
        apply R_trans with y; [now apply cmp_le|].
        now apply (proj1 (Forall_forall _ _) Hy).
    + apply Z.leb_gt in E. constructor; [now apply IH|].
      apply Forall_forall. intros z Hz.
      apply (Permutation_in _ (sortInsert_perm cmp x l)) in Hz.
      destruct Hz as [<-|Hz]; [now apply cmp_gt|].
      now apply (proj1 (Forall_forall _ _) Hy).
Qed.

Lemma sort_sorted (l : list A) : Forall P l -> StronglySorted R (sort cmp l).
Proof.
  induction l as [|x l IH]; intros Hl; simpl; [constructor|].
  inversion Hl as [|? ? Hx Hl']; subst.
  apply sortInsert_sorted; [exact Hx | | now apply IH].
  apply Forall_forall. intros z Hz. apply sort_In in Hz.
  now apply (proj1 (Forall_forall _ _) Hl').
Qed.
End SortFacts.

Lemma firstn_sorted {A : Type} (R : A -> A -> Prop) (n : nat) (l : list A) :
  StronglySorted R l -> StronglySorted R (firstn n l).
Proof.
  revert l. induction n as [|n IH]; intros l Hs; simpl; [constructor|].
  destruct l as [|x l]; [constructor|].
  apply StronglySorted_inv in Hs as [Hs Hx].
  constructor; [now apply IH|].
  apply Forall_forall. intros z Hz.
  apply (proj1 (Forall_forall _ _) Hx).
  rewrite <- (firstn_skipn n l). apply in_or_app. now left.
Qed.

Lemma list_sum_perm (l l' : list nat) :
  Permutation l l' -> list_sum l = list_sum l'.
Proof.
  induction 1; simpl; lia.
Qed.

Lemma NoDup_firstn {A : Type} (n : nat) (l : list A) :
  NoDup l -> NoDup (firstn n l).
Proof.
  intros Hnd. rewrite <- (firstn_skipn n l) in Hnd.
  now apply NoDup_app_remove_r in Hnd.
Qed.

Lemma sorted_app_le {A : Type} (R : A -> A -> Prop) (l1 l2 : list A) :
  StronglySorted R (l1 ++ l2) ->
  forall x y, In x l1 -> In y l2 -> R x y.
Proof.
  induction l1 as [|a l1 IH]; intros Hs x y Hx Hy; [destruct Hx|].
  simpl in Hs. apply StronglySorted_inv in Hs as [Hs Ha].
  destruct Hx as [<-|Hx]; [|now apply IH].
  apply (proj1 (Forall_forall _ _) Ha). apply in_or_app. now right.
Qed.


Lemma StronglySorted_map {A B : Type} (R : A -> A -> Prop) (R' : B -> B -> Prop)
    (f : A -> B) (l : list A) :
  (forall a b, In a l -> In b l -> R a b -> R' (f a) (f b)) ->
  StronglySorted R l -> StronglySorted R' (map f l).
Proof.
  induction l as [|x l IH]; intros Hf Hs; simpl; [constructor|].
  apply StronglySorted_inv in Hs as [Hs Hx]. constructor.
  - apply IH; [|exact Hs]. intros a b Ha Hb. apply Hf; now right.
  - apply Forall_forall. intros y Hy. apply in_map_iff in Hy as [b [<- Hb]].
    apply Hf; [now left | now right |].
    now apply (proj1 (Forall_forall _ _) Hx).
Qed.

(** ** The gear and brand counts *)

Lemma fold_left_ext {A B : Type} (f g : A -> B -> A) (l : list B) (a : A) :
  (forall x y, f x y = g x y) -> fold_left f l a = fold_left g l a.
Proof.
  intros Hfg. revert a. induction l as [|y l IH]; intros a; simpl; [reflexivity|].
  now rewrite Hfg, IH.
Qed.

Lemma entries_keys_NoDup {V : Type} (o : object V) :
  NoDup (map fst o) -> NoDup (map fst (Object_entries o)).
Proof.
  intros Hnd. eapply Permutation_NoDup; [|exact Hnd].
  symmetry. apply Permutation_map, Object_entries_perm.
Qed.

Lemma inherited_proto : inherited "__proto__" = true.
Proof. reflexivity. Qed.

Lemma inherited_function (k : string) :
  isPrototypeFunction k = true -> inherited k = true.
Proof. unfold inherited. intros ->. apply orb_true_r. Qed.

Lemma tallyOf_plain (k : string) (n : nat) :
  inherited k = false -> tallyOf k n = Count n.
Proof.
  unfold inherited, tallyOf. intros Hk. apply orb_false_elim in Hk as [_ Hk].
  now rewrite Hk.
Qed.

Lemma rowsCounted_tallyOf (k : string) (n : nat) : rowsCounted (tallyOf k n) = n.
Proof. unfold tallyOf. now destruct (isPrototypeFunction k). Qed.

Section CountFacts.
Context {num : Type} `{Host num}.

Lemma bump_next (k : string) (own : option tally) (d : CarData num) :
  bump k own
  = nextTally (match own with Some v => v | None => startTally k d end) d.
Proof.
  destruct own as [[n|f m]|]; simpl; try reflexivity.
  unfold startTally. now destruct (isPrototypeFunction k).
Qed.

Lemma countGear_groupStep (o : object tally) (d : CarData num) :
  countGear o d = groupStep gearKey startTally nextTally o d.
Proof.
  unfold countGear, groupStep, gearKey, assign.
  destruct (String.eqb (gearOrUnknown d) "__proto__"); [reflexivity|].
  now rewrite (bump_next _ _ d).
Qed.

Lemma countBrand_groupStep (o : object tally) (d : CarData num) :
  countBrand o d = groupStep brandKey startTally nextTally o d.
Proof.
  unfold countBrand, groupStep, brandKey, assign.
  destruct (String.eqb (brand_clean d) EmptyString); [reflexivity|].
  destruct (String.eqb (brand_clean d) "__proto__"); [reflexivity|]. simpl.
  now rewrite (bump_next _ _ d).
Qed.

Lemma nextTally_fold (ds : list (CarData num)) (k : string) (n : nat) :
  fold_left nextTally ds (tallyOf k n) = tallyOf k (n + List.length ds).
Proof.
  revert n. induction ds as [|d ds IH]; intros n; simpl.
  - now rewrite Nat.add_0_r.
  - replace (nextTally (tallyOf k n) d) with (tallyOf k (n + 1)).
    + rewrite IH. f_equal. lia.
    + unfold tallyOf. now destruct (isPrototypeFunction k).
Qed.

(** What the rows filed under a name make of its counter. *)
Lemma tally_of_rows (k : string) (d0 : CarData num) (ds : list (CarData num)) :
  fold_left nextTally ds (nextTally (startTally k d0) d0)
  = tallyOf k (List.length (d0 :: ds)).
Proof.
  change (startTally k d0) with (tallyOf k 0).
  replace (nextTally (tallyOf k 0) d0) with (tallyOf k 1)
    by (unfold tallyOf; now destruct (isPrototypeFunction k)).
  now rewrite nextTally_fold.
Qed.

Lemma gearOrUnknown_nonempty (d : CarData num) : gearOrUnknown d <> EmptyString.
Proof.
  unfold gearOrUnknown. destruct (gear d) as [g|]; [|discriminate].
  destruct (String.eqb g EmptyString) eqn:E; [discriminate|].
  now apply String.eqb_neq.
Qed.

(** The rows of a gear are those that the program finds the gear of. *)
Lemma rowsOfGear_gearOrUnknown (g : string) (dat : list (CarData num)) :
  rowsOfGear g dat = filter (fun d => String.eqb (gearOrUnknown d) g) dat.
Proof.
  unfold rowsOfGear. apply filter_ext. intros d. unfold gearOrUnknown, gear.
  destruct (getProp "gear" (raw d)) as [x|]; [|apply String.eqb_sym].
  destruct (String.eqb x EmptyString); [apply String.eqb_sym | reflexivity].
Qed.

Lemma members_gear (g : string) (dat : list (CarData num)) :
  g <> "__proto__" -> members gearKey g dat = rowsOfGear g dat.
Proof.
  intros Hg. rewrite rowsOfGear_gearOrUnknown. unfold members, gearKey.
  apply filter_ext. intros d.
  destruct (String.eqb (gearOrUnknown d) "__proto__") eqn:E; [|reflexivity].
  apply String.eqb_eq in E. rewrite E.
  symmetry. apply String.eqb_neq. congruence.
Qed.

Lemma members_brand (b : string) (dat : list (CarData num)) :
  b <> EmptyString -> b <> "__proto__" -> members brandKey b dat = rowsOfBrand b dat.
Proof.
  intros Hb Hp. unfold members, rowsOfBrand, brandKey.
  apply filter_ext. intros d.
  destruct (String.eqb (brand_clean d) EmptyString) eqn:E.
  - cbn [orb]. cbv iota. apply String.eqb_eq in E. rewrite E.
    symmetry. apply String.eqb_neq. congruence.
  - destruct (String.eqb (brand_clean d) "__proto__") eqn:E'; [|reflexivity].
    cbn [orb]. cbv iota. apply String.eqb_eq in E'. rewrite E'.
    symmetry. apply String.eqb_neq. congruence.
Qed.

Lemma gearKey_name (d : CarData num) (g : string) :
  gearKey d = Some g -> g <> EmptyString /\ g <> "__proto__".
Proof.
  unfold gearKey.
  destruct (String.eqb (gearOrUnknown d) "__proto__") eqn:E; [discriminate|].
  intros [= <-]. split; [apply gearOrUnknown_nonempty | now apply String.eqb_neq].
Qed.

Lemma brandKey_name (d : CarData num) (b : string) :
  brandKey d = Some b -> b <> EmptyString /\ b <> "__proto__".
Proof.
  unfold brandKey.
  destruct (String.eqb (brand_clean d) EmptyString) eqn:E; [discriminate|].
  destruct (String.eqb (brand_clean d) "__proto__") eqn:E'; [discriminate|].
  intros [= <-]. split; now apply String.eqb_neq.
Qed.

(** The entries of the gear counter: one for each gear with rows, but for
    the gear __proto__, holding the tally of these rows. *)
Lemma gearCount_entries (dat : list (CarData num)) (g : string) (t : tally) :
  In (g, t) (Object_entries (fold_left countGear dat [])) ->
  g <> EmptyString /\ g <> "__proto__" /\ rowsOfGear g dat <> []
  /\ t = tallyOf g (List.length (rowsOfGear g dat)).
Proof.
  rewrite (fold_left_ext _ _ _ _ countGear_groupStep). intros Hin.
  apply groupFold_entries in Hin as (d0 & ds & Hm & Hv).
  assert (Hk : gearKey d0 = Some g).
  { apply (members_key gearKey g dat). rewrite Hm. now left. }
  destruct (gearKey_name _ _ Hk) as [Hne Hp].
  rewrite (members_gear _ _ Hp) in Hm. rewrite Hm, Hv.
  repeat split; [exact Hne | exact Hp | discriminate | apply tally_of_rows].
Qed.

Lemma brandCount_entries (dat : list (CarData num)) (b : string) (t : tally) :
  In (b, t) (Object_entries (fold_left countBrand dat [])) ->
  b <> EmptyString /\ b <> "__proto__" /\ rowsOfBrand b dat <> []
  /\ t = tallyOf b (List.length (rowsOfBrand b dat)).
Proof.
  rewrite (fold_left_ext _ _ _ _ countBrand_groupStep). intros Hin.
  apply groupFold_entries in Hin as (d0 & ds & Hm & Hv).
  assert (Hk : brandKey d0 = Some b).
  { apply (members_key brandKey b dat). rewrite Hm. now left. }
  destruct (brandKey_name _ _ Hk) as [Hne Hp].
  rewrite (members_brand _ _ Hne Hp) in Hm. rewrite Hm, Hv.
  repeat split; [exact Hne | exact Hp | discriminate | apply tally_of_rows].
Qed.

Lemma brandCount_listed (dat : list (CarData num)) (b : string) :
  b <> EmptyString -> b <> "__proto__" -> rowsOfBrand b dat <> [] ->
  In (b, tallyOf b (List.length (rowsOfBrand b dat)))
     (Object_entries (fold_left countBrand dat [])).
Proof.
  intros Hb Hp Hne.
  rewrite (fold_left_ext _ _ _ _ countBrand_groupStep).
  rewrite <- (members_brand _ _ Hb Hp) in *.
  destruct (members brandKey b dat) as [|d0 ds] eqn:Hm; [contradiction|].
  pose proof (groupFold_listed brandKey startTally nextTally dat b d0 ds Hm) as Hin.
  now rewrite tally_of_rows in Hin.
Qed.

Lemma gearCount_listed (dat : list (CarData num)) (g : string) :
  g <> "__proto__" -> rowsOfGear g dat <> [] ->
  In (g, tallyOf g (List.length (rowsOfGear g dat)))
     (Object_entries (fold_left countGear dat [])).
Proof.
  intros Hp Hne.
  rewrite (fold_left_ext _ _ _ _ countGear_groupStep).
  rewrite <- (members_gear _ _ Hp) in *.
  destruct (members gearKey g dat) as [|d0 ds] eqn:Hm; [contradiction|].
  pose proof (groupFold_listed gearKey startTally nextTally dat g d0 ds Hm) as Hin.
  now rewrite tally_of_rows in Hin.
Qed.

Lemma gearCount_keys_NoDup (dat : list (CarData num)) :
  NoDup (map fst (Object_entries (fold_left countGear dat []))).
Proof.
  apply entries_keys_NoDup.
  rewrite (fold_left_ext _ _ _ _ countGear_groupStep).
  apply groupStep_NoDup. constructor.
Qed.

Lemma brandCount_keys_NoDup (dat : list (CarData num)) :
  NoDup (map fst (Object_entries (fold_left countBrand dat []))).
Proof.
  apply entries_keys_NoDup.
  rewrite (fold_left_ext _ _ _ _ countBrand_groupStep).
  apply groupStep_NoDup. constructor.
Qed.

(** Each row with a gear other than __proto__ adds one to the rows
    counted. *)
Lemma rowsCounted_countGear (o : object tally) (d : CarData num) :
  list_sum (map (fun e => rowsCounted (snd e)) (countGear o d))
  = list_sum (map (fun e => rowsCounted (snd e)) o)
    + (if String.eqb (gearOrUnknown d) "__proto__" then 0 else 1).
Proof.
  unfold countGear, assign. generalize (gearOrUnknown d) as g. intros g.
  destruct (String.eqb g "__proto__"); [lia|].
  induction o as [|[k v] o IH]; simpl.
  - destruct (isPrototypeFunction g); reflexivity.
  - destruct (String.eqb k g) eqn:E; simpl.
    + destruct v as [n|f m]; simpl; lia.
    + rewrite IH. lia.
Qed.

Lemma rowsCounted_gearCount (dat : list (CarData num)) (o : object tally) :
  list_sum (map (fun e => rowsCounted (snd e)) (fold_left countGear dat o))
  = list_sum (map (fun e => rowsCounted (snd e)) o)
    + List.length
        (filter (fun d => negb (String.eqb (gearOrUnknown d) "__proto__")) dat).
Proof.
  revert o. induction dat as [|d dat IH]; intros o; simpl; [lia|].
  rewrite IH, rowsCounted_countGear.
  destruct (String.eqb (gearOrUnknown d) "__proto__"); simpl; lia.
Qed.

Lemma plainGears_gearOrUnknown (dat : list (CarData num)) (d : CarData num) :
  plainGears dat = true -> In d dat -> inherited (gearOrUnknown d) = false.
Proof.
  unfold plainGears. intros Hall Hd.
  apply (proj1 (forallb_forall _ _) Hall) in Hd.
  unfold gearOrUnknown, gear.
  destruct (getProp "gear" (raw d)) as [x|]; [|reflexivity].
  destruct (String.eqb x EmptyString); [reflexivity | now apply negb_true_iff].
Qed.

Lemma plainGears_all (dat : list (CarData num)) :
  plainGears dat = true ->
  filter (fun d => negb (String.eqb (gearOrUnknown d) "__proto__")) dat = dat.
Proof.
  intros Hall. apply filter_all. intros d Hd.
  pose proof (plainGears_gearOrUnknown dat d Hall Hd) as Hi.
  unfold inherited in Hi. apply orb_false_elim in Hi as [Hi _].
  now rewrite Hi.
Qed.

Lemma gearDataOf_In (dat : list (CarData num)) (e : GearData) :
  In e (gearDataOf dat)
  <-> In (gear_name e, gear_value e) (Object_entries (fold_left countGear dat [])).
Proof.
  unfold gearDataOf. rewrite in_map_iff. split.
  - intros [[g t] [<- Hin]]. exact Hin.
  - intros Hin. exists (gear_name e, gear_value e). split; [now destruct e | exact Hin].
Qed.

Lemma rowsOfGear_In (d : CarData num) (dat : list (CarData num)) :
  In d dat -> In d (rowsOfGear (gearOrUnknown d) dat).
Proof.
  intros Hd. rewrite rowsOfGear_gearOrUnknown.
  apply filter_In. split; [exact Hd | apply String.eqb_refl].
Qed.

(** X29. When no gear of the rows names a property of Object.prototype,
    the gear series partitions the rows: its names are distinct, the entry
    of a name holds the number of rows of that gear ('Desconhecido'
    standing for a missing or empty gear), every row is counted in the
    entry of its gear, and the counts add up to the totalCars KPI, the
    number of rows. *)
Theorem gearData_partition (dat : list (CarData num)) (c : ChartsData num) :
  chartsData dat = Some c -> plainGears dat = true ->
  NoDup (map gear_name (gearData c))
  /\ (forall e, In e (gearData c) ->
        gear_value e = Count (List.length (rowsOfGear (gear_name e) dat)))
  /\ (forall d, In d dat ->
        exists e, In e (gearData c) /\ In d (rowsOfGear (gear_name e) dat))
  /\ list_sum (map (fun e => List.length (rowsOfGear (gear_name e) dat)) (gearData c))
     = totalCars (kpis c)
  /\ totalCars (kpis c) = List.length dat.
Proof.
  unfold chartsData. destruct (List.length dat =? 0); [discriminate|].
  intros [= <-] Hplain. simpl.
  assert (Hgear : forall d, In d dat -> inherited (gearOrUnknown d) = false).
  { intros d Hd. now apply (plainGears_gearOrUnknown dat). }
  split; [|split; [|split; [|split; [|reflexivity]]]].
  - unfold gearDataOf. rewrite map_map. simpl. apply gearCount_keys_NoDup.
  - intros e He. apply gearDataOf_In, gearCount_entries in He
      as (_ & _ & Hrows & ->).
    apply tallyOf_plain.
    destruct (rowsOfGear (gear_name e) dat) as [|d ds] eqn:E; [contradiction|].
    assert (Hd : In d (rowsOfGear (gear_name e) dat)) by (rewrite E; now left).
    rewrite rowsOfGear_gearOrUnknown in Hd. apply filter_In in Hd as [Hd Hg].
    apply String.eqb_eq in Hg. rewrite <- Hg. now apply Hgear.
  - intros d Hd. pose proof (rowsOfGear_In d dat Hd) as Hrow.
    exists {| gear_name := gearOrUnknown d;
              gear_value := tallyOf (gearOrUnknown d)
                              (List.length (rowsOfGear (gearOrUnknown d) dat)) |}.
    split; [|exact Hrow]. apply gearDataOf_In. simpl.
    apply gearCount_listed.
    + intros Hp. specialize (Hgear d Hd). rewrite Hp in Hgear. discriminate.
    + intros Hnil. rewrite Hnil in Hrow. destruct Hrow.
  - rewrite (map_ext_in _ (fun e => rowsCounted (gear_value e))).
    + unfold gearDataOf. rewrite map_map. simpl.
      rewrite (list_sum_perm _ (map (fun e => rowsCounted (snd e))
                                  (fold_left countGear dat []))).
      * rewrite rowsCounted_gearCount, (plainGears_all _ Hplain). reflexivity.
      * apply Permutation_map, Object_entries_perm.
    + intros e He. apply gearDataOf_In, gearCount_entries in He
        as (_ & _ & _ & ->).
      now rewrite rowsCounted_tallyOf.
Qed.

(** X16. Every entry of the gear series stands for a gear with rows, under
    a name that is neither empty nor __proto__: a missing or empty gear is
    counted under 'Desconhecido'.  Its value is the number of these rows,
    unless the name is that of a function of Object.prototype: the value
    is then the text of that function with one digit 1 for each row. *)
Theorem gearData_entries (dat : list (CarData num)) (e : GearData) :
  In e (gearDataOf dat) ->
  gear_name e <> EmptyString /\ gear_name e <> "__proto__"
  /\ rowsOfGear (gear_name e) dat <> []
  /\ gear_value e = tallyOf (gear_name e) (List.length (rowsOfGear (gear_name e) dat)).
Proof.
  intros He. now apply gearDataOf_In, gearCount_entries in He.
Qed.

Lemma brandDataOf_allBrands (dat : list (CarData num)) :
  brandDataOf dat = firstn 10 (allBrands dat).
Proof. reflexivity. Qed.

Lemma allBrands_In (dat : list (CarData num)) (e : BrandData) :
  In e (allBrands dat) <->
  In (brand_name e, brand_value e) (Object_entries (fold_left countBrand dat [])).
Proof.
  unfold allBrands. rewrite sort_In, in_map_iff. split.
  - intros [[b n] [<- Hin]]. exact Hin.
  - intros Hin. exists (brand_name e, brand_value e). split; [now destruct e | exact Hin].
Qed.

Lemma allBrands_names_NoDup (dat : list (CarData num)) :
  NoDup (map brand_name (allBrands dat)).
Proof.
  unfold allBrands.
  eapply Permutation_NoDup.
  - symmetry. apply Permutation_map, sort_perm.
  - rewrite map_map. simpl. apply brandCount_keys_NoDup.
Qed.

Lemma plainBrands_rows (dat : list (CarData num)) (b : string) :
  plainBrands dat = true -> rowsOfBrand b dat <> [] -> inherited b = false.
Proof.
  intros Hplain Hrows.
  destruct (rowsOfBrand b dat) as [|d ds] eqn:E; [contradiction|].
  assert (Hd : In d (rowsOfBrand b dat)) by (rewrite E; now left).
  unfold rowsOfBrand in Hd. apply filter_In in Hd as [Hd Hb].
  apply String.eqb_eq in Hb. rewrite <- Hb.
  apply (proj1 (forallb_forall _ _) Hplain) in Hd. now apply negb_true_iff in Hd.
Qed.

(** The brand series before the cut, when no brand names a property of
    Object.prototype: every value is the number of rows of the brand, and
    the brands with more rows come first. *)
Lemma allBrands_plain (dat : list (CarData num)) :
  plainBrands dat = true ->
  (forall e, In e (allBrands dat) ->
     brand_value e = Count (List.length (rowsOfBrand (brand_name e) dat)))
  /\ StronglySorted (byRows dat) (allBrands dat).
Proof.
  intros Hplain.
  assert (Hvalue : forall e, In e (allBrands dat) ->
            brand_value e = Count (List.length (rowsOfBrand (brand_name e) dat))).
  { intros e He. apply allBrands_In, brandCount_entries in He as (_ & _ & Hrows & ->).
    apply tallyOf_plain. now apply (plainBrands_rows dat). }
  split; [exact Hvalue|].
  rewrite <- (map_id (allBrands dat)).
  apply (StronglySorted_map
           (fun a b : BrandData =>
              rowsCounted (brand_value b) <= rowsCounted (brand_value a))).
  - intros a b Ha Hb. unfold byRows.
    now rewrite (Hvalue a Ha), (Hvalue b Hb).
  - unfold allBrands.
    apply (sort_sorted _ (fun e : BrandData => exists n, brand_value e = Count n)).
    + intros a b [x Hx] [y Hy]. rewrite Hx, Hy. simpl. lia.
    + intros a b [x Hx] [y Hy]. rewrite Hx, Hy. simpl. lia.
    + intros a b c0. lia.
    + apply Forall_forall. intros e He.
      assert (He' : In e (allBrands dat)) by (unfold allBrands; now apply sort_In).
      eexists. now apply Hvalue.
Qed.

(** X14. In the brand series, on any rows, no brand is listed twice, and
    every entry stands for a brand with rows, under a name that is
    neither empty nor __proto__.  Its value is the number of these rows,
    unless the name is that of a function of Object.prototype: the value
    is then the text of that function with one digit 1 for each row. *)
Theorem brandData_entries (dat : list (CarData num)) :
  NoDup (map brand_name (brandDataOf dat))
  /\ forall e, In e (brandDataOf dat) ->
       brand_name e <> EmptyString /\ brand_name e <> "__proto__"
       /\ rowsOfBrand (brand_name e) dat <> []
       /\ brand_value e
          = tallyOf (brand_name e) (List.length (rowsOfBrand (brand_name e) dat)).
Proof.
  rewrite brandDataOf_allBrands. split.
  - rewrite <- firstn_map. apply NoDup_firstn, allBrands_names_NoDup.
  - intros e He. apply In_firstn, allBrands_In in He.
    now apply brandCount_entries in He.
Qed.

(** X15. When no brand of the rows names a property of Object.prototype,
    the cut to ten entries keeps the brands with the most rows: a brand
    that has rows is listed in the brand series, or else the series has
    ten entries and none of them stands for fewer rows than that brand
    has. *)
Theorem brandData_keeps_largest (dat : list (CarData num)) (b : string) :
  plainBrands dat = true -> b <> EmptyString -> rowsOfBrand b dat <> [] ->
  In b (map brand_name (brandDataOf dat))
  \/ (List.length (brandDataOf dat) = 10
      /\ forall e, In e (brandDataOf dat) ->
           List.length (rowsOfBrand b dat)
           <= List.length (rowsOfBrand (brand_name e) dat)).
Proof.
  intros Hplain Hb Hrows. rewrite brandDataOf_allBrands.
  pose proof (plainBrands_rows dat b Hplain Hrows) as Hplainb.
  set (e0 := {| brand_name := b;
                brand_value := tallyOf b (List.length (rowsOfBrand b dat)) |}).
  assert (Hin : In e0 (allBrands dat)).
  { apply allBrands_In. cbn [brand_name brand_value e0].
    apply brandCount_listed; try assumption.
    intros ->. discriminate Hplainb. }
  rewrite <- (firstn_skipn 10 (allBrands dat)) in Hin.
  apply in_app_or in Hin as [Hin|Hin].
  - left. apply (in_map brand_name) in Hin. exact Hin.
  - right. split.
    + apply firstn_length_le.
      destruct (Nat.le_gt_cases 10 (List.length (allBrands dat))) as [Hle|Hgt];
        [exact Hle|].
      rewrite skipn_all2 in Hin by lia. destruct Hin.
    + intros e He.
      destruct (allBrands_plain dat Hplain) as [_ Hs].
      rewrite <- (firstn_skipn 10 (allBrands dat)) in Hs.
      exact (sorted_app_le _ _ _ Hs e e0 He Hin).
Qed.

(** X28. For a cleaned dataset that is not empty and in which no brand
    names a property of Object.prototype, the brand series has at most 10
    entries, the brands with more rows first, each value being the number
    of rows of the brand; it has a first entry, whose name is the
    mostCommonBrand KPI and whose brand has no fewer rows than any
    other. *)
Theorem brandData_ranked (rawData : list Row) (c : ChartsData num) :
  chartsData (cleanData rawData) = Some c ->
  plainBrands (cleanData rawData) = true ->
  List.length (brandData c) <= 10
  /\ StronglySorted (byRows (cleanData rawData)) (brandData c)
  /\ (forall e, In e (brandData c) ->
        brand_value e
        = Count (List.length (rowsOfBrand (brand_name e) (cleanData rawData))))
  /\ exists top rest,
       brandData c = top :: rest
       /\ mostCommonBrand (kpis c) = brand_name top
       /\ forall b, List.length (rowsOfBrand b (cleanData rawData))
                    <= List.length (rowsOfBrand (brand_name top) (cleanData rawData)).
Proof.
  unfold chartsData.
  destruct (List.length (cleanData rawData) =? 0) eqn:Hlen; [discriminate|].
  intros [= <-] Hplain. simpl.
  pose proof (cleanData_brand_nonempty rawData) as Hbranded.
  remember (cleanData rawData) as dat eqn:Hdat. clear Hdat.
  destruct (allBrands_plain dat Hplain) as [Hvalue Hsorted].
  rewrite brandDataOf_allBrands.
  split; [apply firstn_le_length|].
  split; [now apply firstn_sorted|].
  split; [intros e He; apply Hvalue; now apply In_firstn in He|].
  destruct dat as [|d0 dat']; [discriminate|].
  assert (Hlisted : forall b, rowsOfBrand b (d0 :: dat') <> [] ->
            exists e, In e (allBrands (d0 :: dat')) /\ brand_name e = b).
  { intros b Hb.
    exists {| brand_name := b;
              brand_value := tallyOf b (List.length (rowsOfBrand b (d0 :: dat'))) |}.
    split; [|reflexivity]. apply allBrands_In. cbn [brand_name brand_value].
    pose proof (plainBrands_rows _ b Hplain Hb) as Hplainb.
    apply brandCount_listed; [| |exact Hb].
    - intros ->. destruct (rowsOfBrand EmptyString (d0 :: dat')) as [|d ds] eqn:E;
        [contradiction|].
      assert (Hd : In d (rowsOfBrand EmptyString (d0 :: dat'))) by (rewrite E; now left).
      unfold rowsOfBrand in Hd. apply filter_In in Hd as [Hd Hempty].
      apply String.eqb_eq in Hempty.
      now apply (proj1 (Forall_forall _ _) Hbranded d Hd).
    - intros ->. discriminate Hplainb. }
  assert (Hd0 : rowsOfBrand (brand_clean d0) (d0 :: dat') <> []).
  { unfold rowsOfBrand. simpl. rewrite String.eqb_refl. discriminate. }
  destruct (Hlisted _ Hd0) as (e0 & Hin0 & _).
  destruct (allBrands (d0 :: dat')) as [|top rest] eqn:Hs; [destruct Hin0|].
  exists top, (firstn 9 rest). split; [reflexivity|]. split.
  - reflexivity.
  - intros b.
    destruct (rowsOfBrand b (d0 :: dat')) as [|d ds] eqn:Hb; [simpl; lia|].
    rewrite <- Hb.
    assert (Hbne : rowsOfBrand b (d0 :: dat') <> []) by (rewrite Hb; discriminate).
    destruct (Hlisted _ Hbne) as (e & Hine & <-).
    apply StronglySorted_inv in Hsorted as [_ Htop].
    destruct Hine as [->|Hine]; [lia|].
    exact (proj1 (Forall_forall _ _) Htop e Hine).
Qed.
End CountFacts.

(** ** The quarter groups *)

Section QuarterFacts.
Context {num : Type} `{Host num}.

Lemma addPrice_groupStep (o : object (PriceEvolutionItem num)) (d : CarData num) :
  addPrice o d = groupStep quarterKey newQuarter addToQuarter o d.
Proof.
  unfold addPrice, groupStep, quarterKey, newQuarter, addToQuarter, rowPrice.
  destruct (getProp "month_of_reference" (raw d)) as [month|]; [|reflexivity].
  destruct (getProp "year_of_reference" (raw d)) as [yearRef|]; [|reflexivity].
  destruct (avg_price_clean d) as [p|]; [|reflexivity].
  destruct (String.eqb month EmptyString || String.eqb yearRef EmptyString
            || negb (toBoolean p)); [reflexivity|].
  now destruct (getProp _ o).
Qed.

(** What the rows filed under a key make of its entry. *)
Lemma addToQuarter_fold (ds : list (CarData num)) (item : PriceEvolutionItem num) :
  total (fold_left addToQuarter ds item)
  = fold_left plus (map rowPrice ds) (total item)
  /\ count (fold_left addToQuarter ds item) = count item + List.length ds
  /\ display (fold_left addToQuarter ds item) = display item.
Proof.
  revert item. induction ds as [|d ds IH]; intros item; simpl.
  - repeat split. lia.
  - destruct (IH (addToQuarter item d)) as (Ht & Hc & Hd).
    rewrite Ht, Hc, Hd. simpl. repeat split. lia.
Qed.



Lemma monthNames_quarters :
  forallb (fun e => String.eqb (quarterOf (fst e)) (quarterName (snd e))
                    && negb (String.eqb (fst e) EmptyString)
                    && (1 <=? snd e) && (snd e <=? 12))
          monthNames = true.
Proof. vm_compute. reflexivity. Qed.

Lemma toLowerCase_empty (s : string) :
  toLowerCase s <> EmptyString -> s <> EmptyString.
Proof. intros Hs ->. now apply Hs. Qed.

(** C3. A row whose month is one of the month names, in any letter case,
    and that has a year and a truthy price, is binned by the aggregator
    into the group of the calendar quarter of that month and of its year:
    the entry of that group takes the price into its total and one more
    into its count, and no other group changes. *)
Theorem addPrice_quarter (priceEvolution : object (PriceEvolutionItem num))
    (d : CarData num) (month yearRef name : string) (m : nat) (p : num) :
  getProp "month_of_reference" (raw d) = Some month ->
  getProp "year_of_reference" (raw d) = Some yearRef ->
  yearRef <> EmptyString ->
  avg_price_clean d = Some p ->
  toBoolean p = true ->
  In (name, m) monthNames ->
  toLowerCase month = name ->
  quarterOf (toLowerCase month) = quarterName m
  /\ quarterKey d = Some (quarterName m ++ "/" ++ yearRef)
  /\ (exists item,
        getProp (quarterName m ++ "/" ++ yearRef) (addPrice priceEvolution d)
        = Some item
        /\ total item
           = plus (match getProp (quarterName m ++ "/" ++ yearRef) priceEvolution with
                   | Some it => total it
                   | None => zero
                   end) p
        /\ count item
           = match getProp (quarterName m ++ "/" ++ yearRef) priceEvolution with
             | Some it => count it
             | None => 0
             end + 1)
  /\ forall k, k <> quarterName m ++ "/" ++ yearRef ->
       getProp k (addPrice priceEvolution d) = getProp k priceEvolution.
Proof.
  intros Hmonth Hyear Hyne Hprice Htruthy Hname Hlower.
  pose proof (proj1 (forallb_forall _ _) monthNames_quarters _ Hname) as Hq.
  simpl in Hq. apply andb_prop in Hq as [Hq _]. apply andb_prop in Hq as [Hq _].
  apply andb_prop in Hq as [Hq Hnonempty].
  apply String.eqb_eq in Hq. apply negb_true_iff, String.eqb_neq in Hnonempty.
  rewrite <- Hlower in Hq, Hnonempty.
  apply toLowerCase_empty in Hnonempty.
  apply String.eqb_neq in Hnonempty. apply String.eqb_neq in Hyne.
  assert (Hkey : quarterKey d = Some (quarterName m ++ "/" ++ yearRef)).
  { unfold quarterKey. rewrite Hmonth, Hyear, Hprice, Hnonempty, Hyne, Htruthy.
    simpl. now rewrite Hq. }
  split; [exact Hq|]. split; [exact Hkey|].
  unfold addPrice. rewrite Hmonth, Hyear, Hprice, Hnonempty, Hyne, Htruthy.
  simpl. rewrite Hq. split.
  - eexists. rewrite getProp_setProp_same. split; [reflexivity|].
    now destruct (getProp _ priceEvolution).
  - intros k Hk. apply getProp_setProp_other. congruence.
Qed.
End QuarterFacts.
(** ** The program on the sample file *)

Example parseCSV_sample :
  parseCSV sampleCsv
  = [ [("year_of_reference", "2021"); ("month_of_reference", "January");
       ("brand", "GM - Chevrolet"); ("gear", "manual"); ("engine_size", "1,6");
       ("avg_price_brl", "9162.0")];
      [("year_of_reference", "2021"); ("month_of_reference", "Maio");
       ("brand", "VW - VolksWagen"); ("gear", "automatic"); ("engine_size", "2");
       ("avg_price_brl", "10000.5")];
      [("year_of_reference", "2021"); ("month_of_reference", "fevereiro");
       ("brand", "GM - Chevrolet"); ("gear", EmptyString); ("engine_size", "1");
       ("avg_price_brl", "1234")];
      [("year_of_reference", "2022"); ("month_of_reference", "December")] ].
Proof. vm_compute. reflexivity. Qed.

Example cleanData_sample :
  map (fun d => (brand_clean d, engine_size_clean d, avg_price_clean d)) sampleData
  = [ ("GM", Some (Exact.Fin (8 # 5)), Some (Exact.Fin (9162 # 1)));
      ("VW", Some (Exact.Fin (2 # 1)), Some (Exact.Fin (20001 # 2)));
      ("GM", Some (Exact.Fin (1 # 1)), Some (Exact.Fin (1234 # 1)));
      ("Outros", None, None) ].
Proof. vm_compute. reflexivity. Qed.

Example chartsData_sample :
  chartsData sampleData
  = Some
      {| brandData :=
           [ {| brand_name := "GM"; brand_value := Count 2 |};
             {| brand_name := "VW"; brand_value := Count 1 |};
             {| brand_name := "Outros"; brand_value := Count 1 |} ];
         gearData :=
           [ {| gear_name := "manual"; gear_value := Count 1 |};
             {| gear_name := "automatic"; gear_value := Count 1 |};
             {| gear_name := "Desconhecido"; gear_value := Count 2 |} ];
         evolutionData :=
           [ {| evolution_name := "Q1/2021"; price := Exact.Fin (5198 # 1) |};
             {| evolution_name := "Q2/2021"; price := Exact.Fin (10001 # 1) |} ];
         groupedData :=
           [ {| grouped_name := "GM"; Automatico := Exact.Fin (0 # 1);
                Manual := Exact.Fin (9162 # 1) |};
             {| grouped_name := "VW"; Automatico := Exact.Fin (10001 # 1);
                Manual := Exact.Fin (0 # 1) |};
             {| grouped_name := "Outros"; Automatico := Exact.Fin (0 # 1);
                Manual := Exact.Fin (0 # 1) |} ];
         kpis := {| totalCars := 4; avgPrice := Exact.Fin (40793 # 8);
                    mostCommonBrand := "GM" |} |}.
Proof. vm_compute. reflexivity. Qed.

Example chartsData_empty : chartsData (num := Exact.number) [] = None.
Proof. vm_compute. reflexivity. Qed.

(** ** Names that Object.prototype holds *)

(** A header named __proto__ binds nothing: the field under it is lost, and
    a line that has a field for it alone gives no row. *)
Example parseCSV_proto_header :
  parseCSV ("__proto__,b" ++ String LF ("1,2" ++ String LF "3")) = [[("b", "2")]].
Proof. vm_compute. reflexivity. Qed.

(** C9 fails on the code.  The text of a header brand and one line
    __proto__ cleans to one row, of the brand __proto__; the brand counter
    stores nothing under that name, so the brand series is empty and the
    mostCommonBrand KPI is the placeholder, where C9 has the name of a
    first entry with the most rows, here __proto__ with its one row. *)
Theorem brandData_misses_proto_brand :
  let dat : list (CarData Exact.number) :=
    cleanData (parseCSV ("brand" ++ String LF "__proto__")) in
  map brand_clean dat = ["__proto__"]
  /\ List.length (rowsOfBrand "__proto__" dat) = 1
  /\ option_map brandData (chartsData dat) = Some []
  /\ option_map (fun c => mostCommonBrand (kpis c)) (chartsData dat) = Some "-".
Proof. vm_compute. repeat split. Qed.

(** The same counter under the name of a function of Object.prototype: the
    value is a text, not the number of rows. *)
Example brandData_constructor :
  let dat : list (CarData Exact.number) :=
    cleanData (parseCSV ("brand" ++ String LF ("GM" ++ String LF ("constructor"
                         ++ String LF ("GM" ++ String LF "constructor"))))) in
  option_map brandData (chartsData dat)
  = Some [ {| brand_name := "GM"; brand_value := Count 2 |};
           {| brand_name := "constructor"; brand_value := Pasted "constructor" 2 |} ].
Proof. vm_compute. reflexivity. Qed.

(** C10 fails on the code.  The text of the headers brand and gear and one
    line GM,__proto__ cleans to one row, of the gear __proto__; the gear
    counter stores nothing under that name, so the gear series is empty
    and its counts add up to 0, where the totalCars KPI is 1. *)
Theorem gearData_misses_proto_gear :
  let dat : list (CarData Exact.number) :=
    cleanData (parseCSV ("brand,gear" ++ String LF "GM,__proto__")) in
  map (fun d => getProp "gear" (raw d)) dat = [Some "__proto__"]
  /\ List.length (rowsOfGear "__proto__" dat) = 1
  /\ option_map gearData (chartsData dat) = Some []
  /\ option_map (fun c => totalCars (kpis c)) (chartsData dat) = Some 1.
Proof. vm_compute. repeat split. Qed.

Lemma gearData_partition_witness :
  NoDup (map gear_name (gearData sampleCharts))
  /\ (forall e, In e (gearData sampleCharts) ->
        gear_value e = Count (List.length (rowsOfGear (gear_name e) sampleData)))
  /\ (forall d, In d sampleData ->
        exists e, In e (gearData sampleCharts)
                  /\ In d (rowsOfGear (gear_name e) sampleData))
  /\ list_sum (map (fun e => List.length (rowsOfGear (gear_name e) sampleData))
                 (gearData sampleCharts))
     = totalCars (kpis sampleCharts)
  /\ totalCars (kpis sampleCharts) = List.length sampleData.
Proof.
  apply (gearData_partition sampleData sampleCharts).
  - vm_compute. reflexivity.
  - vm_compute. reflexivity.
Defined.

Lemma brandData_ranked_witness :
  List.length (brandData sampleCharts) <= 10
  /\ StronglySorted (byRows (cleanData (parseCSV sampleCsv))) (brandData sampleCharts)
  /\ (forall e, In e (brandData sampleCharts) ->
        brand_value e
        = Count (List.length (rowsOfBrand (brand_name e) (cleanData (parseCSV sampleCsv)))))
  /\ exists top rest,
       brandData sampleCharts = top :: rest
       /\ mostCommonBrand (kpis sampleCharts) = brand_name top
       /\ forall b, List.length (rowsOfBrand b (cleanData (parseCSV sampleCsv)))
                    <= List.length
                         (rowsOfBrand (brand_name top) (cleanData (parseCSV sampleCsv))).
Proof.
  apply (brandData_ranked (parseCSV sampleCsv) sampleCharts).
  - vm_compute. reflexivity.
  - vm_compute. reflexivity.
Defined.


Lemma addPrice_quarter_witness :
  let d : CarData Exact.number :=
    cleanRow [("year_of_reference", "2021"); ("month_of_reference", "Maio");
              ("avg_price_brl", "10000.5")] in
  let key := quarterName 5 ++ "/" ++ "2021" in
  quarterOf (toLowerCase "Maio") = quarterName 5
  /\ quarterKey d = Some key
  /\ (exists item,
        getProp key (addPrice [] d) = Some item
        /\ total item
           = plus (match getProp key ([] : object (PriceEvolutionItem Exact.number)) with
                   | Some it => total it
                   | None => zero
                   end) (Exact.Fin (20001 # 2))
        /\ count item
           = match getProp key ([] : object (PriceEvolutionItem Exact.number)) with
             | Some it => count it
             | None => 0
             end + 1)
  /\ forall k, k <> key -> getProp k (addPrice [] d) = getProp k [].
Proof.
  apply (addPrice_quarter []
           (cleanRow [("year_of_reference", "2021"); ("month_of_reference", "Maio");
                      ("avg_price_brl", "10000.5")])
           "Maio" "2021" "maio" 5 (Exact.Fin (20001 # 2))).
  - reflexivity.
  - reflexivity.
  - discriminate.
  - vm_compute. reflexivity.
  - reflexivity.
  - vm_compute. tauto.
  - reflexivity.
Defined.

Example quarter_of_sample_row :
  quarterName 5 ++ "/" ++ "2021" = "Q2/2021".
Proof. reflexivity. Qed.

(** A month in capitals, its cedilla being code unit 199, and a month given
    as a number, which no name matches. *)
Example quarterOf_capitals :
  quarterOf (toLowerCase ("MAR" ++ String "199"%char "O")) = "Q1".
Proof. vm_compute. reflexivity. Qed.

Example quarterOf_unknown : quarterOf (toLowerCase "3") = "Q4".
Proof. vm_compute. reflexivity. Qed.

(** * Further properties *)

(** ** Trimming *)

Lemma trimStart_head (s : string) :
  match trimStart s with
  | EmptyString => True
  | String c _ => isWhiteSpace c = false
  end.
Proof.
  induction s as [|c s IH]; simpl; [exact I|].
  destruct (isWhiteSpace c) eqn:E; [exact IH | exact E].
Qed.

Lemma trimStart_fixed (s : string) :
  match s with
  | EmptyString => True
  | String c _ => isWhiteSpace c = false
  end ->
  trimStart s = s.
Proof.
  destruct s as [|c s]; simpl; [reflexivity|]. now intros ->.
Qed.

Lemma trimEnd_cons (c : ascii) (s : string) :
  isWhiteSpace c = false -> trimEnd (String c s) = String c (trimEnd s).
Proof.
  intros Hc. simpl. destruct (trimEnd s); [now rewrite Hc | reflexivity].
Qed.

Lemma trimEnd_idem (s : string) : trimEnd (trimEnd s) = trimEnd s.
Proof.
  induction s as [|c s IH]; simpl; [reflexivity|].
  destruct (trimEnd s) as [|c' t] eqn:E.
  - destruct (isWhiteSpace c) eqn:Hc; simpl; [reflexivity | now rewrite Hc].
  - simpl. simpl in IH. now rewrite IH.
Qed.

(** A trimmed text starts with no white space. *)
Lemma trim_head (s : string) :
  match trim s with
  | EmptyString => True
  | String c _ => isWhiteSpace c = false
  end.
Proof.
  unfold trim. pose proof (trimStart_head s) as Hs.
  destruct (trimStart s) as [|c t]; [exact I|].
  rewrite (trimEnd_cons _ _ Hs). exact Hs.
Qed.

Lemma trim_idem (s : string) : trim (trim s) = trim s.
Proof.
  unfold trim at 1. rewrite (trimStart_fixed _ (trim_head s)).
  unfold trim. apply trimEnd_idem.
Qed.

Lemma trimStart_allChars (p : ascii -> bool) (s : string) :
  allChars p s = true -> allChars p (trimStart s) = true.
Proof.
  induction s as [|c s IH]; simpl; [reflexivity|]. intros Hs.
  destruct (isWhiteSpace c); [|exact Hs].
  apply andb_prop in Hs as [_ Hs]. now apply IH.
Qed.

Lemma trimEnd_allChars (p : ascii -> bool) (s : string) :
  allChars p s = true -> allChars p (trimEnd s) = true.
Proof.
  induction s as [|c s IH]; simpl; [reflexivity|]. intros Hs.
  apply andb_prop in Hs as [Hc Hs]. specialize (IH Hs).
  destruct (trimEnd s) as [|c' t].
  - destruct (isWhiteSpace c); simpl; [reflexivity | now rewrite Hc].
  - simpl. simpl in IH. now rewrite Hc, IH.
Qed.

Lemma trim_allChars (p : ascii -> bool) (s : string) :
  allChars p s = true -> allChars p (trim s) = true.
Proof.
  intros Hs. unfold trim. now apply trimEnd_allChars, trimStart_allChars.
Qed.

(** ** The rows of a text *)

Lemma rawFields_notQuote (q : bool) (s : string) :
  Forall (fun piece => allChars notQuote piece = true) (rawFields q s).
Proof.
  revert q. induction s as [|c s IH]; intros q; simpl.
  - repeat constructor.
  - destruct (Ascii.eqb c quote) eqn:Hq; [apply IH|].
    destruct (Ascii.eqb c comma && negb q); [constructor; [reflexivity | apply IH]|].
    specialize (IH q). destruct (rawFields q s) as [|h t]; simpl.
    + repeat constructor. simpl. unfold notQuote. now rewrite Hq.
    + inversion IH; subst. constructor; [|assumption].
      simpl. unfold notQuote at 1. now rewrite Hq.
Qed.

(** A field value is trimmed and holds no double quote. *)
Lemma fields_clean (line v : string) :
  In v (fields line) -> trim v = v /\ allChars notQuote v = true.
Proof.
  unfold fields. intros Hin. apply in_map_iff in Hin as [piece [<- Hin]].
  split; [apply trim_idem|].
  apply trim_allChars.
  now apply (proj1 (Forall_forall _ _) (rawFields_notQuote false line)).
Qed.

Lemma setProp_In {V : Type} (k : string) (v : V) (o : object V) (e : string * V) :
  In e (setProp k v o) -> e = (k, v) \/ In e o.
Proof.
  induction o as [|[k' v'] o IH]; simpl.
  - intros [<-|[]]. now left.
  - destruct (String.eqb k' k); simpl.
    + intros [<-|Hin]; [now left | right; now right].
    + intros [<-|Hin]; [right; now left|].
      destruct (IH Hin) as [->|Hin']; [now left | right; now right].
Qed.

(** The rows of a text: each is the row of a line after the first that is
    not blank, made of the header names and of the fields of the line, and
    has a key. *)
Lemma parseCSV_In (text : string) (r : Row) :
  In r (parseCSV text) ->
  0 < List.length (Object_keys r)
  /\ exists line,
       In line (tl (splitLines text)) /\ isBlank line = false
       /\ r = rowOf (headersOf text) (fields line).
Proof.
  rewrite parseCSV_lines. intros Hin.
  apply filter_In in Hin as [Hin Hkeys]. split; [now apply Nat.ltb_lt|].
  apply in_map_iff in Hin as [line [<- Hin]].
  apply filter_In in Hin as [Hin Hb]. exists line.
  repeat split; [exact Hin | now apply negb_true_iff in Hb].
Qed.

(** X1. Every value stored in a row of [parseCSV] is trimmed and holds no
    double quote, and every key of a row is one of the header names of the
    text. *)
Theorem parseCSV_values_clean (text : string) (r : Row) (k v : string) :
  In r (parseCSV text) -> In (k, v) r ->
  trim v = v /\ allChars notQuote v = true /\ In k (headersOf text).
Proof.
  intros Hr Hkv. apply parseCSV_In in Hr as (_ & line & _ & _ & ->).
  apply rowOf_In in Hkv as [Hkv _].
  pose proof (in_combine_l _ _ _ _ Hkv) as Hk.
  pose proof (in_combine_r _ _ _ _ Hkv) as Hv.
  destruct (fields_clean _ _ Hv) as [Ht Hq]. now repeat split.
Qed.

(** X2. Every row of [parseCSV] has at least one key, no key twice, and no
    more keys than the text has header names. *)
Theorem parseCSV_row_size (text : string) (r : Row) :
  In r (parseCSV text) ->
  NoDup (Object_keys r)
  /\ 1 <= List.length (Object_keys r) <= List.length (headersOf text).
Proof.
  intros Hr. apply parseCSV_In in Hr as (Hkeys & line & _ & _ & ->).
  assert (Hnd : NoDup (Object_keys (rowOf (headersOf text) (fields line)))).
  { unfold Object_keys. eapply Permutation_NoDup; [|apply rowOf_NoDup].
    symmetry. apply Permutation_map, Object_entries_perm. }
  split; [exact Hnd|]. split; [lia|].
  apply NoDup_incl_length; [exact Hnd|].
  intros k Hk. apply rowOf_keys in Hk as [Hk _]. now apply In_firstn in Hk.
Qed.

Lemma splitLines_no_LF (text : string) :
  allChars notLF text = true -> splitLines text = [text].
Proof.
  induction text as [|c s IH]; [reflexivity|].
  intros Hs. simpl in Hs. apply andb_prop in Hs as [Hc Hs].
  specialize (IH Hs). unfold notLF in Hc. apply negb_true_iff in Hc.
  cbn [splitLines]. rewrite Hc.
  destruct s as [|c2 s'']; [reflexivity|].
  assert (Hc2 : Ascii.eqb c2 LF = false).
  { simpl in Hs. apply andb_prop in Hs as [Hc2 _].
    unfold notLF in Hc2. now apply negb_true_iff in Hc2. }
  rewrite Hc2, andb_false_r. now rewrite IH.
Qed.

(** X3. A text with no line feed, the empty text and a lone header line
    among them, gives no row. *)
Theorem parseCSV_single_line (text : string) :
  allChars notLF text = true -> parseCSV text = [].
Proof.
  intros Hs. unfold parseCSV. now rewrite (splitLines_no_LF _ Hs).
Qed.

(** ** Line breaks *)

Lemma splitLines_nonempty (s : string) : splitLines s <> [].
Proof.
  induction s as [|c s IH]; [discriminate|].
  cbn [splitLines]. destruct (Ascii.eqb c LF); [discriminate|].
  destruct s as [|c2 s''].
  - discriminate.
  - destruct (Ascii.eqb c CR && Ascii.eqb c2 LF); [discriminate|].
    destruct (splitLines (String c2 s'')); [contradiction | discriminate].
Qed.

Lemma splitLines_cons_plain (c : ascii) (s : string) :
  noBreak c = true -> splitLines (String c s) = consPiece c (splitLines s).
Proof.
  unfold noBreak. intros Hc. apply andb_prop in Hc as [Hlf Hcr].
  apply negb_true_iff in Hlf. apply negb_true_iff in Hcr.
  cbn [splitLines]. rewrite Hlf, Hcr. now destruct s.
Qed.

Lemma splitLines_line (eol l rest : string) :
  allChars noBreak l = true ->
  eol = lineFeed \/ eol = carriageReturnLineFeed ->
  splitLines (l ++ eol ++ rest) = l :: splitLines rest.
Proof.
  intros Hl Heol. induction l as [|c l IH].
  - destruct Heol as [->| ->]; reflexivity.
  - simpl in Hl. apply andb_prop in Hl as [Hc Hl].
    change (String c l ++ eol ++ rest) with (String c (l ++ eol ++ rest)).
    rewrite (splitLines_cons_plain _ _ Hc), (IH Hl). reflexivity.
Qed.

Lemma splitLines_plain (l : string) :
  allChars noBreak l = true -> splitLines l = [l].
Proof.
  induction l as [|c l IH]; [reflexivity|]. intros Hl.
  simpl in Hl. apply andb_prop in Hl as [Hc Hl].
  now rewrite (splitLines_cons_plain _ _ Hc), (IH Hl).
Qed.

Lemma splitLines_joinLines (eol l : string) (ls : list string) :
  eol = lineFeed \/ eol = carriageReturnLineFeed ->
  Forall (fun x => allChars noBreak x = true) (l :: ls) ->
  splitLines (joinLines eol l ls) = l :: ls.
Proof.
  intros Heol. revert l. induction ls as [|l' ls IH]; intros l Hall.
  - inversion Hall; subst. now apply splitLines_plain.
  - inversion Hall as [|? ? Hl Hrest]; subst. simpl.
    rewrite (splitLines_line _ _ _ Hl Heol). now rewrite (IH _ Hrest).
Qed.

(** X4. Lines that hold no carriage return and no line feed come back from
    the line splitter as they were, whether they were joined by LF or by
    CR LF, and the two texts parse to the same rows. *)
Theorem parseCSV_line_breaks (l : string) (ls : list string) :
  Forall (fun x => allChars noBreak x = true) (l :: ls) ->
  splitLines (joinLines lineFeed l ls) = l :: ls
  /\ splitLines (joinLines carriageReturnLineFeed l ls) = l :: ls
  /\ parseCSV (joinLines carriageReturnLineFeed l ls)
     = parseCSV (joinLines lineFeed l ls).
Proof.
  intros Hall.
  pose proof (splitLines_joinLines lineFeed l ls (or_introl eq_refl) Hall) as Hlf.
  pose proof (splitLines_joinLines carriageReturnLineFeed l ls
                (or_intror eq_refl) Hall) as Hcrlf.
  repeat split; try assumption.
  unfold parseCSV. now rewrite Hlf, Hcrlf.
Qed.

Lemma splitLines_not_blank (s : string) :
  s <> EmptyString -> splitLines s <> [EmptyString].
Proof.
  destruct s as [|c s]; [contradiction|]. intros _.
  cbn [splitLines]. destruct (Ascii.eqb c LF).
  - pose proof (splitLines_nonempty s). destruct (splitLines s);
      [contradiction | discriminate].
  - destruct s as [|c2 s''].
    + discriminate.
    + destruct (Ascii.eqb c CR && Ascii.eqb c2 LF).
      * pose proof (splitLines_nonempty s''). destruct (splitLines s'');
          [contradiction | discriminate].
      * destruct (splitLines (String c2 s'')); discriminate.
Qed.

Lemma chopLast_cons (l : string) (ls : list string) :
  ls <> [] -> chopLast (l :: ls) = l :: chopLast ls.
Proof. destruct ls; [contradiction | reflexivity]. Qed.

Lemma chopLast_consPiece (c : ascii) (ls : list string) :
  ls <> [] -> ls <> [EmptyString] ->
  consPiece c (chopLast ls ++ [EmptyString])
  = (chopLast (consPiece c ls) ++ [EmptyString])%list.
Proof.
  destruct ls as [|h t]; [contradiction|]. intros _ Hnb.
  destruct t as [|h' t'].
  - destruct h as [|x h]; [contradiction|]. reflexivity.
  - reflexivity.
Qed.

(** The lines of a text with one more line feed at its end. *)
Lemma splitLines_final_LF (t : string) :
  splitLines (t ++ lineFeed)
  = (chopLast (splitLines t) ++ [EmptyString])%list.
Proof.
  assert (Hgen : forall n s, String.length s <= n ->
            splitLines (s ++ lineFeed)
            = (chopLast (splitLines s) ++ [EmptyString])%list).
  { induction n as [|n IH]; intros s Hlen.
    - destruct s; [reflexivity | simpl in Hlen; lia].
    - destruct s as [|c s']; [reflexivity|].
      simpl in Hlen.
      change (String c s' ++ lineFeed) with (String c (s' ++ lineFeed)).
      cbn [splitLines].
      destruct (Ascii.eqb c LF) eqn:Hlf.
      + rewrite IH by lia.
        rewrite chopLast_cons by apply splitLines_nonempty. reflexivity.
      + destruct s' as [|c2 s''].
        * cbn [append lineFeed]. destruct (Ascii.eqb c CR) eqn:Hcr.
          -- simpl. rewrite Hcr. reflexivity.
          -- simpl. rewrite Hcr. reflexivity.
        * change (String c2 s'' ++ lineFeed) with (String c2 (s'' ++ lineFeed)).
          cbv beta iota.
          destruct (Ascii.eqb c CR && Ascii.eqb c2 LF) eqn:Hcrlf.
          -- rewrite IH by (simpl in Hlen; lia).
             rewrite chopLast_cons by apply splitLines_nonempty. reflexivity.
          -- change (String c2 (s'' ++ lineFeed)) with (String c2 s'' ++ lineFeed).
             rewrite IH by lia.
             apply chopLast_consPiece;
               [apply splitLines_nonempty | apply splitLines_not_blank; discriminate]. }
  apply (Hgen (String.length t)). lia.
Qed.

Lemma chopCR_cases (s : string) :
  chopCR s = s \/ s = chopCR s ++ String CR EmptyString.
Proof.
  induction s as [|c s IH]; [now left|].
  cbn [chopCR]. destruct s as [|c2 s''].
  - destruct (Ascii.eqb c CR) eqn:E; [|now left].
    right. apply Ascii.eqb_eq in E. now subst.
  - destruct IH as [IH|IH]; [left; now rewrite IH|].
    right. cbn [append]. f_equal. exact IH.
Qed.

Lemma trimEnd_snoc (w : ascii) (u : string) :
  isWhiteSpace w = true -> trimEnd (u ++ String w EmptyString) = trimEnd u.
Proof.
  intros Hw. induction u as [|c u IH]; simpl; [now rewrite Hw|].
  now rewrite IH.
Qed.

Lemma trim_snoc (w : ascii) (p : string) :
  isWhiteSpace w = true -> trim (p ++ String w EmptyString) = trim p.
Proof.
  intros Hw. unfold trim. induction p as [|c p IH]; simpl.
  - now rewrite Hw.
  - destruct (isWhiteSpace c); [exact IH|].
    change (String c (p ++ String w EmptyString))
      with (String c p ++ String w EmptyString).
    now apply trimEnd_snoc.
Qed.

Lemma snocPiece_consPiece (c x : ascii) (l : list string) :
  l <> [] -> snocPiece c (consPiece x l) = consPiece x (snocPiece c l).
Proof.
  destruct l as [|h t]; [contradiction|]. intros _.
  destruct t; reflexivity.
Qed.

Lemma rawFields_snoc (c : ascii) (q : bool) (s : string) :
  plainChar c = true ->
  rawFields q (s ++ String c EmptyString) = snocPiece c (rawFields q s).
Proof.
  unfold plainChar. intros Hc. apply andb_prop in Hc as [Hq Hcm].
  apply negb_true_iff in Hq. apply negb_true_iff in Hcm.
  revert q. induction s as [|x s IH]; intros q.
  - simpl. now rewrite Hq, Hcm.
  - simpl. destruct (Ascii.eqb x quote); [apply IH|].
    pose proof (rawFields_nonempty q s) as Hne.
    destruct (Ascii.eqb x comma && negb q).
    + rewrite IH. destruct (rawFields q s); [contradiction | reflexivity].
    + rewrite IH. now rewrite snocPiece_consPiece.
Qed.

Lemma map_trim_snocPiece (w : ascii) (l : list string) :
  isWhiteSpace w = true -> map trim (snocPiece w l) = map trim l.
Proof.
  intros Hw. induction l as [|p l IH]; [reflexivity|].
  cbn [snocPiece]. destruct l as [|p' l'].
  - simpl. now rewrite trim_snoc.
  - cbn [map] in *. now rewrite IH.
Qed.

Lemma chopCR_same_row (l : string) :
  isBlank (chopCR l) = isBlank l /\ fields (chopCR l) = fields l.
Proof.
  destruct (chopCR_cases l) as [->|Hl]; [now split|].
  rewrite Hl at 2 4. unfold isBlank, fields. split.
  - now rewrite trim_snoc.
  - rewrite rawFields_snoc by reflexivity. now rewrite map_trim_snocPiece.
Qed.

Lemma chopLast_same_rows (headers : list string) (ls : list string) :
  map (fun line => rowOf headers (fields line))
      (filter (fun line => negb (isBlank line)) (chopLast ls))
  = map (fun line => rowOf headers (fields line))
        (filter (fun line => negb (isBlank line)) ls).
Proof.
  induction ls as [|l ls IH]; [reflexivity|].
  cbn [chopLast]. destruct ls as [|l' ls'].
  - destruct (chopCR_same_row l) as [Hb Hf]. simpl. rewrite Hb.
    destruct (negb (isBlank l)); [|reflexivity]. simpl. now rewrite Hf.
  - cbn [filter]. destruct (negb (isBlank l)); [|exact IH].
    cbn [map]. now rewrite IH.
Qed.

(** X5. A line feed added at the end of a text adds no row and changes
    none: the text parses to the same rows with it as without. *)
Theorem parseCSV_final_line_feed (text : string) :
  parseCSV (text ++ lineFeed) = parseCSV text.
Proof.
  unfold parseCSV. rewrite splitLines_final_LF.
  pose proof (splitLines_nonempty text) as Hne.
  destruct (splitLines text) as [|header rest]; [contradiction|].
  destruct rest as [|l rest'].
  - reflexivity.
  - rewrite chopLast_cons by discriminate.
    cbn [app]. rewrite !pushLine_fold. cbn [app]. f_equal.
    rewrite filter_app, map_app. cbn [filter isBlank]. simpl (negb _).
    cbn [map]. rewrite app_nil_r. apply chopLast_same_rows.
Qed.

(** ** The cleaner on parsed rows *)

Lemma beforeFirst_prefix (sep s : string) :
  exists rest, s = beforeFirst sep s ++ rest.
Proof.
  induction s as [|c s [rest IH]].
  - exists EmptyString. now destruct sep.
  - cbn [beforeFirst]. destruct (prefix sep (String c s)).
    + now exists (String c s).
    + exists rest. simpl. now rewrite <- IH.
Qed.

Lemma prefix_longer (a s rest : string) :
  prefix a s = true -> prefix a (s ++ rest) = true.
Proof.
  intros Hp. apply prefix_append in Hp as [r ->].
  apply prefix_append. exists (r ++ rest). apply append_assoc'.
Qed.

(** The text before the first separator holds no separator. *)
Lemma beforeFirst_no_sep (sep s : string) :
  sep <> EmptyString -> includes (beforeFirst sep s) sep = false.
Proof.
  intros Hsep. induction s as [|c s IH].
  - destruct sep; [contradiction | reflexivity].
  - cbn [beforeFirst]. destruct (prefix sep (String c s)) eqn:Hp.
    + destruct sep; [contradiction | reflexivity].
    + cbn [includes]. rewrite IH, orb_false_r.
      destruct (prefix sep (String c (beforeFirst sep s))) eqn:Hp'; [|reflexivity].
      destruct (beforeFirst_prefix sep s) as [rest Hrest].
      apply (prefix_longer _ _ rest) in Hp'.
      change (String c (beforeFirst sep s) ++ rest)
        with (String c (beforeFirst sep s ++ rest)) in Hp'.
      rewrite <- Hrest in Hp'. congruence.
Qed.

Lemma beforeFirst_nonempty (s : string) :
  trim s = s -> s <> EmptyString -> beforeFirst " - " s <> EmptyString.
Proof.
  intros Ht Hne. destruct s as [|c s]; [contradiction|].
  pose proof (trim_head (String c s)) as Hh. rewrite Ht in Hh.
  cbn [beforeFirst].
  destruct (prefix " - " (String c s)) eqn:Hp; [|discriminate].
  apply prefix_append in Hp as [rest Hrest]. inversion Hrest; subst.
  discriminate Hh.
Qed.

Section CleanerOnRows.
Context {num : Type} `{Host num}.

(** X6. The brand_clean of a cleaned row never holds the separator
    ' - ', whatever the raw row. *)
Theorem cleanRow_brand_no_separator (r : Row) :
  includes (brand_clean (cleanRow r)) " - " = false.
Proof.
  unfold cleanRow; simpl.
  destruct (getProp "brand" r) as [b|]; [|reflexivity].
  destruct (String.eqb b EmptyString); [reflexivity|].
  rewrite split_first. now apply beforeFirst_no_sep.
Qed.

Lemma scanInt_digits (d : string) :
  allChars isDigit d = true -> d <> EmptyString ->
  scanInt d = Some (false, digitsValue d).
Proof.
  intros Hd Hne. destruct d as [|c d]; [contradiction|].
  pose proof Hd as Hd'. simpl in Hd'. apply andb_prop in Hd' as [Hc Hrest].
  destruct (digit_char c Hc) as (Hws & _ & _ & Hsign & _).
  unfold scanInt. simpl trimStart. rewrite Hws, Hsign.
  assert (Hx : forall x, isDigit x = false ->
            prefix (String "0" (String x EmptyString)) (String c d) = false).
  { intros x Hxd.
    destruct (prefix (String "0" (String x EmptyString)) (String c d)) eqn:E;
      [|reflexivity].
    apply prefix_append in E as [rest Hrest']. inversion Hrest'; subst.
    simpl in Hrest. rewrite Hxd in Hrest. discriminate. }
  rewrite (Hx "x"%char eq_refl), (Hx "X"%char eq_refl). cbn [orb].
  rewrite <- (append_empty_r (String c d)) at 1.
  rewrite (spanDigits_app (String c d) EmptyString Hd eq_refl).
  reflexivity.
Qed.

(** X7. A year_model written in decimal digits is cleaned to the integer
    they denote. *)
Theorem cleanRow_year_model (r : Row) (y : string) :
  getProp "year_model" r = Some y ->
  allChars isDigit y = true -> y <> EmptyString ->
  year_model_clean (cleanRow r) = ofDecimal false (digitsValue y) 0.
Proof.
  intros Hy Hd Hne. unfold cleanRow; simpl. rewrite Hy.
  apply String.eqb_neq in Hne. rewrite Hne. apply String.eqb_neq in Hne.
  unfold parseInt. now rewrite scanInt_digits.
Qed.

Context `{!HostLaws num}.

Lemma price_never_drops (d : CarData num) :
  isNaN (orZero (avg_price_clean d)) = false.
Proof.
  unfold orZero. destruct (avg_price_clean d) as [v|]; [|apply zero_not_NaN].
  destruct (toBoolean v) eqn:E; [|apply zero_not_NaN].
  destruct (isNaN v) eqn:En; [|reflexivity].
  rewrite (NaN_falsy v En) in E. discriminate.
Qed.

(** X8. The final filter never removes a row on account of its price: a
    missing price and a price that does not parse (NaN) pass it, and the
    cleaned rows are the rows with a brand_clean that is not empty. *)
Theorem cleanData_keeps_any_price (rawData : list Row) :
  cleanData rawData
  = filter (fun d => negb (String.eqb (brand_clean d) EmptyString))
           (map cleanRow rawData).
Proof.
  unfold cleanData. apply filter_ext. intros d.
  unfold keepRow. now rewrite price_never_drops.
Qed.

(** X9. Every row that the tokenizer gives survives cleaning: the cleaned
    rows of a text are the cleaned images of its parsed rows, one for one
    and in their order. *)
Theorem cleanData_parseCSV_keeps_all (text : string) :
  cleanData (parseCSV text) = map cleanRow (parseCSV text).
Proof.
  unfold cleanData.
  assert (Hall : forall l : list Row,
            (forall r, In r l -> In r (parseCSV text)) ->
            filter keepRow (map cleanRow l) = map cleanRow l).
  { induction l as [|r l IH]; intros Hin; [reflexivity|].
    cbn [map filter].
    assert (Hkeep : keepRow (cleanRow r) = true).
    { unfold keepRow. rewrite price_never_drops. simpl.
      apply negb_true_iff, String.eqb_neq.
      unfold cleanRow; simpl.
      destruct (getProp "brand" r) as [b|] eqn:Hb; [|discriminate].
      destruct (String.eqb b EmptyString) eqn:Hbe; [discriminate|].
      rewrite split_first. apply beforeFirst_nonempty.
      - apply In_getProp in Hb.
        assert (Hr : In r (parseCSV text)) by (apply Hin; now left).
        apply parseCSV_In in Hr as (_ & line & _ & _ & ->).
        apply rowOf_In in Hb as [Hb _]. apply in_combine_r in Hb.
        now apply fields_clean in Hb.
      - now apply String.eqb_neq. }
    rewrite Hkeep. f_equal. apply IH. intros r' Hr'. apply Hin. now right. }
  apply Hall. tauto.
Qed.
End CleanerOnRows.

(** ** The exact host keeps the laws *)

Lemma compare_not_Gt_trans (a b c : string) :
  String.compare a b <> Gt -> String.compare b c <> Gt -> String.compare a c <> Gt.
Proof.
  revert b c. induction a as [|x a IH]; intros b c Hab Hbc.
  - destruct c; discriminate.
  - destruct b as [|y b]; [simpl in Hab; congruence|].
    destruct c as [|z c]; [simpl in Hbc; congruence|].
    simpl in *. unfold Ascii.compare in *.
    destruct (N.compare_spec (N_of_ascii x) (N_of_ascii y)) as [Hxy|Hxy|Hxy];
      [|clear Hab|congruence];
      (destruct (N.compare_spec (N_of_ascii y) (N_of_ascii z)) as [Hyz|Hyz|Hyz];
         [|clear Hbc|congruence]);
      destruct (N.compare_spec (N_of_ascii x) (N_of_ascii z)) as [Hxz|Hxz|Hxz];
      try discriminate; try lia.
    now apply (IH b c).
Qed.

Lemma exact_laws : HostLaws Exact.number.
Proof.
  split.
  - intros [| |q]; simpl; intros Hx; [reflexivity | discriminate | discriminate].
  - reflexivity.
  - intros a b. simpl. unfold Exact.compareStrings.
    rewrite (String.compare_antisym b a).
    destruct (String.compare a b); simpl; lia.
  - intros a b c. simpl. unfold Exact.compareStrings.
    intros Hab Hbc.
    assert (Hac : String.compare a c <> Gt).
    { apply (compare_not_Gt_trans a b c).
      - destruct (String.compare a b); [discriminate | discriminate | lia].
      - destruct (String.compare b c); [discriminate | discriminate | lia]. }
    destruct (String.compare a c); [lia | lia | congruence].
Qed.

(** ** The upload handlers and the page *)

Section HandlerFacts.
Context {num : Type} `{Host num}.

(** X10. Every completion of a read clears the loading flag, whatever the
    parser and the cleaner do, and a content that is missing or empty is
    handled exactly as a failed read: the parser is not consulted. *)
Theorem read_completion (parse : string -> outcome (list Row))
    (clean : list Row -> outcome (list (CarData num)))
    (result : option string) (st : AppState num) :
  loading (onloadWith parse clean result st) = false
  /\ loading (onerror st) = false
  /\ onloadWith parse clean None st = onerror st
  /\ onloadWith parse clean (Some EmptyString) st = onerror st.
Proof.
  repeat split. unfold onloadWith.
  destruct result as [text|]; [|reflexivity].
  destruct (String.eqb text EmptyString); [reflexivity|].
  now destruct (bind (parse text) clean).
Qed.

(** X11. A file chosen and then read with a content that is not empty
    ends in the state that holds the cleaned rows of the content and the
    name of the file, with the loading flag cleared and no error, whatever
    error the state held before. *)
Theorem upload_succeeds (name text : string) (st : AppState num) :
  text <> EmptyString ->
  onload (Some text) (handleFileUpload (Some name) st)
  = {| data := cleanData (parseCSV text); loading := false;
       fileName := Some name; error := None |}.
Proof.
  intros Htext. unfold onload, onloadWith, handleFileUpload.
  apply String.eqb_neq in Htext. now rewrite Htext.
Qed.

(** X12. The page shows the dashboard or the upload section, never both
    and never neither; the loading and error messages are shown only with
    the upload section. *)
Theorem render_exclusive (st : AppState num) :
  match dashboard (render st) with
  | Some _ =>
      uploadSection (render st) = false
      /\ loadingMessage (render st) = false
      /\ errorMessage (render st) = None
  | None => uploadSection (render st) = true
  end.
Proof.
  unfold render, chartsData. simpl.
  now destruct (List.length (data st) =? 0).
Qed.

(** X13. A file whose content gives no row is taken without any message:
    after the read the page is back on the upload section, with no
    dashboard, no loading message and no error message. *)
Theorem upload_without_rows_is_silent (name text : string) (st : AppState num) :
  text <> EmptyString -> parseCSV text = [] ->
  render (onload (Some text) (handleFileUpload (Some name) st))
  = {| uploadSection := true; loadingMessage := false;
       errorMessage := None; dashboard := None |}.
Proof.
  intros Htext Hrows. unfold onload, onloadWith, handleFileUpload.
  apply String.eqb_neq in Htext. rewrite Htext. simpl.
  rewrite Hrows. reflexivity.
Qed.
End HandlerFacts.

(** ** The grouped series *)

Lemma filter_filter' {A : Type} (f g : A -> bool) (l : list A) :
  filter f (filter g l) = filter (fun x => g x && f x) l.
Proof.
  induction l as [|x l IH]; simpl; [reflexivity|].
  destruct (g x); simpl; [|exact IH].
  destruct (f x); now rewrite IH.
Qed.

Lemma arrayIncludes_In (names : list string) (x : string) :
  arrayIncludes names x = true <-> In x names.
Proof.
  unfold arrayIncludes. rewrite existsb_exists. split.
  - intros [y [Hy Heq]]. apply String.eqb_eq in Heq. now subst.
  - intros Hx. exists x. split; [exact Hx | apply String.eqb_refl].
Qed.

Section GroupedFacts.
Context {num : Type} `{Host num}.

Lemma orZero_truthy (x : option num) :
  truthy x = true -> orZero x = match x with Some p => p | None => zero end.
Proof.
  unfold truthy, orZero. destruct x as [v|]; [|discriminate]. now intros ->.
Qed.

(** On a dictionary without a key that names a property of
    Object.prototype, a turn of the loop files the row under its brand,
    unless the brand names such a property. *)
Lemma addGrouped_groupStep (o : object (GroupedDataItem num)) (d : CarData num) :
  (forall k, In k (map fst o) -> inherited k = false) ->
  addGrouped o d = groupStep groupedKey newGroup addToGroup o d.
Proof.
  intros Hplain.
  unfold addGrouped, groupStep, groupedKey, newGroup, addToGroup, hasGear, rowPrice.
  destruct (inherited (brand_clean d)) eqn:Hi.
  - destruct (getProp (brand_clean d) o) as [it|] eqn:Hget; [|reflexivity].
    apply In_getProp, (in_map fst) in Hget. simpl in Hget.
    rewrite (Hplain _ Hget) in Hi. discriminate.
  - replace (match getProp (brand_clean d) o with
             | Some _ => false
             | None => false
             end) with false by now destruct (getProp (brand_clean d) o).
    f_equal.
    destruct (match gear d with Some g => String.eqb g "automatic" | None => false end);
      destruct (match gear d with Some g => String.eqb g "manual" | None => false end);
      destruct (truthy (avg_price_clean d)) eqn:E; simpl; try reflexivity;
      now rewrite (orZero_truthy _ E).
Qed.

Lemma groupedStep_plain (o : object (GroupedDataItem num)) (d : CarData num) :
  (forall k, In k (map fst o) -> inherited k = false) ->
  forall k, In k (map fst (groupStep groupedKey newGroup addToGroup o d)) ->
            inherited k = false.
Proof.
  intros Hplain k. unfold groupStep, groupedKey.
  destruct (inherited (brand_clean d)) eqn:Hi; [apply Hplain|].
  rewrite setProp_keys.
  destruct (existsb (String.eqb (brand_clean d)) (map fst o)); [apply Hplain|].
  intros Hin. apply in_app_or in Hin as [Hin|[<-|[]]]; [now apply Hplain | exact Hi].
Qed.

Lemma addGrouped_fold (l : list (CarData num)) (o : object (GroupedDataItem num)) :
  (forall k, In k (map fst o) -> inherited k = false) ->
  fold_left addGrouped l o = fold_left (groupStep groupedKey newGroup addToGroup) l o.
Proof.
  revert o. induction l as [|d l IH]; intros o Hplain; [reflexivity|].
  simpl. rewrite (addGrouped_groupStep o d Hplain).
  apply IH. now apply groupedStep_plain.
Qed.

Lemma groupedKey_Some (d : CarData num) (k : string) :
  groupedKey d = Some k <-> brand_clean d = k /\ inherited k = false.
Proof.
  unfold groupedKey. destruct (inherited (brand_clean d)) eqn:Hi; split.
  - discriminate.
  - intros [<- Hk]. congruence.
  - intros [= <-]. now split.
  - intros [<- _]. reflexivity.
Qed.

Lemma hasGear_exclusive (d : CarData num) :
  hasGear "automatic" d = true -> hasGear "manual" d = false.
Proof.
  unfold hasGear. destruct (gear d) as [g|]; [|discriminate].
  destruct (String.eqb g "automatic") eqn:E; [|discriminate].
  apply String.eqb_eq in E. now subst.
Qed.

(** What the rows of a brand make of its entry. *)
Lemma addToGroup_fold (ds : list (CarData num)) (item : GroupedDataItem num) :
  let item' := fold_left addToGroup ds item in
  name item' = name item
  /\ automatic item'
     = fold_left plus (map rowPrice (filter (hasGear "automatic") ds)) (automatic item)
  /\ countAuto item'
     = countAuto item + List.length (filter (hasGear "automatic") ds)
  /\ manual item'
     = fold_left plus (map rowPrice (filter (hasGear "manual") ds)) (manual item)
  /\ countManual item'
     = countManual item + List.length (filter (hasGear "manual") ds).
Proof.
  revert item. induction ds as [|d ds IH]; intros item; cbn zeta.
  - simpl. repeat split; lia.
  - cbn [fold_left filter].
    destruct (IH (addToGroup item d)) as (Hn & Ha & Hca & Hm & Hcm).
    cbn zeta in *. rewrite Hn, Ha, Hca, Hm, Hcm. clear Hn Ha Hca Hm Hcm.
    unfold addToGroup.
    destruct (hasGear "automatic" d) eqn:Ea.
    + rewrite (hasGear_exclusive d Ea). simpl. repeat split; lia.
    + destruct (hasGear "manual" d) eqn:Em; simpl; repeat split; lia.
Qed.

(** The entries of [groupedDataObj] after the loop. *)
Lemma grouped_entries (dat : list (CarData num)) (k : string)
    (item : GroupedDataItem num) :
  In (k, item)
     (Object_entries
        (fold_left addGrouped
           (filter (fun d => arrayIncludes (topBrands dat) (brand_clean d)) dat) [])) ->
  In k (topBrands dat)
  /\ name item = k
  /\ automatic item
     = fold_left plus (map rowPrice (pricedRows k "automatic" dat)) zero
  /\ countAuto item = List.length (pricedRows k "automatic" dat)
  /\ manual item = fold_left plus (map rowPrice (pricedRows k "manual" dat)) zero
  /\ countManual item = List.length (pricedRows k "manual" dat).
Proof.
  rewrite addGrouped_fold by (intros k' []). intros Hin.
  apply groupFold_entries in Hin as (d0 & ds & Hm & Hv).
  assert (Hd0 : In d0 (members groupedKey k
                         (filter (fun d => arrayIncludes (topBrands dat) (brand_clean d))
                            dat))) by (rewrite Hm; now left).
  pose proof (members_key _ _ _ _ Hd0) as Hk0.
  apply groupedKey_Some in Hk0 as [Hk0 Hplain].
  unfold members in Hd0. apply filter_In in Hd0 as [Hd0 _].
  apply filter_In in Hd0 as [_ Htop]. rewrite Hk0 in Htop.
  assert (Hrows : forall g,
            filter (hasGear g) (d0 :: ds) = pricedRows k g dat).
  { intros g. rewrite <- Hm. unfold members, pricedRows.
    rewrite !filter_filter'. apply filter_ext. intros d. unfold hasGear.
    destruct (String.eqb (brand_clean d) k) eqn:E.
    - apply String.eqb_eq in E.
      rewrite (proj2 (groupedKey_Some d k) (conj E Hplain)), String.eqb_refl.
      rewrite E, Htop. reflexivity.
    - replace (match groupedKey d with
               | Some k' => String.eqb k' k
               | None => false
               end) with false; [simpl; apply andb_false_r|].
      destruct (groupedKey d) as [k'|] eqn:Ek; [|reflexivity].
      apply groupedKey_Some in Ek as [<- _]. now rewrite E. }
  change (fold_left addToGroup ds (addToGroup (newGroup k d0) d0))
    with (fold_left addToGroup (d0 :: ds) (newGroup k d0)) in Hv.
  destruct (addToGroup_fold (d0 :: ds) (newGroup k d0)) as (Hn & Ha & Hca & Hmn & Hcm).
  cbn zeta in *. rewrite <- Hv in Hn, Ha, Hca, Hmn, Hcm.
  rewrite !Hrows in *. simpl in Hn, Ha, Hca, Hmn, Hcm.
  split; [now apply arrayIncludes_In|]. now repeat split.
Qed.

Lemma grouped_names_plain (dat : list (CarData num)) (k : string)
    (item : GroupedDataItem num) :
  In (k, item)
     (Object_entries
        (fold_left addGrouped
           (filter (fun d => arrayIncludes (topBrands dat) (brand_clean d)) dat) [])) ->
  inherited k = false.
Proof.
  rewrite addGrouped_fold by (intros k' []). intros Hin.
  apply groupFold_entries in Hin as (d0 & ds & Hm & _).
  assert (Hd0 : In d0 (members groupedKey k
                         (filter (fun d => arrayIncludes (topBrands dat) (brand_clean d))
                            dat))) by (rewrite Hm; now left).
  apply members_key, groupedKey_Some in Hd0. tauto.
Qed.

(** X17. The grouped series has at most 6 entries, no brand twice, and
    every brand in it is one of the first six of the brand series. *)
Theorem groupedData_brands (dat : list (CarData num)) :
  NoDup (map grouped_name (groupedDataOf dat))
  /\ (forall g, In g (groupedDataOf dat) -> In (grouped_name g) (topBrands dat))
  /\ List.length (groupedDataOf dat) <= 6.
Proof.
  unfold groupedDataOf. fold (topBrands dat).
  set (obj := fold_left addGrouped
                (filter (fun d => arrayIncludes (topBrands dat) (brand_clean d)) dat) []).
  assert (Hnames : map grouped_name
                     (map (fun item =>
                             {| grouped_name := name item;
                                Automatico :=
                                  if countAuto item =? 0 then zero
                                  else Math_round
                                         (divide (automatic item) (ofCount (countAuto item)));
                                Manual :=
                                  if countManual item =? 0 then zero
                                  else Math_round
                                         (divide (manual item) (ofCount (countManual item))) |})
                        (Object_values obj))
                   = map fst (Object_entries obj)).
  { unfold Object_values. rewrite !map_map. apply map_ext_in.
    intros [k item] Hin. simpl. now apply grouped_entries in Hin. }
  assert (Hnd : NoDup (map fst (Object_entries obj))).
  { apply entries_keys_NoDup. unfold obj.
    rewrite addGrouped_fold by (intros k' []).
    apply groupStep_NoDup. constructor. }
  assert (Hincl : incl (map fst (Object_entries obj)) (topBrands dat)).
  { intros k Hk. apply in_map_iff in Hk as [[k' item] [<- Hin]]. simpl.
    now apply grouped_entries in Hin. }
  split; [now rewrite Hnames|]. split.
  - intros g Hg. apply Hincl. rewrite <- Hnames. now apply in_map.
  - rewrite <- (length_map grouped_name), Hnames.
    apply Nat.le_trans with (List.length (topBrands dat)).
    + now apply NoDup_incl_length.
    + unfold topBrands. rewrite length_map. apply firstn_le_length.
Qed.

(** X18. Each entry of the grouped series gives, for its brand, the
    rounded mean of the prices of the automatic rows and that of the manual
    rows, a row counting when its price is truthy, and zero where the
    brand has no such row. *)
Theorem groupedData_means (dat : list (CarData num)) (g : GroupedData num) :
  In g (groupedDataOf dat) ->
  Automatico g = roundedMean (pricedRows (grouped_name g) "automatic" dat)
  /\ Manual g = roundedMean (pricedRows (grouped_name g) "manual" dat).
Proof.
  unfold groupedDataOf. fold (topBrands dat). intros Hg.
  apply in_map_iff in Hg as [item [<- Hin]]. unfold Object_values in Hin.
  apply in_map_iff in Hin as [[k item'] [Heq Hin]]. simpl in Heq. subst item'.
  apply grouped_entries in Hin as (_ & Hn & Ha & Hca & Hm & Hcm).
  simpl. unfold roundedMean. rewrite Hn, Ha, Hca, Hm, Hcm. now split.
Qed.
End GroupedFacts.

(** ** The evolution series *)

Lemma quarterOf_names (monthRef : string) : In (quarterOf monthRef) quarterNames.
Proof.
  unfold quarterOf, quarterNames.
  destruct (someIncluded Q1_months monthRef); [simpl; tauto|].
  destruct (someIncluded Q2_months monthRef); [simpl; tauto|].
  destruct (someIncluded Q3_months monthRef); [simpl; tauto|].
  destruct (someIncluded Q4_months monthRef); simpl; tauto.
Qed.

Lemma substring_all (s : string) : substring 0 (String.length s) s = s.
Proof. induction s as [|c s IH]; simpl; [reflexivity | now rewrite IH]. Qed.

Lemma sortKeyOf_group (q y : string) :
  In q quarterNames -> sortKeyOf (q ++ "/" ++ y) = y ++ "-" ++ q.
Proof.
  unfold quarterNames, sortKeyOf.
  intros [<-|[<-|[<-|[<-|[]]]]]; simpl; now rewrite Nat.sub_0_r, substring_all.
Qed.

Section EvolutionFacts.
Context {num : Type} `{Host num}.

Lemma addToQuarter_sortKey (ds : list (CarData num)) (item : PriceEvolutionItem num) :
  sortKey (fold_left addToQuarter ds item) = sortKey item.
Proof.
  revert item. induction ds as [|d ds IH]; intros item; simpl; [reflexivity|].
  now rewrite IH.
Qed.

Lemma quarterKey_parts (d : CarData num) (k : string) :
  quarterKey d = Some k ->
  exists month yearRef,
    getProp "month_of_reference" (raw d) = Some month
    /\ getProp "year_of_reference" (raw d) = Some yearRef
    /\ yearRef <> EmptyString
    /\ k = quarterOf (toLowerCase month) ++ "/" ++ yearRef.
Proof.
  unfold quarterKey.
  destruct (getProp "month_of_reference" (raw d)) as [month|]; [|discriminate].
  destruct (getProp "year_of_reference" (raw d)) as [yearRef|]; [|discriminate].
  destruct (avg_price_clean d) as [p|]; [|discriminate].
  destruct (String.eqb month EmptyString); [discriminate|].
  destruct (String.eqb yearRef EmptyString) eqn:Ey; [discriminate|].
  destruct (negb (toBoolean p)); [discriminate|].
  intros [= <-]. exists month, yearRef. repeat split.
  now apply String.eqb_neq.
Qed.

(** The entries of [priceEvolution] after the loop. *)
Lemma evolution_entries (dat : list (CarData num)) (k : string)
    (item : PriceEvolutionItem num) :
  In (k, item) (Object_entries (fold_left addPrice dat [])) ->
  display item = k
  /\ exists q y,
       In q quarterNames /\ y <> EmptyString
       /\ k = q ++ "/" ++ y /\ sortKey item = y ++ "-" ++ q.
Proof.
  rewrite (fold_left_ext _ _ _ _ addPrice_groupStep). intros Hin.
  apply groupFold_entries in Hin as (d0 & ds & Hm & Hv).
  assert (Hk : quarterKey d0 = Some k).
  { apply (members_key quarterKey k dat). rewrite Hm. now left. }
  destruct (quarterKey_parts _ _ Hk) as (month & yearRef & Hmo & Hy & Hyne & Hkeq).
  destruct (addToQuarter_fold ds (addToQuarter (newQuarter k d0) d0)) as (_ & _ & Hd).
  pose proof (addToQuarter_sortKey ds (addToQuarter (newQuarter k d0) d0)) as Hsk.
  rewrite <- Hv in Hd, Hsk. simpl in Hd, Hsk.
  unfold newQuarter in Hd, Hsk. rewrite Hmo, Hy in Hd, Hsk. simpl in Hd, Hsk.
  split; [exact Hd|].
  exists (quarterOf (toLowerCase month)), yearRef.
  repeat split; [apply quarterOf_names | exact Hyne | exact Hkeq | exact Hsk].
Qed.

(** X19. In the evolution series no group is listed twice, and every name
    is a quarter Q1 to Q4, a slash and a year that is not empty. *)
Theorem evolutionData_names (dat : list (CarData num)) :
  NoDup (map evolution_name (evolutionDataOf dat))
  /\ forall e, In e (evolutionDataOf dat) ->
       exists q y,
         In q quarterNames /\ y <> EmptyString /\ evolution_name e = q ++ "/" ++ y.
Proof.
  unfold evolutionDataOf. split.
  - rewrite map_map. simpl.
    eapply Permutation_NoDup.
    + symmetry. apply Permutation_map, sort_perm.
    + unfold Object_values. rewrite map_map.
      rewrite (map_ext_in _ fst).
      * apply entries_keys_NoDup.
        rewrite (fold_left_ext _ _ _ _ addPrice_groupStep).
        apply groupStep_NoDup. constructor.
      * intros [k item] Hin. simpl. now apply evolution_entries in Hin.
  - intros e He. apply in_map_iff in He as [item [<- Hin]]. simpl.
    apply sort_In in Hin. unfold Object_values in Hin.
    apply in_map_iff in Hin as [[k item'] [Heq Hin]]. simpl in Heq. subst item'.
    apply evolution_entries in Hin as (Hd & q & y & Hq & Hy & Hk & _).
    exists q, y. rewrite Hd. now repeat split.
Qed.

Context `{!HostLaws num}.

(** X20. The evolution series is in the order of the sort keys
    year-quarter of its groups under the collation of the host. *)
Theorem evolutionData_sorted (dat : list (CarData num)) :
  StronglySorted byQuarter (evolutionDataOf dat).
Proof.
  unfold evolutionDataOf.
  apply (StronglySorted_map
           (fun a b : PriceEvolutionItem num =>
              (localeCompare (sortKey a) (sortKey b) <= 0)%Z)).
  - assert (Hkey : forall item,
              In item (sort (fun a b => localeCompare (sortKey a) (sortKey b))
                         (Object_values (fold_left addPrice dat []))) ->
              sortKeyOf (display item) = sortKey item).
    { intros item Hin. apply sort_In in Hin. unfold Object_values in Hin.
      apply in_map_iff in Hin as [[k item'] [Heq Hin]]. simpl in Heq. subst item'.
      apply evolution_entries in Hin as (Hd & q & y & Hq & _ & Hk & Hsk).
      rewrite Hd, Hk, Hsk. now apply sortKeyOf_group. }
    intros a b Ha Hb Hab. unfold byQuarter. simpl.
    now rewrite (Hkey a Ha), (Hkey b Hb).
  - apply (sort_sorted _ (fun _ => True)).
    + tauto.
    + intros a b _ _. apply collation_flip.
    + intros a b c. apply collation_trans.
    + apply Forall_forall. tauto.
Qed.
End EvolutionFacts.

(** ** Colours *)

Lemma wrap32_small (z : Z) :
  (- 2 ^ 31 <= z < 2 ^ 31)%Z -> wrap32 z = z.
Proof.
  intros Hz. unfold wrap32. rewrite Z.mod_small; lia.
Qed.

Lemma land_shiftl_low (a b k : Z) :
  (0 <= k)%Z -> (0 <= b < 2 ^ k)%Z -> Z.land (Z.shiftl a k) b = 0%Z.
Proof.
  intros Hk Hb. apply Z.bits_inj'. intros n Hn.
  rewrite Z.land_spec, Z.bits_0.
  destruct (Z.lt_ge_cases n k) as [Hlt|Hge].
  - now rewrite Z.shiftl_spec_low.
  - assert (Hbn : Z.testbit b n = false).
    { destruct (Z.eq_dec b 0) as [->|Hb0]; [apply Z.bits_0|].
      apply Z.bits_above_log2; [lia|].
      apply Z.lt_le_trans with k; [|exact Hge].
      apply Z.log2_lt_pow2; lia. }
    rewrite Hbn. apply andb_false_r.
Qed.

Lemma lor_shiftl_add (a b k : Z) :
  (0 <= k)%Z -> (0 <= b < 2 ^ k)%Z ->
  Z.lor (Z.shiftl a k) b = (a * 2 ^ k + b)%Z.
Proof.
  intros Hk Hb.
  rewrite <- Z.lxor_lor by now apply land_shiftl_low.
  rewrite <- Z.add_nocarry_lxor by now apply land_shiftl_low.
  now rewrite Z.shiftl_mul_pow2.
Qed.

Lemma shl_small (a k : Z) :
  (0 <= a <= 255)%Z -> (0 <= k <= 16)%Z -> shl a k = (a * 2 ^ k)%Z.
Proof.
  intros Ha Hk. unfold shl. rewrite (wrap32_small a) by lia.
  rewrite Z.shiftl_mul_pow2 by lia. apply wrap32_small.
  assert (0 < 2 ^ k <= 2 ^ 16)%Z.
  { split; [apply Z.pow_pos_nonneg; lia | apply Z.pow_le_mono_r; lia]. }
  change (2 ^ 16)%Z with 65536%Z in *. nia.
Qed.

Lemma bitor_shifted (a b k : Z) :
  (0 <= k)%Z -> (0 <= b < 2 ^ k)%Z -> (0 <= a)%Z -> (a * 2 ^ k + b < 2 ^ 31)%Z ->
  bitor (a * 2 ^ k) b = (a * 2 ^ k + b)%Z.
Proof.
  intros Hk Hb Ha Hlt. unfold bitor.
  assert (0 <= a * 2 ^ k)%Z by (apply Z.mul_nonneg_nonneg; lia).
  rewrite (wrap32_small (a * 2 ^ k)), (wrap32_small b) by lia.
  rewrite <- (Z.shiftl_mul_pow2 a k) by lia.
  rewrite lor_shiftl_add by lia. now rewrite Z.shiftl_mul_pow2 by lia.
Qed.

(** Three channels packed into one number. *)
Lemma pack_channels (r g b : Z) :
  (0 <= r <= 255)%Z -> (0 <= g <= 255)%Z -> (0 <= b <= 255)%Z ->
  bitor (bitor (shl r 16) (shl g 8)) b = (65536 * r + 256 * g + b)%Z.
Proof.
  intros Hr Hg Hb.
  rewrite (shl_small r 16), (shl_small g 8) by lia.
  rewrite (bitor_shifted r (g * 2 ^ 8) 16) by lia.
  replace (r * 2 ^ 16 + g * 2 ^ 8)%Z with ((r * 2 ^ 8 + g) * 2 ^ 8)%Z by lia.
  rewrite (bitor_shifted (r * 2 ^ 8 + g) b 8) by lia. lia.
Qed.

Lemma repeatChar_snoc (c : ascii) (n : nat) :
  repeatChar c n ++ String c EmptyString = String c (repeatChar c n).
Proof. induction n as [|n IH]; simpl; [reflexivity | now rewrite IH]. Qed.

Lemma hexFixed_zero (k : nat) : hexFixed k 0 = repeatChar "0" k.
Proof.
  induction k as [|k IH]; [reflexivity|].
  cbn [hexFixed]. rewrite Zdiv_0_l, IH. apply repeatChar_snoc.
Qed.

Lemma length_append' (a b : string) :
  String.length (a ++ b) = String.length a + String.length b.
Proof. induction a as [|c a IH]; simpl; [reflexivity | now rewrite IH]. Qed.

Lemma hexFixed_length (k : nat) (n : Z) : String.length (hexFixed k n) = k.
Proof.
  revert n. induction k as [|k IH]; intros n; [reflexivity|].
  cbn [hexFixed]. rewrite length_append', IH. simpl. lia.
Qed.

(** Leading zeros in front of the digits of a number that needs fewer. *)
Lemma hexFixed_zeros (i j : nat) (n : Z) :
  (0 <= n < 16 ^ Z.of_nat j)%Z ->
  hexFixed (i + j) n = repeatChar "0" i ++ hexFixed j n.
Proof.
  revert n. induction j as [|j IH]; intros n Hn.
  - simpl in Hn. assert (n = 0%Z) as -> by lia.
    rewrite Nat.add_0_r, hexFixed_zero. simpl. now rewrite append_empty_r.
  - rewrite Nat.add_succ_r. cbn [hexFixed].
    rewrite IH.
    + now rewrite append_assoc'.
    + rewrite Nat2Z.inj_succ, Z.pow_succ_r in Hn by lia.
      split; [apply Z.div_pos; lia | apply Z.div_lt_upper_bound; lia].
Qed.

Lemma hexDigitsOf_step (f : nat) (n : Z) (acc : string) :
  hexDigitsOf (S f) n acc
  = if (n / 16 =? 0)%Z then String (hexDigit (n mod 16)) acc
    else hexDigitsOf f (n / 16) (String (hexDigit (n mod 16)) acc).
Proof. reflexivity. Qed.

(** The digits that [hexDigitsOf] writes, given fuel enough. *)
Lemma hexDigitsOf_fixed (f : nat) (n : Z) (acc : string) :
  (0 <= n < 16 ^ Z.of_nat (S f))%Z ->
  exists j,
    1 <= j <= S f
    /\ hexDigitsOf (S f) n acc = hexFixed j n ++ acc
    /\ (n < 16 ^ Z.of_nat j)%Z
    /\ (j = 1 \/ (16 ^ Z.of_nat (j - 1) <= n)%Z).
Proof.
  revert n acc. induction f as [|f IH]; intros n acc Hn.
  - change (16 ^ Z.of_nat 1)%Z with 16%Z in Hn. exists 1.
    split; [lia|]. split; [|split; [exact (proj2 Hn) | now left]].
    rewrite hexDigitsOf_step. rewrite Z.div_small by lia. reflexivity.
  - rewrite hexDigitsOf_step. destruct (n / 16 =? 0)%Z eqn:E.
    + apply Z.eqb_eq in E. exists 1.
      split; [lia|]. split; [reflexivity|]. split; [|now left].
      change (16 ^ Z.of_nat 1)%Z with 16%Z.
      apply Z.div_small_iff in E; lia.
    + apply Z.eqb_neq in E.
      assert (Hn16 : (0 <= n / 16 < 16 ^ Z.of_nat (S f))%Z).
      { rewrite (Nat2Z.inj_succ (S f)), Z.pow_succ_r in Hn by lia.
        split; [apply Z.div_pos; lia | apply Z.div_lt_upper_bound; lia]. }
      destruct (IH (n / 16)%Z (String (hexDigit (n mod 16)) acc) Hn16)
        as (j & Hj & Heq & Hlt & Hmin).
      assert (Hge : (16 <= n)%Z).
      { destruct (Z.lt_ge_cases n 16) as [Hlt16|Hge16]; [|exact Hge16].
        exfalso. apply E. apply Z.div_small. lia. }
      pose proof (Z.div_mod n 16 ltac:(lia)) as Hdm.
      pose proof (Z.mod_pos_bound n 16 ltac:(lia)) as Hmod.
      exists (S j). split; [lia|]. split; [|split].
      * rewrite Heq. cbn [hexFixed]. rewrite append_assoc'. reflexivity.
      * rewrite Nat2Z.inj_succ, Z.pow_succ_r by lia. lia.
      * right. replace (S j - 1) with j by lia.
        destruct Hmin as [->|Hmin]; [exact Hge|].
        replace j with (S (j - 1)) at 1 by lia.
        rewrite Nat2Z.inj_succ, Z.pow_succ_r by lia. lia.
Qed.

(** A number below 16^6 written by [toString(16)] and padded to six. *)
Lemma toString16_padded (v : Z) :
  (0 <= v < 16 ^ 6)%Z -> padStart 6 "0" (toString16 v) = hexFixed 6 v.
Proof.
  intros Hv. unfold toString16.
  assert (Hneg : (v <? 0)%Z = false) by (apply Z.ltb_ge; lia). rewrite Hneg.
  assert (Hfuel : (0 <= v < 16 ^ Z.of_nat (S (Z.to_nat (Z.log2 v))))%Z).
  { split; [lia|]. rewrite Nat2Z.inj_succ, Z2Nat.id by apply Z.log2_nonneg.
    destruct (Z.eq_dec v 0) as [->|Hv0]; [reflexivity|].
    apply Z.lt_le_trans with (2 ^ Z.succ (Z.log2 v))%Z.
    - apply Z.log2_spec. lia.
    - apply Z.pow_le_mono_l. pose proof (Z.log2_nonneg v). lia. }
  destruct (hexDigitsOf_fixed _ v EmptyString Hfuel) as (j & Hj & Heq & Hlt & Hmin).
  rewrite Heq, append_empty_r. unfold padStart. rewrite hexFixed_length.
  assert (Hj6 : j <= 6).
  { destruct Hmin as [->|Hmin]; [lia|].
    destruct (Nat.le_gt_cases j 6) as [Hle|Hgt]; [exact Hle|]. exfalso.
    assert (16 ^ 6 <= 16 ^ Z.of_nat (j - 1))%Z by (apply Z.pow_le_mono_r; lia).
    lia. }
  replace 6 with ((6 - j) + j) at 2 by lia.
  now rewrite hexFixed_zeros by lia.
Qed.

Lemma hexFixed_channels (r g b : Z) :
  (0 <= r <= 255)%Z -> (0 <= g <= 255)%Z -> (0 <= b <= 255)%Z ->
  hexFixed 6 (65536 * r + 256 * g + b)
  = hexFixed 2 r ++ hexFixed 2 g ++ hexFixed 2 b.
Proof.
  intros Hr Hg Hb. cbn [hexFixed append].
  assert (H1 : ((65536 * r + 256 * g + b) / 16 = 4096 * r + 16 * g + b / 16)%Z)
    by (Z.div_mod_to_equations; lia).
  assert (M0 : ((65536 * r + 256 * g + b) mod 16 = b mod 16)%Z)
    by (Z.div_mod_to_equations; lia).
  assert (H2 : ((4096 * r + 16 * g + b / 16) / 16 = 256 * r + g)%Z)
    by (Z.div_mod_to_equations; lia).
  assert (M1 : ((4096 * r + 16 * g + b / 16) mod 16 = (b / 16) mod 16)%Z)
    by (Z.div_mod_to_equations; lia).
  assert (H3 : ((256 * r + g) / 16 = 16 * r + g / 16)%Z)
    by (Z.div_mod_to_equations; lia).
  assert (M2 : ((256 * r + g) mod 16 = g mod 16)%Z)
    by (Z.div_mod_to_equations; lia).
  assert (H4 : ((16 * r + g / 16) / 16 = r)%Z)
    by (Z.div_mod_to_equations; lia).
  assert (M3 : ((16 * r + g / 16) mod 16 = (g / 16) mod 16)%Z)
    by (Z.div_mod_to_equations; lia).
  rewrite M0, H1, M1, H2, M2, H3, M3, H4. reflexivity.
Qed.

Lemma lighten_bounds (p c : Z) :
  (0 <= p <= 100)%Z -> (0 <= c <= 255)%Z -> (c <= lighten p c <= 255)%Z.
Proof.
  intros Hp Hc. unfold lighten.
  assert (0 <= (255 - c) * p / 100 <= 255 - c)%Z; [|lia].
  split.
  - apply Z.div_pos; nia.
  - apply Z.div_le_upper_bound; nia.
Qed.

Lemma colorValue_channels (hex : string) (n : Z) :
  colorValue hex = Some n ->
  parseInt16 (removeFirst "#" hex) = Some n
  /\ (0 <= n < 2 ^ 24)%Z
  /\ (0 <= red n <= 255)%Z /\ (0 <= green n <= 255)%Z /\ (0 <= blue n <= 255)%Z.
Proof.
  unfold colorValue. destruct (parseInt16 (removeFirst "#" hex)) as [m|]; [|discriminate].
  destruct ((0 <=? m) && (m <? 2 ^ 24))%Z eqn:E; [|discriminate].
  intros [= <-]. apply andb_prop in E as [E1 E2].
  apply Z.leb_le in E1. apply Z.ltb_lt in E2.
  unfold red, green, blue.
  repeat split; try lia; Z.div_mod_to_equations; lia.
Qed.

(** What [lightenColor] makes of a colour of 24 bits. *)
Lemma lightenColor_channels (hex : string) (n p : Z) :
  colorValue hex = Some n -> (0 <= p <= 100)%Z ->
  lightenColor hex p
  = colorOf (lighten p (red n)) (lighten p (green n)) (lighten p (blue n)).
Proof.
  intros Hv Hp.
  destruct (colorValue_channels _ _ Hv) as (Hparse & Hn & Hr & Hg & Hb).
  unfold lightenColor. rewrite Hparse. cbn [ToInt32].
  rewrite (wrap32_small n) by lia.
  assert (Hsar16 : sar n 16 = red n).
  { unfold sar, red. rewrite (wrap32_small n) by lia.
    now rewrite Z.shiftr_div_pow2 by lia. }
  assert (Hsar8 : bitand (sar n 8) 255 = green n).
  { unfold bitand, sar, green. rewrite (wrap32_small n) by lia.
    rewrite Z.shiftr_div_pow2 by lia.
    rewrite (wrap32_small (n / 2 ^ 8)), (wrap32_small 255);
      [|lia|split; Z.div_mod_to_equations; lia].
    change 255%Z with (Z.ones 8). now rewrite Z.land_ones by lia. }
  assert (Hand : bitand n 255 = blue n).
  { unfold bitand, blue. rewrite (wrap32_small n), (wrap32_small 255) by lia.
    change 255%Z with (Z.ones 8). now rewrite Z.land_ones by lia. }
  rewrite Hsar16, Hsar8, Hand.
  pose proof (lighten_bounds p _ Hp Hr) as Hlr.
  pose proof (lighten_bounds p _ Hp Hg) as Hlg.
  pose proof (lighten_bounds p _ Hp Hb) as Hlb.
  unfold lightenChannel. fold (lighten p (red n)) (lighten p (green n)) (lighten p (blue n)).
  rewrite !Z.min_r by lia.
  rewrite pack_channels by lia.
  rewrite toString16_padded by (change (16 ^ 6)%Z with 16777216%Z; lia).
  unfold colorOf. now rewrite hexFixed_channels by lia.
Qed.

Lemma hexDigit_char (d : Z) :
  (0 <= d < 16)%Z ->
  isWhiteSpace (hexDigit d) = false
  /\ (forall s, spanSign (String (hexDigit d) s) = (false, String (hexDigit d) s))
  /\ isDigit "x" = false /\ hexDigit d <> "x"%char /\ hexDigit d <> "X"%char
  /\ hexValue (hexDigit d) = Some (Z.to_N d).
Proof.
  intros Hd.
  assert (Hcases : (d = 0 \/ d = 1 \/ d = 2 \/ d = 3 \/ d = 4 \/ d = 5 \/ d = 6
                    \/ d = 7 \/ d = 8 \/ d = 9 \/ d = 10 \/ d = 11 \/ d = 12
                    \/ d = 13 \/ d = 14 \/ d = 15)%Z) by lia.
  repeat (destruct Hcases as [->|Hcases]); [..|subst d];
    (split; [reflexivity|]; split; [intros s; reflexivity|];
     split; [reflexivity|]; split; [discriminate|];
     split; [discriminate | reflexivity]).
Qed.

Lemma scanHex_digit (d : Z) (acc : option N) (s : string) :
  (0 <= d < 16)%Z ->
  scanHex acc (String (hexDigit d) s)
  = scanHex (Some (16 * match acc with Some a => a | None => 0 end + Z.to_N d)%N) s.
Proof.
  intros Hd. destruct (hexDigit_char d Hd) as (_ & _ & _ & _ & _ & Hv).
  cbn [scanHex]. now rewrite Hv.
Qed.

(** Six hexadecimal digits read back. *)
Lemma parseInt16_digits (d5 d4 d3 d2 d1 d0 : Z) :
  (0 <= d5 < 16)%Z -> (0 <= d4 < 16)%Z -> (0 <= d3 < 16)%Z ->
  (0 <= d2 < 16)%Z -> (0 <= d1 < 16)%Z -> (0 <= d0 < 16)%Z ->
  parseInt16
    (String (hexDigit d5) (String (hexDigit d4) (String (hexDigit d3)
       (String (hexDigit d2) (String (hexDigit d1) (String (hexDigit d0) EmptyString))))))
  = Some (((((d5 * 16 + d4) * 16 + d3) * 16 + d2) * 16 + d1) * 16 + d0)%Z.
Proof.
  intros H5 H4 H3 H2 H1 H0.
  destruct (hexDigit_char d5 H5) as (Hws & Hsign & _ & _ & _ & _).
  destruct (hexDigit_char d4 H4) as (_ & _ & _ & Hx & HX & _).
  unfold parseInt16, scanHexInt. simpl trimStart. rewrite Hws, Hsign.
  set (rest := String (hexDigit d3) _).
  assert (Hpre : forall x, hexDigit d4 <> x ->
            prefix (String "0" (String x EmptyString))
                   (String (hexDigit d5) (String (hexDigit d4) rest)) = false).
  { intros x Hne.
    destruct (prefix (String "0" (String x EmptyString))
                (String (hexDigit d5) (String (hexDigit d4) rest))) eqn:E;
      [|reflexivity].
    apply prefix_append in E as [r Hr]. inversion Hr. congruence. }
  rewrite (Hpre "x"%char Hx), (Hpre "X"%char HX). cbn [orb]. subst rest.
  rewrite !scanHex_digit by assumption. cbn [scanHex].
  set (v := (16 * _ + Z.to_N d0)%N).
  assert (Hv : Z.of_N v
               = (((((d5 * 16 + d4) * 16 + d3) * 16 + d2) * 16 + d1) * 16 + d0)%Z).
  { subst v. lia. }
  unfold roundToDouble. rewrite Hv.
  assert (Hsmall : ((((((d5 * 16 + d4) * 16 + d3) * 16 + d2) * 16 + d1) * 16 + d0
                     <? 2 ^ 53)%Z = true)).
  { apply Z.ltb_lt. change (2 ^ 53)%Z with 9007199254740992%Z. lia. }
  now rewrite Hsmall.
Qed.

(** A colour written from its channels reads back as them. *)
Lemma colorValue_colorOf (r g b : Z) :
  (0 <= r <= 255)%Z -> (0 <= g <= 255)%Z -> (0 <= b <= 255)%Z ->
  colorValue (colorOf r g b) = Some (65536 * r + 256 * g + b)%Z.
Proof.
  intros Hr Hg Hb. unfold colorValue, colorOf.
  cbn [removeFirst]. change (Ascii.eqb "#" "#") with true. cbv iota.
  cbn [hexFixed append].
  rewrite parseInt16_digits by (apply Z.mod_pos_bound; lia).
  assert (Hval : (((((r / 16 mod 16 * 16 + r mod 16) * 16 + g / 16 mod 16) * 16
                    + g mod 16) * 16 + b / 16 mod 16) * 16 + b mod 16
                  = 65536 * r + 256 * g + b)%Z).
  { Z.div_mod_to_equations. lia. }
  rewrite Hval.
  assert (Hrange : ((0 <=? 65536 * r + 256 * g + b)
                    && (65536 * r + 256 * g + b <? 2 ^ 24))%Z = true).
  { apply andb_true_intro. split; [apply Z.leb_le | apply Z.ltb_lt];
      change (2 ^ 24)%Z with 16777216%Z; lia. }
  now rewrite Hrange.
Qed.

Lemma channels_of_packed (r g b : Z) :
  (0 <= r <= 255)%Z -> (0 <= g <= 255)%Z -> (0 <= b <= 255)%Z ->
  red (65536 * r + 256 * g + b) = r
  /\ green (65536 * r + 256 * g + b) = g
  /\ blue (65536 * r + 256 * g + b) = b.
Proof.
  intros Hr Hg Hb. unfold red, green, blue.
  repeat split; Z.div_mod_to_equations; lia.
Qed.

(** X21. For a colour of 24 bits and a percentage from 0 to 100,
    [lightenColor] gives the colour whose channels are those of the input,
    each moved towards 255 by that percentage of its distance to 255
    (rounded down): written as a number sign and six hexadecimal digits in
    lower case, no channel darker than before and none above 255. *)
Theorem lightenColor_lightens (hex : string) (n p : Z) :
  colorValue hex = Some n -> (0 <= p <= 100)%Z ->
  lightenColor hex p
  = colorOf (lighten p (red n)) (lighten p (green n)) (lighten p (blue n))
  /\ (red n <= lighten p (red n) <= 255)%Z
  /\ (green n <= lighten p (green n) <= 255)%Z
  /\ (blue n <= lighten p (blue n) <= 255)%Z.
Proof.
  intros Hv Hp.
  destruct (colorValue_channels _ _ Hv) as (_ & _ & Hr & Hg & Hb).
  split; [now apply lightenColor_channels|].
  repeat split; now apply lighten_bounds.
Qed.

(** X22. The result of [lightenColor] is itself a colour of 24 bits, with
    the lightened channels, so that lightening composes: lightening the
    result again lightens each channel again. *)
Theorem lightenColor_composes (hex : string) (n p q : Z) :
  colorValue hex = Some n -> (0 <= p <= 100)%Z -> (0 <= q <= 100)%Z ->
  colorValue (lightenColor hex p)
  = Some (65536 * lighten p (red n) + 256 * lighten p (green n)
          + lighten p (blue n))%Z
  /\ lightenColor (lightenColor hex p) q
     = colorOf (lighten q (lighten p (red n))) (lighten q (lighten p (green n)))
               (lighten q (lighten p (blue n))).
Proof.
  intros Hv Hp Hq.
  destruct (colorValue_channels _ _ Hv) as (_ & _ & Hr & Hg & Hb).
  pose proof (lighten_bounds p _ Hp Hr) as Hlr.
  pose proof (lighten_bounds p _ Hp Hg) as Hlg.
  pose proof (lighten_bounds p _ Hp Hb) as Hlb.
  assert (Hout : colorValue (lightenColor hex p)
                 = Some (65536 * lighten p (red n) + 256 * lighten p (green n)
                         + lighten p (blue n))%Z).
  { rewrite (lightenColor_channels _ _ _ Hv Hp). apply colorValue_colorOf; lia. }
  split; [exact Hout|].
  rewrite (lightenColor_channels _ _ _ Hout Hq).
  destruct (channels_of_packed (lighten p (red n)) (lighten p (green n))
              (lighten p (blue n))) as (-> & -> & ->); try lia.
  reflexivity.
Qed.

(** X23. Lightening by 0 keeps the colour, written in lower case, and
    lightening by 100 gives white. *)
Theorem lightenColor_ends (hex : string) (n : Z) :
  colorValue hex = Some n ->
  colorValue (lightenColor hex 0) = Some n
  /\ lightenColor hex 0 = colorOf (red n) (green n) (blue n)
  /\ lightenColor hex 100 = "#ffffff".
Proof.
  intros Hv.
  destruct (colorValue_channels _ _ Hv) as (_ & Hn & Hr & Hg & Hb).
  assert (H0 : forall c, lighten 0 c = c).
  { intros c. unfold lighten. rewrite Z.mul_0_r, Z.div_0_l by lia. lia. }
  assert (H100 : forall c, lighten 100 c = 255%Z).
  { intros c. unfold lighten. rewrite Z.div_mul by lia. lia. }
  assert (Hz : lightenColor hex 0 = colorOf (red n) (green n) (blue n)).
  { rewrite (lightenColor_channels _ _ _ Hv) by lia. now rewrite !H0. }
  repeat split.
  - rewrite Hz, colorValue_colorOf by lia. f_equal.
    unfold red, green, blue. Z.div_mod_to_equations. lia.
  - exact Hz.
  - rewrite (lightenColor_channels _ _ _ Hv) by lia. now rewrite !H100.
Qed.

(** X24. A text that [parseInt] cannot read as a hexadecimal number is
    lightened as black is: NaN is 0 under the bit operators. *)
Theorem lightenColor_unreadable (hex : string) (p : Z) :
  parseInt16 (removeFirst "#" hex) = None ->
  lightenColor hex p = lightenColor "#000000" p.
Proof.
  intros Hnan.
  assert (Hblack : ToInt32 (parseInt16 (removeFirst "#" "#000000")) = 0%Z)
    by (vm_compute; reflexivity).
  unfold lightenColor. rewrite Hnan, Hblack. reflexivity.
Qed.

(** ** The fills of the charts *)

Lemma palette_colours (c : string) :
  In c (map snd BRAND_COLORS) -> exists n, colorValue c = Some n.
Proof.
  intros Hin. cbn [BRAND_COLORS map snd In] in Hin.
  repeat (destruct Hin as [<-|Hin]; [eexists; vm_compute; reflexivity|]).
  destruct Hin.
Qed.

(** A name that the table of brand colours holds gives its colour. *)
Lemma colorOr_own (brand fallback c : string) :
  getProp brand BRAND_COLORS = Some c ->
  colorOr BRAND_COLORS brand fallback = Colour c
  /\ exists n, colorValue c = Some n.
Proof.
  intros Hc.
  assert (Hin : In c (map snd BRAND_COLORS)).
  { apply In_getProp in Hc. now apply (in_map snd) in Hc. }
  destruct (palette_colours c Hin) as [n Hn].
  assert (Hne : String.eqb c EmptyString = false).
  { destruct c; [|reflexivity]. discriminate Hn. }
  unfold colorOr. rewrite Hc, Hne. split; [reflexivity | now exists n].
Qed.

(** A name that Object.prototype does not hold gives a colour: its own in
    the table, or the fallback. *)
Lemma colorOr_colour (brand fallback : string) (m : Z) :
  inherited brand = false -> colorValue fallback = Some m ->
  exists c n, colorOr BRAND_COLORS brand fallback = Colour c /\ colorValue c = Some n.
Proof.
  intros Hplain Hf.
  destruct (getProp brand BRAND_COLORS) as [c|] eqn:Hc.
  - destruct (colorOr_own brand fallback c Hc) as [Hcol [n Hn]]. now exists c, n.
  - exists fallback, m. unfold colorOr. rewrite Hc, Hplain. now split.
Qed.

Lemma manualFill_colour (brand : string) :
  inherited brand = false ->
  exists c n, manualFill brand = Return c /\ colorValue c = Some n.
Proof.
  intros Hplain.
  destruct (colorOr_colour brand "#82ca9d" 8571549%Z Hplain) as (c & n & Hc & Hn);
    [vm_compute; reflexivity|].
  destruct (colorValue_channels _ _ Hn) as (_ & _ & Hr & Hg & Hb).
  assert (Hp : (0 <= 30 <= 100)%Z) by lia.
  pose proof (lighten_bounds 30 _ Hp Hr). pose proof (lighten_bounds 30 _ Hp Hg).
  pose proof (lighten_bounds 30 _ Hp Hb).
  unfold manualFill. rewrite Hc, (lightenColor_channels _ _ _ Hn Hp).
  do 2 eexists. split; [reflexivity|]. apply colorValue_colorOf; lia.
Qed.

(** X25. For a brand name that Object.prototype does not hold, and for
    every gear name and index, each fill handed to the charts is a colour
    of 24 bits: the fill of a slice of the gear chart is never
    undefined. *)
Theorem fills_are_colours (brand gearName : string) (index : nat) :
  inherited brand = false ->
  (exists c n, brandFill brand = Colour c /\ colorValue c = Some n)
  /\ (exists c n, automaticFill brand = Colour c /\ colorValue c = Some n)
  /\ (exists c n, manualFill brand = Return c /\ colorValue c = Some n)
  /\ (exists c n, gearFill gearName index = Some c /\ colorValue c = Some n).
Proof.
  intros Hplain. repeat split.
  - apply (colorOr_colour _ _ 3900150%Z Hplain). vm_compute. reflexivity.
  - apply (colorOr_colour _ _ 8946904%Z Hplain). vm_compute. reflexivity.
  - now apply manualFill_colour.
  - unfold gearFill. cbv zeta.
    destruct (String.eqb (toLowerCase gearName) "automatic");
      [do 2 eexists; split; [reflexivity | vm_compute; reflexivity]|].
    destruct (String.eqb (toLowerCase gearName) "manual");
      [do 2 eexists; split; [reflexivity | vm_compute; reflexivity]|].
    change (List.length COLORS) with 7.
    pose proof (Nat.mod_upper_bound index 7) as Hlt.
    destruct (index mod 7) as [|[|[|[|[|[|[|k]]]]]]];
      try (do 2 eexists; split; [reflexivity | vm_compute; reflexivity]).
    lia.
Qed.

(** The brand chart under the name of a function of Object.prototype: the
    fill is that function, and [lightenColor] would throw on it. *)
Example fills_of_constructor :
  brandFill "constructor" = Inherited "constructor"
  /\ manualFill "constructor" = Throw "TypeError".
Proof. split; reflexivity. Qed.

(** X26. For a brand of the table of brand colours, the manual bar of the
    grouped chart has the colour of the automatic bar with every channel
    moved 30 percent of the way to 255. *)
Theorem manualFill_lightens_automatic (brand c : string) :
  getProp brand BRAND_COLORS = Some c ->
  automaticFill brand = Colour c
  /\ exists n, colorValue c = Some n
     /\ manualFill brand
        = Return (colorOf (lighten 30 (red n)) (lighten 30 (green n))
                          (lighten 30 (blue n))).
Proof.
  intros Hc.
  destruct (colorOr_own brand "#8884d8" c Hc) as [Hauto [n Hn]].
  destruct (colorOr_own brand "#82ca9d" c Hc) as [Hman _].
  split; [exact Hauto|]. exists n. split; [exact Hn|].
  unfold manualFill. rewrite Hman. f_equal.
  apply lightenColor_channels; [exact Hn | lia].
Qed.

Section GroupedFills.
Context {num : Type} `{Host num}.

(** X30. The bars of the grouped chart always get colours: no entry of the
    grouped series has a name that Object.prototype holds, so that the
    fill of its automatic bar is a colour and [lightenColor], for its
    manual bar, never throws. *)
Theorem groupedData_fills (dat : list (CarData num)) (g : GroupedData num) :
  In g (groupedDataOf dat) ->
  inherited (grouped_name g) = false
  /\ (exists c n, automaticFill (grouped_name g) = Colour c /\ colorValue c = Some n)
  /\ (exists c n, manualFill (grouped_name g) = Return c /\ colorValue c = Some n).
Proof.
  unfold groupedDataOf. fold (topBrands dat). intros Hg.
  apply in_map_iff in Hg as [item [<- Hin]]. unfold Object_values in Hin.
  apply in_map_iff in Hin as [[k item'] [Heq Hin]]. simpl in Heq. subst item'.
  pose proof (grouped_names_plain _ _ _ Hin) as Hplain.
  apply grouped_entries in Hin as (_ & Hn & _). cbn [grouped_name]. rewrite Hn.
  split; [exact Hplain|]. split.
  - apply (colorOr_colour _ _ 8946904%Z Hplain). vm_compute. reflexivity.
  - now apply manualFill_colour.
Qed.
End GroupedFills.

(** ** The properties on sample inputs *)

Lemma parseCSV_values_clean_witness :
  let text := "a,b" ++ String LF " x ,y" in
  trim "x" = "x" /\ allChars notQuote "x" = true /\ In "a" (headersOf text).
Proof.
  apply (parseCSV_values_clean ("a,b" ++ String LF " x ,y")
           [("a", "x"); ("b", "y")] "a" "x").
  - vm_compute. left. reflexivity.
  - left. reflexivity.
Defined.

Lemma parseCSV_row_size_witness :
  let text := "a,b" ++ String LF " x ,y" in
  let r : Row := [("a", "x"); ("b", "y")] in
  NoDup (Object_keys r)
  /\ 1 <= List.length (Object_keys r) <= List.length (headersOf text).
Proof.
  apply (parseCSV_row_size ("a,b" ++ String LF " x ,y") [("a", "x"); ("b", "y")]).
  vm_compute. left. reflexivity.
Defined.

Lemma parseCSV_single_line_witness : parseCSV "a,b,c" = [].
Proof.
  apply (parseCSV_single_line "a,b,c"). vm_compute. reflexivity.
Defined.

Lemma parseCSV_line_breaks_witness :
  let l := "a,b" in
  let ls := ["1,2"; "3,4"] in
  splitLines (joinLines lineFeed l ls) = l :: ls
  /\ splitLines (joinLines carriageReturnLineFeed l ls) = l :: ls
  /\ parseCSV (joinLines carriageReturnLineFeed l ls)
     = parseCSV (joinLines lineFeed l ls).
Proof.
  apply (parseCSV_line_breaks "a,b" ["1,2"; "3,4"]).
  repeat constructor.
Defined.

Lemma cleanRow_year_model_witness :
  year_model_clean (cleanRow (num := Exact.number) [("year_model", "2015")])
  = ofDecimal false (digitsValue "2015") 0.
Proof.
  apply (cleanRow_year_model (num := Exact.number) [("year_model", "2015")] "2015").
  - reflexivity.
  - vm_compute. reflexivity.
  - discriminate.
Defined.

Lemma cleanData_keeps_any_price_witness :
  let rawData : list Row :=
    [[("brand", "GM - Chevrolet"); ("avg_price_brl", "abc")]; [("brand", " - x")]] in
  cleanData (num := Exact.number) rawData
  = filter (fun d => negb (String.eqb (brand_clean d) EmptyString))
           (map cleanRow rawData).
Proof.
  exact (cleanData_keeps_any_price (HostLaws0 := exact_laws)
           [[("brand", "GM - Chevrolet"); ("avg_price_brl", "abc")];
            [("brand", " - x")]]).
Defined.

Lemma cleanData_parseCSV_keeps_all_witness :
  cleanData (num := Exact.number) (parseCSV sampleCsv)
  = map cleanRow (parseCSV sampleCsv).
Proof.
  exact (cleanData_parseCSV_keeps_all (HostLaws0 := exact_laws) sampleCsv).
Defined.

Lemma upload_succeeds_witness :
  let st : AppState Exact.number :=
    {| data := []; loading := false; fileName := None; error := Some readError |} in
  onload (Some sampleCsv) (handleFileUpload (Some "cars.csv") st)
  = {| data := cleanData (parseCSV sampleCsv); loading := false;
       fileName := Some "cars.csv"; error := None |}.
Proof.
  apply (upload_succeeds (num := Exact.number) "cars.csv" sampleCsv).
  discriminate.
Defined.

Lemma upload_without_rows_is_silent_witness :
  let st : AppState Exact.number :=
    {| data := []; loading := false; fileName := None; error := None |} in
  render (onload (Some "a,b,c") (handleFileUpload (Some "cars.csv") st))
  = {| uploadSection := true; loadingMessage := false;
       errorMessage := None; dashboard := None |}.
Proof.
  apply (upload_without_rows_is_silent (num := Exact.number) "cars.csv" "a,b,c").
  - discriminate.
  - vm_compute. reflexivity.
Defined.

Lemma brandData_keeps_largest_witness :
  In "VW" (map brand_name (brandDataOf sampleData))
  \/ (List.length (brandDataOf sampleData) = 10
      /\ forall e, In e (brandDataOf sampleData) ->
           List.length (rowsOfBrand "VW" sampleData)
           <= List.length (rowsOfBrand (brand_name e) sampleData)).
Proof.
  apply (brandData_keeps_largest sampleData "VW").
  - vm_compute. reflexivity.
  - discriminate.
  - vm_compute. discriminate.
Defined.

Lemma gearData_entries_witness :
  let e := {| gear_name := "Desconhecido"; gear_value := Count 2 |} in
  gear_name e <> EmptyString /\ gear_name e <> "__proto__"
  /\ rowsOfGear (gear_name e) sampleData <> []
  /\ gear_value e
     = tallyOf (gear_name e) (List.length (rowsOfGear (gear_name e) sampleData)).
Proof.
  apply (gearData_entries sampleData
           {| gear_name := "Desconhecido"; gear_value := Count 2 |}).
  vm_compute. right. right. left. reflexivity.
Defined.

Lemma groupedData_fills_witness :
  let g : GroupedData Exact.number :=
    {| grouped_name := "VW"; Automatico := Exact.Fin (inject_Z 10001);
       Manual := Exact.Fin (inject_Z 0) |} in
  inherited (grouped_name g) = false
  /\ (exists c n, automaticFill (grouped_name g) = Colour c /\ colorValue c = Some n)
  /\ (exists c n, manualFill (grouped_name g) = Return c /\ colorValue c = Some n).
Proof.
  apply (groupedData_fills sampleData
           {| grouped_name := "VW"; Automatico := Exact.Fin (inject_Z 10001);
              Manual := Exact.Fin (inject_Z 0) |}).
  vm_compute. right. left. reflexivity.
Defined.

Lemma fills_are_colours_witness :
  (exists c n, brandFill "Outros" = Colour c /\ colorValue c = Some n)
  /\ (exists c n, automaticFill "Outros" = Colour c /\ colorValue c = Some n)
  /\ (exists c n, manualFill "Outros" = Return c /\ colorValue c = Some n)
  /\ (exists c n, gearFill "Desconhecido" 2 = Some c /\ colorValue c = Some n).
Proof.
  apply (fills_are_colours "Outros" "Desconhecido" 2). reflexivity.
Defined.

Lemma groupedData_means_witness :
  let g : GroupedData Exact.number :=
    {| grouped_name := "VW"; Automatico := Exact.Fin (inject_Z 10001);
       Manual := Exact.Fin (inject_Z 0) |} in
  Automatico g = roundedMean (pricedRows (grouped_name g) "automatic" sampleData)
  /\ Manual g = roundedMean (pricedRows (grouped_name g) "manual" sampleData).
Proof.
  apply (groupedData_means sampleData
           {| grouped_name := "VW"; Automatico := Exact.Fin (inject_Z 10001);
              Manual := Exact.Fin (inject_Z 0) |}).
  vm_compute. right. left. reflexivity.
Defined.

Lemma evolutionData_sorted_witness :
  StronglySorted byQuarter (evolutionDataOf sampleData).
Proof.
  exact (evolutionData_sorted (HostLaws0 := exact_laws) sampleData).
Defined.

Lemma lightenColor_lightens_witness :
  let n := 11341615%Z in
  lightenColor "#AD0F2F" 30
  = colorOf (lighten 30 (red n)) (lighten 30 (green n)) (lighten 30 (blue n))
  /\ (red n <= lighten 30 (red n) <= 255)%Z
  /\ (green n <= lighten 30 (green n) <= 255)%Z
  /\ (blue n <= lighten 30 (blue n) <= 255)%Z.
Proof.
  apply (lightenColor_lightens "#AD0F2F" 11341615 30).
  - vm_compute. reflexivity.
  - lia.
Defined.

Lemma lightenColor_composes_witness :
  let n := 11341615%Z in
  colorValue (lightenColor "#AD0F2F" 30)
  = Some (65536 * lighten 30 (red n) + 256 * lighten 30 (green n)
          + lighten 30 (blue n))%Z
  /\ lightenColor (lightenColor "#AD0F2F" 30) 50
     = colorOf (lighten 50 (lighten 30 (red n))) (lighten 50 (lighten 30 (green n)))
               (lighten 50 (lighten 30 (blue n))).
Proof.
  apply (lightenColor_composes "#AD0F2F" 11341615 30 50).
  - vm_compute. reflexivity.
  - lia.
  - lia.
Defined.

Lemma lightenColor_ends_witness :
  let n := 11341615%Z in
  colorValue (lightenColor "#AD0F2F" 0) = Some n
  /\ lightenColor "#AD0F2F" 0 = colorOf (red n) (green n) (blue n)
  /\ lightenColor "#AD0F2F" 100 = "#ffffff".
Proof.
  apply (lightenColor_ends "#AD0F2F" 11341615).
  vm_compute. reflexivity.
Defined.

Lemma lightenColor_unreadable_witness :
  lightenColor "zzz" 30 = lightenColor "#000000" 30.
Proof.
  apply (lightenColor_unreadable "zzz" 30). vm_compute. reflexivity.
Defined.

Lemma manualFill_lightens_automatic_witness :
  automaticFill "Fiat" = Colour "#AD0F2F"
  /\ exists n, colorValue "#AD0F2F" = Some n
     /\ manualFill "Fiat"
        = Return (colorOf (lighten 30 (red n)) (lighten 30 (green n))
                          (lighten 30 (blue n))).
Proof.
  apply (manualFill_lightens_automatic "Fiat" "#AD0F2F").
  vm_compute. reflexivity.
Defined.

Section RemoveFacts.
Context {num : Type} `{Host num}.

(** X27. Removing the file after a read that succeeded brings the page
    back to the upload section, with no dashboard and no message, whatever
    the content held; the name of the file stays in the state. *)
Theorem remove_after_upload (name text : string) (st : AppState num) :
  text <> EmptyString ->
  render (removeFile (onload (Some text) (handleFileUpload (Some name) st)))
  = {| uploadSection := true; loadingMessage := false;
       errorMessage := None; dashboard := None |}
  /\ fileName (removeFile (onload (Some text) (handleFileUpload (Some name) st)))
     = Some name.
Proof.
  intros Htext. unfold onload, onloadWith, handleFileUpload.
  apply String.eqb_neq in Htext. rewrite Htext. split; reflexivity.
Qed.
End RemoveFacts.

Lemma remove_after_upload_witness :
  let st : AppState Exact.number :=
    {| data := []; loading := false; fileName := None; error := None |} in
  render (removeFile (onload (Some sampleCsv) (handleFileUpload (Some "cars.csv") st)))
  = {| uploadSection := true; loadingMessage := false;
       errorMessage := None; dashboard := None |}
  /\ fileName (removeFile (onload (Some sampleCsv)
                             (handleFileUpload (Some "cars.csv") st)))
     = Some "cars.csv".
Proof.
  apply (remove_after_upload (num := Exact.number) "cars.csv" sampleCsv).
  discriminate.
Defined.
